(** * Pre-market AMM: a shallow embedding of the trading core

    The TypeScript sources embedded here are

    - [PriceCalculator] (src/models/PriceCalculator.ts),
    - [Token]           (the in-memory ledger, src/models/Token.ts),
    - [LiquidityPool]   (the multi-range pool, src/models/LiquidityPool.ts),
    - [BoundedLiquidityPool] (the [LiquidityPool] class with one price
      range per pool),
    - [WPreMarketAMM]   (the registry of pools, src/models/WPreMarketAMM.ts).

    Numbers.  A JavaScript [number] is modelled as a real number: the
    development reasons about the exact arithmetic that the code rounds.
    [NaN] and the infinities have no counterpart.  The one place where the
    pool turns a finite input into [NaN] is [Math.sqrt] of a negative
    initial price in the constructor; the scenarios below start from
    initial prices that are not negative.

    Effects.  A method that can [throw] is a function from the world to a
    result and a world: whatever was mutated before the [throw] stays
    mutated, as it does in JavaScript.  Token objects live in a store and
    the pool holds references to them, so a pool whose two tokens are the
    same object is representable.  [console.log] output is not modelled. *)

From Stdlib Require Import Reals Lra.
From stdpp Require Import base option list strings gmap pretty functions.

Local Open Scope R_scope.

(** ** Numbers *)

Module Num.

(** Comparisons of the source, as booleans. *)
Definition ltb (x y : R) : bool := if Rlt_dec x y then true else false.
Definition leb (x y : R) : bool := if Rle_dec x y then true else false.
Definition eqb (x y : R) : bool := if Req_dec_T x y then true else false.

End Num.

(** ** Errors

    The source throws [Error] objects that differ only in their message;
    each constructor stands for one family of messages. *)

Inductive Error : Type :=
  | InvalidRange              (* "Invalid price range: ..." *)
  | NonPositiveAmount         (* "... amount must be positive" *)
  | InsufficientBalance       (* "Insufficient balance: ..." *)
  | SettlementPhaseViolation  (* "Cannot ... during settlement phase" *)
  | AlreadyInSettlement       (* "Already in settlement phase" *)
  | NoLiquidityAvailable.     (* "No liquidity available at current price or ..." *)

Definition result (A : Type) : Type := (Error + A)%type.

(** ** PriceCalculator *)

Module PriceCalculator.

(** The guard every formula starts with:
    [pa >= pb || pa <= 0 || pb <= 0]. *)
Definition invalidRange (pa pb : R) : bool :=
  Num.leb pb pa || Num.leb pa 0 || Num.leb pb 0.

Definition calculateLiquidity (x pa pb : R) : result R :=
  if invalidRange pa pb then inl InvalidRange
  else
    let sqrtPa := sqrt pa in
    let sqrtPb := sqrt pb in
    inr (x / (1 / sqrtPa - 1 / sqrtPb)).

Definition calculatePreTokenAmount (x pa pb : R) : result R :=
  if invalidRange pa pb then inl InvalidRange
  else
    let sqrtPa := sqrt pa in
    let sqrtPb := sqrt pb in
    inr ((x * (sqrtPb - sqrtPa)) / (1 / sqrtPa - 1 / sqrtPb)).

Definition calculateBaseAmount (y pa pb : R) : result R :=
  if invalidRange pa pb then inl InvalidRange
  else
    let sqrtPa := sqrt pa in
    let sqrtPb := sqrt pb in
    inr ((y * (1 / sqrtPa - 1 / sqrtPb)) / (sqrtPb - sqrtPa)).

Definition calculateCurrentPrice
    (baseReserve preTokenReserve pa pb : R) : result R :=
  if Num.eqb preTokenReserve 0 then inr pa
  else if Num.eqb baseReserve 0 then inr pb
  else
    match calculateLiquidity baseReserve pa pb with
    | inl e => inl e
    | inr liquidity =>
        let sqrtPa := sqrt pa in
        let sqrtP := preTokenReserve / liquidity + sqrtPa in
        inr (sqrtP * sqrtP)
    end.

End PriceCalculator.

(** ** Token: the in-memory ledger *)

Module Token.

Record Token : Type := mk {
  _name : string;
  _symbol : string;
  _decimals : nat;
  _totalSupply : R;
  _balances : gmap string R
}.

Definition new (name symbol : string) (decimals : nat) : Token :=
  mk name symbol decimals 0 ∅.

(** [this._balances.get(account) || 0] *)
Definition balanceOf (t : Token) (account : string) : R :=
  default 0 (_balances t !! account).

Definition withBalance (account : string) (v : R) (t : Token) : Token :=
  mk (_name t) (_symbol t) (_decimals t) (_totalSupply t)
     (<[account := v]> (_balances t)).

Definition withTotalSupply (v : R) (t : Token) : Token :=
  mk (_name t) (_symbol t) (_decimals t) v (_balances t).

Definition mint (to : string) (amount : R) (t : Token) : bool * Token :=
  if Num.leb amount 0 then (false, t)
  else
    let currentBalance := balanceOf t to in
    let t := withBalance to (currentBalance + amount) t in
    let t := withTotalSupply (_totalSupply t + amount) t in
    (true, t).

Definition burn (from : string) (amount : R) (t : Token) : bool * Token :=
  let currentBalance := balanceOf t from in
  if Num.leb amount 0 || Num.ltb currentBalance amount then (false, t)
  else
    let t := withBalance from (currentBalance - amount) t in
    let t := withTotalSupply (_totalSupply t - amount) t in
    (true, t).

(** The credit reads the balance of [to] after the debit was written,
    so a transfer from an account to itself leaves it as it was. *)
Definition transfer (from to : string) (amount : R) (t : Token)
    : bool * Token :=
  let fromBalance := balanceOf t from in
  if Num.leb amount 0 || Num.ltb fromBalance amount then (false, t)
  else
    let t := withBalance from (fromBalance - amount) t in
    let t := withBalance to (balanceOf t to + amount) t in
    (true, t).

End Token.

(** ** Containers of the JavaScript runtime *)

Module Js.

Section Generic.
Context {A : Type}.

(** A [Map<string, A>] keeps its entries in insertion order; [set] on a
    key already present replaces the value where it stands. *)
Fixpoint Map_set (k : string) (v : A) (m : list (string * A))
    : list (string * A) :=
  match m with
  | [] => [(k, v)]
  | (k', v') :: m' =>
      if decide (k' = k) then (k, v) :: m' else (k', v') :: Map_set k v m'
  end.

Definition Map_values (m : list (string * A)) : list A := m.*2.

Definition Map_size (m : list (string * A)) : nat := length m.

(** [Array.prototype.sort] with a comparator that returns a number: the
    sort is stable, so an element stays before the later elements that
    compare equal to it. *)
Fixpoint sort_insert (cmp : A -> A -> R) (x : A) (l : list A) : list A :=
  match l with
  | [] => [x]
  | y :: l' =>
      if Num.ltb 0 (cmp x y) then y :: sort_insert cmp x l' else x :: l
  end.

Definition Array_sort (cmp : A -> A -> R) (l : list A) : list A :=
  foldr (sort_insert cmp) [] l.

(** [Array.prototype.findIndex]; [None] stands for [-1]. *)
Fixpoint findIndex (f : A -> bool) (l : list A) : option nat :=
  match l with
  | [] => None
  | x :: l' => if f x then Some 0%nat else S <$> findIndex f l'
  end.

End Generic.

End Js.

(** ** LiquidityPool *)

Module LPPosition.

Record t : Type := mk {
  id : string;
  owner : string;
  liquidity : R;
  lowerPriceBound : R;  (* Pa *)
  upperPriceBound : R;  (* Pb *)
  collateralAmount : R;
  initialPreTokenAmount : R
}.

End LPPosition.

(** A reference to a [Token] object. *)
Abbreviation TokenRef := nat (only parsing).

Module LiquidityPool.

Record t : Type := mk {
  _baseToken : TokenRef;
  _preToken : TokenRef;
  _baseReserve : R;
  _preTokenReserve : R;
  _liquidity : R;
  _lpPositions : list (string * LPPosition.t);
  _isSettlementPhase : bool;
  _realToken : option TokenRef;
  _nextPositionId : nat;
  _currentSqrtPrice : R;
  _initialPriceSet : bool
}.

(** [_feePercentage] is initialised to 0.003 and never assigned. *)
Definition _feePercentage : R := 3 / 1000.

(** The account under which the pool holds its tokens. *)
Definition POOL : string := "POOL".

(** The world a method runs in: the token objects and the pool. *)
Record World : Type := mkWorld {
  store : TokenRef -> Token.Token;
  pool : t
}.

(** *** Methods as state transformers that can throw *)

Definition M (A : Type) : Type := World -> result A * World.

Definition ret {A} (a : A) : M A := fun w => (inr a, w).

Definition throw {A} (e : Error) : M A := fun w => (inl e, w).

Definition bind {A B} (m : M A) (k : A -> M B) : M B :=
  fun w =>
    match m w with
    | (inl e, w') => (inl e, w')
    | (inr a, w') => k a w'
    end.

Notation "'let*' x ':=' m 'in' k" := (bind m (fun x => k))
  (at level 10, x name, m at level 100, k at level 200).

(** A call that returns a value of [PriceCalculator] or rethrows. *)
Definition lift {A} (r : result A) : M A := fun w => (r, w).

Definition this : M t := fun w => (inr (pool w), w).

Definition assign (f : t -> t) : M unit :=
  fun w => (inr tt, mkWorld (store w) (f (pool w))).

(** A read-only method of the token behind [r]. *)
Definition view {A} (r : TokenRef) (f : Token.Token -> A) : M A :=
  fun w => (inr (f (store w r)), w).

(** A mutating method of the token behind [r]. *)
Definition call {A} (r : TokenRef) (f : Token.Token -> A * Token.Token)
    : M A :=
  fun w =>
    let '(a, tok) := f (store w r) in
    (inr a, mkWorld (<[r := tok]> (store w)) (pool w)).

Definition when (b : bool) (m : M unit) : M unit :=
  if b then m else ret tt.

(** *** Field assignments *)

Definition set_reserves (base pre liq : R) (p : t) : t :=
  mk (_baseToken p) (_preToken p) base pre liq (_lpPositions p)
     (_isSettlementPhase p) (_realToken p) (_nextPositionId p)
     (_currentSqrtPrice p) (_initialPriceSet p).

Definition set_lpPositions (m : list (string * LPPosition.t)) (p : t) : t :=
  mk (_baseToken p) (_preToken p) (_baseReserve p) (_preTokenReserve p)
     (_liquidity p) m (_isSettlementPhase p) (_realToken p)
     (_nextPositionId p) (_currentSqrtPrice p) (_initialPriceSet p).

Definition set_nextPositionId (n : nat) (p : t) : t :=
  mk (_baseToken p) (_preToken p) (_baseReserve p) (_preTokenReserve p)
     (_liquidity p) (_lpPositions p) (_isSettlementPhase p) (_realToken p)
     n (_currentSqrtPrice p) (_initialPriceSet p).

Definition set_currentSqrtPrice (s : R) (p : t) : t :=
  mk (_baseToken p) (_preToken p) (_baseReserve p) (_preTokenReserve p)
     (_liquidity p) (_lpPositions p) (_isSettlementPhase p) (_realToken p)
     (_nextPositionId p) s (_initialPriceSet p).

Definition set_initialPriceSet (b : bool) (p : t) : t :=
  mk (_baseToken p) (_preToken p) (_baseReserve p) (_preTokenReserve p)
     (_liquidity p) (_lpPositions p) (_isSettlementPhase p) (_realToken p)
     (_nextPositionId p) (_currentSqrtPrice p) b.

Definition set_settlement (b : bool) (r : option TokenRef) (p : t) : t :=
  mk (_baseToken p) (_preToken p) (_baseReserve p) (_preTokenReserve p)
     (_liquidity p) (_lpPositions p) b r
     (_nextPositionId p) (_currentSqrtPrice p) (_initialPriceSet p).

(** *** constructor

    [initialPrice ? Math.sqrt(initialPrice) : 0]: an initial price of 0 is
    falsy, and [_initialPriceSet] only asks whether one was passed. *)
Definition constructor (baseToken preToken : TokenRef)
    (initialPrice : option R) : t :=
  mk baseToken preToken 0 0 0 [] false None 1%nat
     (match initialPrice with
      | Some price => if Num.eqb price 0 then 0 else sqrt price
      | None => 0
      end)
     (match initialPrice with Some _ => true | None => false end).

Definition getCurrentPrice (p : t) : R :=
  _currentSqrtPrice p * _currentSqrtPrice p.

Definition getAllLPPositions (p : t) : list LPPosition.t :=
  Js.Map_values (_lpPositions p).

(** *** addLiquidity *)

Definition addLiquidity (owner : string) (baseAmount pa pb : R) : M string :=
  let* self := this in
  if _isSettlementPhase self then throw SettlementPhaseViolation else
  if Num.leb baseAmount 0 then throw NonPositiveAmount else
  let* lpBaseBalance :=
    view (_baseToken self) (fun tok => Token.balanceOf tok owner) in
  if Num.ltb lpBaseBalance (baseAmount * 2) then throw InsufficientBalance
  else
  let* preTokenAmount :=
    lift (PriceCalculator.calculatePreTokenAmount baseAmount pa pb) in
  let* liquidityAmount :=
    lift (PriceCalculator.calculateLiquidity baseAmount pa pb) in
  let* _ :=
    call (_baseToken self) (Token.transfer owner POOL (baseAmount * 2)) in
  let* _ :=
    assign (fun p => set_reserves (_baseReserve p + baseAmount)
                                  (_preTokenReserve p + preTokenAmount)
                                  (_liquidity p + liquidityAmount) p) in
  let* _ := call (_preToken self) (Token.mint POOL preTokenAmount) in
  let positionId := "LP-" +:+ pretty (_nextPositionId self) in
  let* _ := assign (fun p => set_nextPositionId (S (_nextPositionId p)) p) in
  let position :=
    LPPosition.mk positionId owner liquidityAmount pa pb baseAmount
                  preTokenAmount in
  let* _ :=
    assign (fun p =>
              set_lpPositions (Js.Map_set positionId position (_lpPositions p))
                              p) in
  let* now := this in
  let* _ :=
    when (negb (_initialPriceSet now)
          && Nat.eqb (Js.Map_size (_lpPositions now)) 1)
         (assign (fun p =>
                    set_initialPriceSet true
                      (set_currentSqrtPrice (sqrt pa) p))) in
  ret positionId.

(** *** swapBaseForPreToken *)

(** [pos.lowerPriceBound <= currentPrice && pos.upperPriceBound >= currentPrice] *)
Definition containsPrice (currentPrice : R) (pos : LPPosition.t) : bool :=
  Num.leb (LPPosition.lowerPriceBound pos) currentPrice
  && Num.leb currentPrice (LPPosition.upperPriceBound pos).

(** The position the routing starts at: the first one that contains the
    current price, else the first one that satisfies [beyond]. *)
Definition startIndex (currentPrice : R) (beyond : LPPosition.t -> bool)
    (positions : list LPPosition.t) : option nat :=
  match Js.findIndex (containsPrice currentPrice) positions with
  | Some i => Some i
  | None => Js.findIndex beyond positions
  end.

(** The [while] loop of the buy path, run on the positions from
    [currentPositionIndex] on; it returns the final [remainingBaseAmount],
    [totalPreTokenOutput] and [newSqrtPrice]. *)
Fixpoint routeBase (positions : list LPPosition.t)
    (remainingBaseAmount totalPreTokenOutput newSqrtPrice : R)
    : R * R * R :=
  match positions with
  | [] => (remainingBaseAmount, totalPreTokenOutput, newSqrtPrice)
  | position :: rest =>
      if Num.ltb 0 remainingBaseAmount then
        let liquidity := LPPosition.liquidity position in
        let lowerSqrtPrice := sqrt (LPPosition.lowerPriceBound position) in
        let upperSqrtPrice := sqrt (LPPosition.upperPriceBound position) in
        let newSqrtPrice :=
          if Num.ltb newSqrtPrice lowerSqrtPrice then lowerSqrtPrice
          else newSqrtPrice in
        let maxNewSqrtPrice := newSqrtPrice + remainingBaseAmount / liquidity in
        let effectiveNewSqrtPrice := Rmin maxNewSqrtPrice upperSqrtPrice in
        let baseAmountUsed :=
          liquidity * (effectiveNewSqrtPrice - newSqrtPrice) in
        let preTokenReceived :=
          liquidity * (1 / newSqrtPrice - 1 / effectiveNewSqrtPrice) in
        let remainingBaseAmount := remainingBaseAmount - baseAmountUsed in
        let totalPreTokenOutput := totalPreTokenOutput + preTokenReceived in
        if Num.ltb effectiveNewSqrtPrice upperSqrtPrice then
          (remainingBaseAmount, totalPreTokenOutput, effectiveNewSqrtPrice)
        else
          routeBase rest remainingBaseAmount totalPreTokenOutput
                    effectiveNewSqrtPrice
      else (remainingBaseAmount, totalPreTokenOutput, newSqrtPrice)
  end.

Definition swapBaseForPreToken (trader : string) (baseAmount : R) : M R :=
  let* self := this in
  if _isSettlementPhase self then throw SettlementPhaseViolation else
  if Num.leb baseAmount 0 then throw NonPositiveAmount else
  let* traderBaseBalance :=
    view (_baseToken self) (fun tok => Token.balanceOf tok trader) in
  if Num.ltb traderBaseBalance baseAmount then throw InsufficientBalance
  else
  let fee := baseAmount * _feePercentage in
  let baseAmountAfterFee := baseAmount - fee in
  let* _ := call (_baseToken self) (Token.transfer trader POOL baseAmount) in
  let currentPrice := getCurrentPrice self in
  let currentSqrtPrice := sqrt currentPrice in
  let positions :=
    Js.Array_sort
      (fun a b => LPPosition.lowerPriceBound a - LPPosition.lowerPriceBound b)
      (Js.Map_values (_lpPositions self)) in
  match startIndex currentPrice
          (fun pos => Num.ltb currentPrice (LPPosition.lowerPriceBound pos))
          positions with
  | None => throw NoLiquidityAvailable
  | Some currentPositionIndex =>
      let '(remainingBaseAmount, totalPreTokenOutput, newSqrtPrice) :=
        routeBase (drop currentPositionIndex positions)
                  baseAmountAfterFee 0 currentSqrtPrice in
      let* _ :=
        if Num.ltb 0 remainingBaseAmount then
          call (_baseToken self)
               (Token.transfer POOL trader remainingBaseAmount)
        else ret false in
      let* _ :=
        assign (fun p =>
                  set_reserves
                    (_baseReserve p
                     + (baseAmountAfterFee - remainingBaseAmount))
                    (_preTokenReserve p - totalPreTokenOutput)
                    (_liquidity p) p) in
      let* _ := assign (set_currentSqrtPrice newSqrtPrice) in
      let* _ :=
        call (_preToken self)
             (Token.transfer POOL trader totalPreTokenOutput) in
      ret totalPreTokenOutput
  end.

(** *** swapPreTokenForBase *)

Fixpoint routePre (positions : list LPPosition.t)
    (remainingPreTokenAmount totalBaseTokenOutput newSqrtPrice : R)
    : R * R * R :=
  match positions with
  | [] => (remainingPreTokenAmount, totalBaseTokenOutput, newSqrtPrice)
  | position :: rest =>
      if Num.ltb 0 remainingPreTokenAmount then
        let liquidity := LPPosition.liquidity position in
        let lowerSqrtPrice := sqrt (LPPosition.lowerPriceBound position) in
        let upperSqrtPrice := sqrt (LPPosition.upperPriceBound position) in
        let newSqrtPrice :=
          if Num.ltb upperSqrtPrice newSqrtPrice then upperSqrtPrice
          else newSqrtPrice in
        let divisor := remainingPreTokenAmount / liquidity + 1 / newSqrtPrice in
        let minNewSqrtPrice := if Num.ltb 0 divisor then 1 / divisor else 0 in
        let effectiveNewSqrtPrice := Rmax minNewSqrtPrice lowerSqrtPrice in
        let preTokenUsed :=
          liquidity * (1 / newSqrtPrice - 1 / effectiveNewSqrtPrice) in
        let baseTokenReceived :=
          liquidity * (newSqrtPrice - effectiveNewSqrtPrice) in
        let remainingPreTokenAmount := remainingPreTokenAmount - preTokenUsed in
        let totalBaseTokenOutput := totalBaseTokenOutput + baseTokenReceived in
        if Num.ltb lowerSqrtPrice effectiveNewSqrtPrice then
          (remainingPreTokenAmount, totalBaseTokenOutput,
           effectiveNewSqrtPrice)
        else
          routePre rest remainingPreTokenAmount totalBaseTokenOutput
                   effectiveNewSqrtPrice
      else (remainingPreTokenAmount, totalBaseTokenOutput, newSqrtPrice)
  end.

Definition swapPreTokenForBase (trader : string) (preTokenAmount : R)
    : M R :=
  let* self := this in
  if _isSettlementPhase self then throw SettlementPhaseViolation else
  if Num.leb preTokenAmount 0 then throw NonPositiveAmount else
  let* traderPreTokenBalance :=
    view (_preToken self) (fun tok => Token.balanceOf tok trader) in
  if Num.ltb traderPreTokenBalance preTokenAmount
  then throw InsufficientBalance
  else
  let* _ :=
    call (_preToken self) (Token.transfer trader POOL preTokenAmount) in
  let currentPrice := getCurrentPrice self in
  let currentSqrtPrice := sqrt currentPrice in
  let positions :=
    Js.Array_sort
      (fun a b => LPPosition.upperPriceBound b - LPPosition.upperPriceBound a)
      (Js.Map_values (_lpPositions self)) in
  match startIndex currentPrice
          (fun pos => Num.ltb (LPPosition.upperPriceBound pos) currentPrice)
          positions with
  | None => throw NoLiquidityAvailable
  | Some currentPositionIndex =>
      let '(remainingPreTokenAmount, totalBaseTokenOutput, newSqrtPrice) :=
        routePre (drop currentPositionIndex positions)
                 preTokenAmount 0 currentSqrtPrice in
      let* _ :=
        if Num.ltb 0 remainingPreTokenAmount then
          call (_preToken self)
               (Token.transfer POOL trader remainingPreTokenAmount)
        else ret false in
      let fee := totalBaseTokenOutput * _feePercentage in
      let baseTokenOutputAfterFee := totalBaseTokenOutput - fee in
      let* _ :=
        assign (fun p =>
                  set_reserves
                    (_baseReserve p - totalBaseTokenOutput)
                    (_preTokenReserve p
                     + (preTokenAmount - remainingPreTokenAmount))
                    (_liquidity p) p) in
      let* _ := assign (set_currentSqrtPrice newSqrtPrice) in
      let* _ :=
        call (_baseToken self)
             (Token.transfer POOL trader baseTokenOutputAfterFee) in
      ret baseTokenOutputAfterFee
  end.

(** *** enterSettlementPhase *)

Definition enterSettlementPhase (realToken : TokenRef) : M unit :=
  let* self := this in
  if _isSettlementPhase self then throw AlreadyInSettlement else
  assign (set_settlement true (Some realToken)).

End LiquidityPool.

(** ** Histories

    What a client can do to a world: call the pool, or call a token
    directly, as the simulation does when it funds the accounts. *)

Inductive Op : Type :=
  | AddLiquidity (owner : string) (baseAmount pa pb : R)
  | SwapBaseForPreToken (trader : string) (baseAmount : R)
  | SwapPreTokenForBase (trader : string) (preTokenAmount : R)
  | EnterSettlementPhase (realToken : TokenRef)
  | TokenMint (token : TokenRef) (to : string) (amount : R)
  | TokenBurn (token : TokenRef) (from : string) (amount : R)
  | TokenTransfer (token : TokenRef) (from to : string) (amount : R).

(** What a call returns. *)
Inductive Value : Type :=
  | VString (s : string)
  | VNumber (x : R)
  | VBool (b : bool)
  | VVoid.

Definition returning {A} (f : A -> Value)
    (r : result A * LiquidityPool.World) : result Value * LiquidityPool.World :=
  (match r.1 with inl e => inl e | inr a => inr (f a) end, r.2).

Definition exec (op : Op) (w : LiquidityPool.World)
    : result Value * LiquidityPool.World :=
  match op with
  | AddLiquidity owner baseAmount pa pb =>
      returning VString (LiquidityPool.addLiquidity owner baseAmount pa pb w)
  | SwapBaseForPreToken trader baseAmount =>
      returning VNumber (LiquidityPool.swapBaseForPreToken trader baseAmount w)
  | SwapPreTokenForBase trader preTokenAmount =>
      returning VNumber
        (LiquidityPool.swapPreTokenForBase trader preTokenAmount w)
  | EnterSettlementPhase realToken =>
      returning (fun _ => VVoid) (LiquidityPool.enterSettlementPhase realToken w)
  | TokenMint token to amount =>
      returning VBool (LiquidityPool.call token (Token.mint to amount) w)
  | TokenBurn token from amount =>
      returning VBool (LiquidityPool.call token (Token.burn from amount) w)
  | TokenTransfer token from to amount =>
      returning VBool
        (LiquidityPool.call token (Token.transfer from to amount) w)
  end.

(** A caller that catches what is thrown goes on in the world the failed
    call left behind. *)
Definition step (w : LiquidityPool.World) (op : Op) : LiquidityPool.World :=
  (exec op w).2.

Definition run (ops : list Op) (w : LiquidityPool.World)
    : LiquidityPool.World :=
  foldl step w ops.

(** A fresh pool over a store of tokens. *)
Definition initial (tokens : TokenRef -> Token.Token)
    (baseToken preToken : TokenRef) (initialPrice : option R)
    : LiquidityPool.World :=
  LiquidityPool.mkWorld tokens
    (LiquidityPool.constructor baseToken preToken initialPrice).

(** The pool's base-token holdings that [baseReserve] does not count. *)
Definition surplus (w : LiquidityPool.World) : R :=
  Token.balanceOf
    (LiquidityPool.store w (LiquidityPool._baseToken (LiquidityPool.pool w)))
    LiquidityPool.POOL
  - LiquidityPool._baseReserve (LiquidityPool.pool w).

(** ** The paths through the methods

    Names for the values a call computes on the way, so that the
    statements below can speak about them. *)

(** The amounts [addLiquidity] gets from [PriceCalculator] on a valid range. *)
Definition liquidityFor (x pa pb : R) : R :=
  x / (1 / sqrt pa - 1 / sqrt pb).

Definition preTokenFor (x pa pb : R) : R :=
  (x * (sqrt pb - sqrt pa)) / (1 / sqrt pa - 1 / sqrt pb).

(** The pool a successful [addLiquidity] leaves behind. *)
Definition addedPool (owner : string) (baseAmount pa pb : R)
    (p : LiquidityPool.t) : LiquidityPool.t :=
  let positionId := "LP-" +:+ pretty (LiquidityPool._nextPositionId p) in
  let position :=
    LPPosition.mk positionId owner (liquidityFor baseAmount pa pb) pa pb
                  baseAmount (preTokenFor baseAmount pa pb) in
  let q :=
    LiquidityPool.set_lpPositions
      (Js.Map_set positionId position (LiquidityPool._lpPositions p))
      (LiquidityPool.set_nextPositionId (S (LiquidityPool._nextPositionId p))
         (LiquidityPool.set_reserves
            (LiquidityPool._baseReserve p + baseAmount)
            (LiquidityPool._preTokenReserve p + preTokenFor baseAmount pa pb)
            (LiquidityPool._liquidity p + liquidityFor baseAmount pa pb) p)) in
  if negb (LiquidityPool._initialPriceSet p)
     && Nat.eqb (Js.Map_size (LiquidityPool._lpPositions q)) 1
  then LiquidityPool.set_initialPriceSet true
         (LiquidityPool.set_currentSqrtPrice (sqrt pa) q)
  else q.

(** The store after the token behind [r] ran a mutating method. *)
Definition tokenCall {A} (r : TokenRef) (f : Token.Token -> A * Token.Token)
    (tokens : TokenRef -> Token.Token) : TokenRef -> Token.Token :=
  <[r := (f (tokens r)).2]> tokens.

(** The tokens a successful [addLiquidity] leaves behind. *)
Definition addedStore (owner : string) (baseAmount pa pb : R)
    (w : LiquidityPool.World) : TokenRef -> Token.Token :=
  let p := LiquidityPool.pool w in
  tokenCall (LiquidityPool._preToken p)
    (Token.mint LiquidityPool.POOL (preTokenFor baseAmount pa pb))
    (tokenCall (LiquidityPool._baseToken p)
       (Token.transfer owner LiquidityPool.POOL (baseAmount * 2))
       (LiquidityPool.store w)).

(** The buy path: the sorted view, the index the routing starts at and
    what the loop returns from there. *)
Definition ascending (p : LiquidityPool.t) : list LPPosition.t :=
  Js.Array_sort
    (fun a b => LPPosition.lowerPriceBound a - LPPosition.lowerPriceBound b)
    (Js.Map_values (LiquidityPool._lpPositions p)).

Definition buyStart (p : LiquidityPool.t) : option nat :=
  LiquidityPool.startIndex (LiquidityPool.getCurrentPrice p)
    (fun pos => Num.ltb (LiquidityPool.getCurrentPrice p)
                        (LPPosition.lowerPriceBound pos))
    (ascending p).

Definition buyRoute (p : LiquidityPool.t) (i : nat) (baseAmountAfterFee : R)
    : R * R * R :=
  LiquidityPool.routeBase (drop i (ascending p)) baseAmountAfterFee 0
    (sqrt (LiquidityPool.getCurrentPrice p)).

(** The sell path. *)
Definition descending (p : LiquidityPool.t) : list LPPosition.t :=
  Js.Array_sort
    (fun a b => LPPosition.upperPriceBound b - LPPosition.upperPriceBound a)
    (Js.Map_values (LiquidityPool._lpPositions p)).

Definition sellStart (p : LiquidityPool.t) : option nat :=
  LiquidityPool.startIndex (LiquidityPool.getCurrentPrice p)
    (fun pos => Num.ltb (LPPosition.upperPriceBound pos)
                        (LiquidityPool.getCurrentPrice p))
    (descending p).

Definition sellRoute (p : LiquidityPool.t) (i : nat) (preTokenAmount : R)
    : R * R * R :=
  LiquidityPool.routePre (drop i (descending p)) preTokenAmount 0
    (sqrt (LiquidityPool.getCurrentPrice p)).

(** The world a buy leaves behind once its three guards have passed,
    together with what it returns or throws. *)
Definition bought (trader : string) (baseAmount : R) (w : LiquidityPool.World)
    : result R * LiquidityPool.World :=
  let p := LiquidityPool.pool w in
  let baseAmountAfterFee := baseAmount - baseAmount * LiquidityPool._feePercentage in
  let paid :=
    tokenCall (LiquidityPool._baseToken p)
      (Token.transfer trader LiquidityPool.POOL baseAmount)
      (LiquidityPool.store w) in
  match buyStart p with
  | None => (inl NoLiquidityAvailable, LiquidityPool.mkWorld paid p)
  | Some i =>
      let r := buyRoute p i baseAmountAfterFee in
      let refunded :=
        if Num.ltb 0 r.1.1
        then tokenCall (LiquidityPool._baseToken p)
               (Token.transfer LiquidityPool.POOL trader r.1.1) paid
        else paid in
      (inr r.1.2,
       LiquidityPool.mkWorld
         (tokenCall (LiquidityPool._preToken p)
            (Token.transfer LiquidityPool.POOL trader r.1.2) refunded)
         (LiquidityPool.set_currentSqrtPrice r.2
            (LiquidityPool.set_reserves
               (LiquidityPool._baseReserve p + (baseAmountAfterFee - r.1.1))
               (LiquidityPool._preTokenReserve p - r.1.2)
               (LiquidityPool._liquidity p) p)))
  end.

(** The same for a sell. *)
Definition sold (trader : string) (preTokenAmount : R)
    (w : LiquidityPool.World) : result R * LiquidityPool.World :=
  let p := LiquidityPool.pool w in
  let paid :=
    tokenCall (LiquidityPool._preToken p)
      (Token.transfer trader LiquidityPool.POOL preTokenAmount)
      (LiquidityPool.store w) in
  match sellStart p with
  | None => (inl NoLiquidityAvailable, LiquidityPool.mkWorld paid p)
  | Some i =>
      let r := sellRoute p i preTokenAmount in
      let refunded :=
        if Num.ltb 0 r.1.1
        then tokenCall (LiquidityPool._preToken p)
               (Token.transfer LiquidityPool.POOL trader r.1.1) paid
        else paid in
      let baseTokenOutputAfterFee :=
        r.1.2 - r.1.2 * LiquidityPool._feePercentage in
      (inr baseTokenOutputAfterFee,
       LiquidityPool.mkWorld
         (tokenCall (LiquidityPool._baseToken p)
            (Token.transfer LiquidityPool.POOL trader baseTokenOutputAfterFee)
            refunded)
         (LiquidityPool.set_currentSqrtPrice r.2
            (LiquidityPool.set_reserves
               (LiquidityPool._baseReserve p - r.1.2)
               (LiquidityPool._preTokenReserve p + (preTokenAmount - r.1.1))
               (LiquidityPool._liquidity p) p)))
  end.

(** ** Invariants *)

(** The part of the pool that only [addLiquidity] writes. *)
Definition sameBook (p p' : LiquidityPool.t) : Prop :=
  LiquidityPool._lpPositions p' = LiquidityPool._lpPositions p
  /\ LiquidityPool._initialPriceSet p' = LiquidityPool._initialPriceSet p
  /\ (LiquidityPool._lpPositions p = [] ->
      LiquidityPool._currentSqrtPrice p' = LiquidityPool._currentSqrtPrice p).

(** The flag [_initialPriceSet] says that a price was passed to the
    constructor or that a position exists; until then the price is 0. *)
Definition priceSetInv (initialPrice : option R) (p : LiquidityPool.t)
    : Prop :=
  (LiquidityPool._initialPriceSet p = true
   <-> is_Some initialPrice \/ LiquidityPool._lpPositions p <> [])
  /\ (initialPrice = None -> LiquidityPool._lpPositions p = [] ->
      LiquidityPool._currentSqrtPrice p = 0).

(** Every stored position has a valid range and a positive liquidity, so
    the routing loops divide by non-zero numbers only: by a liquidity, and
    by square-root prices that were clamped into a valid range. *)
Definition validPosition (pos : LPPosition.t) : Prop :=
  0 < LPPosition.lowerPriceBound pos
  /\ LPPosition.lowerPriceBound pos < LPPosition.upperPriceBound pos
  /\ 0 < LPPosition.liquidity pos.

Definition validBook (p : LiquidityPool.t) : Prop :=
  Forall validPosition (Js.Map_values (LiquidityPool._lpPositions p)).

(** ** Scenarios *)

Definition usdc (supply : R) (balances : gmap string R) : Token.Token :=
  Token.mk "USD Coin" "USDC" 6 supply balances.

Definition preX (supply : R) (balances : gmap string R) : Token.Token :=
  Token.mk "Pre-Token X" "pX" 18 supply balances.

(** A store with the base token behind reference 0 and the pre-token
    behind every other one. *)
Definition tokensOf (base pre : Token.Token) : TokenRef -> Token.Token :=
  fun r => match r with O => base | S _ => pre end.

(** Scenario C: a fresh pool without a position; the trader holds 100 base
    tokens and 50 pre-tokens. *)
Definition emptyPool : LiquidityPool.World :=
  initial (tokensOf (usdc 100 {[ "Trader1" := 100 ]})
                    (preX 50 {[ "Trader1" := 50 ]}))
          0%nat 1%nat None.


(** Nested ranges on the buy side: the pool starts at price 25, LP1 covers
    [1, 100] and LP2 covers [4, 9], which lies below the price. *)
Definition nestedBuy : LiquidityPool.World :=
  run [AddLiquidity "LP1" 9 1 100; AddLiquidity "LP2" 6 4 9]
      (initial (tokensOf (usdc 1030 {[ "LP1" := 18; "LP2" := 12;
                                       "Trader1" := 1000 ]})
                         (preX 0 ∅))
               0%nat 1%nat (Some 25)).

(** Nested ranges on the sell side: the pool starts at price 4, LP1 covers
    [1, 100] and LP2 covers [16, 25], which lies above the price. *)
Definition nestedSell : LiquidityPool.World :=
  run [AddLiquidity "LP1" 9 1 100; AddLiquidity "LP2" 1 16 25]
      (initial (tokensOf (usdc 20 {[ "LP1" := 18; "LP2" := 2 ]})
                         (preX 100 {[ "Trader1" := 100 ]}))
               0%nat 1%nat (Some 4)).

(** One position [1, 100] funded with 9 base tokens in a pool that starts
    without a price; the pool account then holds 18 base tokens. *)
Definition onePosition : LiquidityPool.World :=
  run [AddLiquidity "LP1" 9 1 100]
      (initial (tokensOf (usdc 18 {[ "LP1" := 18 ]}) (preX 0 ∅))
               0%nat 1%nat None).

(** The same position in a pool that starts at price 25, next to a trader
    who holds 100 pre-tokens. *)
Definition shortPool : LiquidityPool.World :=
  run [AddLiquidity "LP1" 9 1 100]
      (initial (tokensOf (usdc 18 {[ "LP1" := 18 ]})
                         (preX 100 {[ "Trader1" := 100 ]}))
               0%nat 1%nat (Some 25)).

(** A pool built with one token object as base token and as pre-token. *)
Definition oneLedger : LiquidityPool.World :=
  initial (tokensOf (usdc 18 {[ "LP1" := 18 ]}) (preX 0 ∅))
          0%nat 0%nat None.

(** Histories in which no [addLiquidity] has succeeded. *)
Definition isAddLiquidity (op : Op) : bool :=
  match op with AddLiquidity _ _ _ _ => true | _ => false end.

Definition succeeded (op : Op) (w : LiquidityPool.World) : bool :=
  match (exec op w).1 with inr _ => true | inl _ => false end.


(** ** Further code *)

(** *** PriceCalculator.calculateSwapOutput

    Besides the range error of the conversions it calls, the function
    throws two errors of its own. *)

Inductive SwapOutputError : Type :=
  | InvalidInput            (* "Invalid input: All amounts must be positive" *)
  | InsufficientLiquidity   (* "Insufficient liquidity" *)
  | Raised (e : Error).     (* thrown by a conversion *)

(** A conversion called from [calculateSwapOutput]. *)
Definition raising {A} (r : result A) : SwapOutputError + A :=
  match r with
  | inl e => inl (Raised e)
  | inr a => inr a
  end.

Definition calculateSwapOutput
    (inputAmount inputReserve outputReserve pa pb : R)
    (isBaseToPreToken : bool) : SwapOutputError + R :=
  if Num.leb inputAmount 0 || Num.leb inputReserve 0
     || Num.leb outputReserve 0
  then inl InvalidInput
  else
    match raising (PriceCalculator.calculateLiquidity inputReserve pa pb) with
    | inl e => inl e
    | inr liquidity =>
        if isBaseToPreToken then
          let newBaseReserve := inputReserve + inputAmount in
          match raising (PriceCalculator.calculatePreTokenAmount
                           newBaseReserve pa pb) with
          | inl e => inl e
          | inr newPreTokenReserve => inr (newPreTokenReserve - outputReserve)
          end
        else
          let newPreTokenReserve := outputReserve - inputAmount in
          if Num.ltb newPreTokenReserve 0 then inl InsufficientLiquidity
          else
            match raising (PriceCalculator.calculateBaseAmount
                             newPreTokenReserve pa pb) with
            | inl e => inl e
            | inr newBaseReserve => inr (inputReserve - newBaseReserve)
            end
    end.

(** *** Histories of one token *)

Inductive TokenOp : Type :=
  | MintOp (to : string) (amount : R)
  | BurnOp (from : string) (amount : R)
  | TransferOp (from to : string) (amount : R).

Definition applyTokenOp (op : TokenOp) (t : Token.Token)
    : bool * Token.Token :=
  match op with
  | MintOp to amount => Token.mint to amount t
  | BurnOp from amount => Token.burn from amount t
  | TransferOp from to amount => Token.transfer from to amount t
  end.

Definition runTokenOps (ops : list TokenOp) (t : Token.Token) : Token.Token :=
  foldl (fun t op => (applyTokenOp op t).2) t ops.

(** The sum of all balances the token keeps. *)
Definition sumOfBalances (t : Token.Token) : R :=
  map_fold (fun _ v acc => v + acc) 0 (Token._balances t).

(** *** LiquidityPool.getLPPosition *)

(** [Map.prototype.get]; [None] stands for [undefined]. *)
Fixpoint Map_get {A} (k : string) (m : list (string * A)) : option A :=
  match m with
  | [] => None
  | (k', v) :: m' => if decide (k' = k) then Some v else Map_get k m'
  end.

Definition getLPPosition (positionId : string) (p : LiquidityPool.t)
    : option LPPosition.t :=
  Map_get positionId (LiquidityPool._lpPositions p).

(** The keys of the position map, in insertion order. *)
Definition positionIds (p : LiquidityPool.t) : list string :=
  (LiquidityPool._lpPositions p).*1.

(** The id [addLiquidity] builds from the counter. *)
Definition idOf (n : nat) : string := "LP-" +:+ pretty n.

(** *** What one call can do to the pool *)

(** The pool a buy that found its start index [i] leaves behind. *)
Definition boughtPool (p : LiquidityPool.t) (i : nat) (baseAmount : R)
    : LiquidityPool.t :=
  let baseAmountAfterFee :=
    baseAmount - baseAmount * LiquidityPool._feePercentage in
  let r := buyRoute p i baseAmountAfterFee in
  LiquidityPool.set_currentSqrtPrice r.2
    (LiquidityPool.set_reserves
       (LiquidityPool._baseReserve p + (baseAmountAfterFee - r.1.1))
       (LiquidityPool._preTokenReserve p - r.1.2)
       (LiquidityPool._liquidity p) p).

(** The pool a sale that found its start index [i] leaves behind. *)
Definition soldPool (p : LiquidityPool.t) (i : nat) (preTokenAmount : R)
    : LiquidityPool.t :=
  let r := sellRoute p i preTokenAmount in
  LiquidityPool.set_currentSqrtPrice r.2
    (LiquidityPool.set_reserves
       (LiquidityPool._baseReserve p - r.1.2)
       (LiquidityPool._preTokenReserve p + (preTokenAmount - r.1.1))
       (LiquidityPool._liquidity p) p).

(** The ways in which one call, of the pool or of a token, can change the
    pool. *)
Inductive poolStep (p : LiquidityPool.t) : LiquidityPool.t -> Prop :=
  | poolStep_idle : poolStep p p
  | poolStep_added (owner : string) (baseAmount pa pb : R) :
      LiquidityPool._isSettlementPhase p = false ->
      0 < baseAmount -> 0 < pa -> pa < pb ->
      poolStep p (addedPool owner baseAmount pa pb p)
  | poolStep_bought (i : nat) (baseAmount : R) :
      LiquidityPool._isSettlementPhase p = false ->
      0 < baseAmount -> buyStart p = Some i ->
      poolStep p (boughtPool p i baseAmount)
  | poolStep_sold (i : nat) (preTokenAmount : R) :
      LiquidityPool._isSettlementPhase p = false ->
      0 < preTokenAmount -> sellStart p = Some i ->
      poolStep p (soldPool p i preTokenAmount)
  | poolStep_settled (realToken : TokenRef) :
      LiquidityPool._isSettlementPhase p = false ->
      poolStep p (LiquidityPool.set_settlement true (Some realToken) p).

(** What every pool reached from the constructor satisfies. *)
Record poolInv (p : LiquidityPool.t) : Prop := mkPoolInv {
  inv_book : validBook p;
  inv_price : 0 <= LiquidityPool._currentSqrtPrice p;
  inv_ids :
    positionIds p = idOf <$> seq 1 (length (LiquidityPool._lpPositions p));
  inv_next :
    LiquidityPool._nextPositionId p
    = S (length (LiquidityPool._lpPositions p));
  inv_settled :
    LiquidityPool._isSettlementPhase p = true
    <-> is_Some (LiquidityPool._realToken p)
}.

(** The routes on which the price can only move one way: along a buy
    route every upper bound is at least the one before, along a sell route
    every lower bound is at most the one before. *)
Fixpoint upperBoundsAscend (positions : list LPPosition.t) : Prop :=
  match positions with
  | a :: rest =>
      match rest with
      | b :: _ =>
          LPPosition.upperPriceBound a <= LPPosition.upperPriceBound b
          /\ upperBoundsAscend rest
      | [] => True
      end
  | [] => True
  end.

Fixpoint lowerBoundsDescend (positions : list LPPosition.t) : Prop :=
  match positions with
  | a :: rest =>
      match rest with
      | b :: _ =>
          LPPosition.lowerPriceBound b <= LPPosition.lowerPriceBound a
          /\ lowerBoundsDescend rest
      | [] => True
      end
  | [] => True
  end.

(** A position as [addLiquidity] records it: a positive collateral, a
    valid range, and the liquidity and pre-token amount of that collateral
    on that range. *)
Definition recordedPosition (pos : LPPosition.t) : Prop :=
  0 < LPPosition.collateralAmount pos
  /\ 0 < LPPosition.lowerPriceBound pos
  /\ LPPosition.lowerPriceBound pos < LPPosition.upperPriceBound pos
  /\ LPPosition.liquidity pos
     = liquidityFor (LPPosition.collateralAmount pos)
         (LPPosition.lowerPriceBound pos) (LPPosition.upperPriceBound pos)
  /\ LPPosition.initialPreTokenAmount pos
     = preTokenFor (LPPosition.collateralAmount pos)
         (LPPosition.lowerPriceBound pos) (LPPosition.upperPriceBound pos).

(** The sum of the liquidity of the given positions. *)
Definition sumLiquidity (positions : list LPPosition.t) : R :=
  foldr (fun pos acc => LPPosition.liquidity pos + acc) 0 positions.

(** What the position map holds. *)
Definition recordsInv (p : LiquidityPool.t) : Prop :=
  Forall recordedPosition (LiquidityPool.getAllLPPositions p)
  /\ Forall (fun entry => LPPosition.id entry.2 = entry.1) (LiquidityPool._lpPositions p)
  /\ LiquidityPool._liquidity p = sumLiquidity (LiquidityPool.getAllLPPositions p).

(** One position [1, 100] funded with 9 base tokens in a pool that starts
    without a price, next to a trader who holds 2000 base tokens. *)
Definition buyingPool : LiquidityPool.World :=
  run [AddLiquidity "LP1" 9 1 100]
      (initial (tokensOf (usdc 2018 {[ "LP1" := 18; "Trader1" := 2000 ]})
                         (preX 0 ∅))
               0%nat 1%nat None).

(** *** The pool with one price range

    A second [LiquidityPool] class of the repository: its constructor
    takes the bounds [minPrice] and [maxPrice] that every quote of the
    pool uses, and it is the class whose constructor fits the call in
    [WPreMarketAMM.createPool].  Its swaps ask
    [PriceCalculator.calculateSwapOutput] for the amount and
    [PriceCalculator.calculateCurrentPrice] for the price.

    [Math.sqrt] of a negative bound is [NaN] in the source and 0 here;
    what is proved about the price below assumes bounds that are not
    negative wherever it depends on them. *)

(** What this pool and the registry throw: their own three messages, and
    whatever [PriceCalculator] or one of the guards above throws. *)
Inductive Thrown : Type :=
  | InsufficientOutputAmount          (* "Insufficient output amount" *)
  | PoolAlreadyExists                 (* "Pool ... already exists" *)
  | PoolDoesNotExist                  (* "Pool ... does not exist" *)
  | Propagated (e : SwapOutputError).

(** One of the messages of [Error]. *)
Definition failure (e : Error) : Thrown := Propagated (Raised e).

Module BoundedLiquidityPool.

Record t : Type := mk {
  _baseToken : TokenRef;
  _preToken : TokenRef;
  _baseReserve : R;
  _preTokenReserve : R;
  _minPrice : R;  (* Pa *)
  _maxPrice : R;  (* Pb *)
  _liquidity : R;
  _lpPositions : list (string * LPPosition.t);
  _isSettlementPhase : bool;
  _realToken : option TokenRef;
  _nextPositionId : nat;
  _currentSqrtPrice : R;
  _initialPriceSet : bool
}.

Definition _feePercentage : R := 3 / 1000.

Definition POOL : string := "POOL".

Record World : Type := mkWorld {
  store : TokenRef -> Token.Token;
  pool : t
}.

(** *** Methods as state transformers that can throw *)

Definition M (A : Type) : Type := World -> (Thrown + A) * World.

Definition ret {A} (a : A) : M A := fun w => (inr a, w).

Definition throw {A} (e : Thrown) : M A := fun w => (inl e, w).

Definition bind {A B} (m : M A) (k : A -> M B) : M B :=
  fun w =>
    match m w with
    | (inl e, w') => (inl e, w')
    | (inr a, w') => k a w'
    end.

Notation "'let*' x ':=' m 'in' k" := (bind m (fun x => k))
  (at level 10, x name, m at level 100, k at level 200).

(** A call of a conversion of [PriceCalculator]. *)
Definition lift {A} (r : result A) : M A :=
  fun w => (match r with inl e => inl (failure e) | inr a => inr a end, w).

(** A call of [PriceCalculator.calculateSwapOutput]. *)
Definition quote {A} (r : SwapOutputError + A) : M A :=
  fun w => (match r with inl e => inl (Propagated e) | inr a => inr a end, w).

Definition this : M t := fun w => (inr (pool w), w).

Definition assign (f : t -> t) : M unit :=
  fun w => (inr tt, mkWorld (store w) (f (pool w))).

Definition view {A} (r : TokenRef) (f : Token.Token -> A) : M A :=
  fun w => (inr (f (store w r)), w).

Definition call {A} (r : TokenRef) (f : Token.Token -> A * Token.Token)
    : M A :=
  fun w =>
    let '(a, tok) := f (store w r) in
    (inr a, mkWorld (<[r := tok]> (store w)) (pool w)).

Definition when (b : bool) (m : M unit) : M unit :=
  if b then m else ret tt.

(** *** Field assignments *)

Definition set_reserves (base pre liq : R) (p : t) : t :=
  mk (_baseToken p) (_preToken p) base pre (_minPrice p) (_maxPrice p) liq
     (_lpPositions p) (_isSettlementPhase p) (_realToken p)
     (_nextPositionId p) (_currentSqrtPrice p) (_initialPriceSet p).

Definition set_lpPositions (m : list (string * LPPosition.t)) (p : t) : t :=
  mk (_baseToken p) (_preToken p) (_baseReserve p) (_preTokenReserve p)
     (_minPrice p) (_maxPrice p) (_liquidity p) m (_isSettlementPhase p)
     (_realToken p) (_nextPositionId p) (_currentSqrtPrice p)
     (_initialPriceSet p).

Definition set_nextPositionId (n : nat) (p : t) : t :=
  mk (_baseToken p) (_preToken p) (_baseReserve p) (_preTokenReserve p)
     (_minPrice p) (_maxPrice p) (_liquidity p) (_lpPositions p)
     (_isSettlementPhase p) (_realToken p) n (_currentSqrtPrice p)
     (_initialPriceSet p).

Definition set_currentSqrtPrice (s : R) (p : t) : t :=
  mk (_baseToken p) (_preToken p) (_baseReserve p) (_preTokenReserve p)
     (_minPrice p) (_maxPrice p) (_liquidity p) (_lpPositions p)
     (_isSettlementPhase p) (_realToken p) (_nextPositionId p) s
     (_initialPriceSet p).

Definition set_initialPriceSet (b : bool) (p : t) : t :=
  mk (_baseToken p) (_preToken p) (_baseReserve p) (_preTokenReserve p)
     (_minPrice p) (_maxPrice p) (_liquidity p) (_lpPositions p)
     (_isSettlementPhase p) (_realToken p) (_nextPositionId p)
     (_currentSqrtPrice p) b.

Definition set_settlement (b : bool) (r : option TokenRef) (p : t) : t :=
  mk (_baseToken p) (_preToken p) (_baseReserve p) (_preTokenReserve p)
     (_minPrice p) (_maxPrice p) (_liquidity p) (_lpPositions p) b r
     (_nextPositionId p) (_currentSqrtPrice p) (_initialPriceSet p).

(** *** constructor

    An initial price is used when it is truthy and within the bounds;
    otherwise the pool starts at [minPrice].  Either way
    [_initialPriceSet] becomes [true]. *)
Definition constructor (baseToken preToken : TokenRef)
    (minPrice maxPrice : R) (initialPrice : option R) : t :=
  mk baseToken preToken 0 0 minPrice maxPrice 0 [] false None 1%nat
     (match initialPrice with
      | Some price =>
          if negb (Num.eqb price 0) && Num.leb minPrice price
             && Num.leb price maxPrice
          then sqrt price
          else sqrt minPrice
      | None => sqrt minPrice
      end)
     true.

Definition getCurrentPrice (p : t) : R :=
  _currentSqrtPrice p * _currentSqrtPrice p.

(** *** addLiquidity *)

Definition addLiquidity (owner : string) (baseAmount pa pb : R) : M string :=
  let* self := this in
  if _isSettlementPhase self then throw (failure SettlementPhaseViolation)
  else
  if Num.leb baseAmount 0 then throw (failure NonPositiveAmount) else
  let* lpBaseBalance :=
    view (_baseToken self) (fun tok => Token.balanceOf tok owner) in
  if Num.ltb lpBaseBalance (baseAmount * 2)
  then throw (failure InsufficientBalance)
  else
  let* preTokenAmount :=
    lift (PriceCalculator.calculatePreTokenAmount baseAmount pa pb) in
  let* liquidityAmount :=
    lift (PriceCalculator.calculateLiquidity baseAmount pa pb) in
  let* _ :=
    call (_baseToken self) (Token.transfer owner POOL (baseAmount * 2)) in
  let* _ :=
    assign (fun p => set_reserves (_baseReserve p + baseAmount)
                                  (_preTokenReserve p + preTokenAmount)
                                  (_liquidity p + liquidityAmount) p) in
  let* _ := call (_preToken self) (Token.mint POOL preTokenAmount) in
  let positionId := "LP-" +:+ pretty (_nextPositionId self) in
  let* _ := assign (fun p => set_nextPositionId (S (_nextPositionId p)) p) in
  let position :=
    LPPosition.mk positionId owner liquidityAmount pa pb baseAmount
                  preTokenAmount in
  let* _ :=
    assign (fun p =>
              set_lpPositions (Js.Map_set positionId position (_lpPositions p))
                              p) in
  let* now := this in
  let* _ :=
    when (negb (_initialPriceSet now)
          && Nat.eqb (Js.Map_size (_lpPositions now)) 1)
         (assign (fun p =>
                    set_initialPriceSet true
                      (set_currentSqrtPrice (sqrt pa) p))) in
  ret positionId.

(** *** The price after a swap

    [if (this._preTokenReserve > 0 && this._baseReserve > 0)]: the price is
    recomputed from the reserves when both are positive. *)
Definition updatePrice : M unit :=
  let* now := this in
  when (Num.ltb 0 (_preTokenReserve now) && Num.ltb 0 (_baseReserve now))
       (let* newPrice :=
          lift (PriceCalculator.calculateCurrentPrice
                  (_baseReserve now) (_preTokenReserve now)
                  (_minPrice now) (_maxPrice now)) in
        assign (set_currentSqrtPrice (sqrt newPrice))).

(** *** swapBaseForPreToken *)

Definition swapBaseForPreToken (trader : string) (baseAmount : R) : M R :=
  let* self := this in
  if _isSettlementPhase self then throw (failure SettlementPhaseViolation)
  else
  if Num.leb baseAmount 0 then throw (failure NonPositiveAmount) else
  let* traderBaseBalance :=
    view (_baseToken self) (fun tok => Token.balanceOf tok trader) in
  if Num.ltb traderBaseBalance baseAmount
  then throw (failure InsufficientBalance)
  else
  let fee := baseAmount * _feePercentage in
  let baseAmountAfterFee := baseAmount - fee in
  let* outputAmount :=
    quote (calculateSwapOutput baseAmountAfterFee
             (_baseReserve self) (_preTokenReserve self)
             (_minPrice self) (_maxPrice self) true) in
  if Num.leb outputAmount 0 then throw InsufficientOutputAmount else
  let* _ :=
    call (_baseToken self) (Token.transfer trader POOL baseAmount) in
  let* _ :=
    assign (fun p => set_reserves (_baseReserve p + baseAmountAfterFee)
                                  (_preTokenReserve p - outputAmount)
                                  (_liquidity p) p) in
  let* _ :=
    call (_preToken self) (Token.transfer POOL trader outputAmount) in
  let* _ := updatePrice in
  ret outputAmount.

(** *** swapPreTokenForBase *)

Definition swapPreTokenForBase (trader : string) (preTokenAmount : R) : M R :=
  let* self := this in
  if _isSettlementPhase self then throw (failure SettlementPhaseViolation)
  else
  if Num.leb preTokenAmount 0 then throw (failure NonPositiveAmount) else
  let* traderPreTokenBalance :=
    view (_preToken self) (fun tok => Token.balanceOf tok trader) in
  if Num.ltb traderPreTokenBalance preTokenAmount
  then throw (failure InsufficientBalance)
  else
  let* outputAmount :=
    quote (calculateSwapOutput preTokenAmount
             (_preTokenReserve self) (_baseReserve self)
             (_minPrice self) (_maxPrice self) false) in
  if Num.leb outputAmount 0 then throw InsufficientOutputAmount else
  let fee := outputAmount * _feePercentage in
  let outputAmountAfterFee := outputAmount - fee in
  let* _ :=
    call (_preToken self) (Token.transfer trader POOL preTokenAmount) in
  let* _ :=
    assign (fun p => set_reserves (_baseReserve p - outputAmount)
                                  (_preTokenReserve p + preTokenAmount)
                                  (_liquidity p) p) in
  let* _ :=
    call (_baseToken self) (Token.transfer POOL trader outputAmountAfterFee) in
  let* _ := updatePrice in
  ret outputAmountAfterFee.

Definition getLPPosition (positionId : string) (p : t)
    : option LPPosition.t :=
  Map_get positionId (_lpPositions p).

Definition getAllLPPositions (p : t) : list LPPosition.t :=
  Js.Map_values (_lpPositions p).

(** *** enterSettlementPhase *)

Definition enterSettlementPhase (realToken : TokenRef) : M unit :=
  let* self := this in
  if _isSettlementPhase self then throw (failure AlreadyInSettlement) else
  assign (set_settlement true (Some realToken)).

End BoundedLiquidityPool.

(** *** WPreMarketAMM: the registry of pools

    The pools live in a [Map] under the id [createPool] gives them; a
    method of the registry looks the pool up and calls the method of the
    same name on it.  A pool object is reachable under one id only, so the
    map holds the pools themselves, and a call on a pool writes the pool
    back where it stands. *)

Module WPreMarketAMM.

Record t : Type := mk {
  _liquidityPools : list (string * BoundedLiquidityPool.t);
  _isSettlementPhase : bool
}.

(** [new WPreMarketAMM()] *)
Definition new : t := mk [] false.

Record World : Type := mkWorld {
  store : TokenRef -> Token.Token;
  amm : t
}.

Definition M (A : Type) : Type := World -> (Thrown + A) * World.

(** [Map.prototype.has] *)
Definition Map_has {A} (k : string) (m : list (string * A)) : bool :=
  match Map_get k m with Some _ => true | None => false end.

(** [`${baseToken.symbol}-${preToken.symbol}`] *)
Definition poolIdOf (tokens : TokenRef -> Token.Token)
    (baseToken preToken : TokenRef) : string :=
  Token._symbol (tokens baseToken) +:+ "-" +:+ Token._symbol (tokens preToken).

(** [createPool] has four parameters and passes them on as they are: the
    pool is constructed without an initial price. *)
Definition createPool (baseToken preToken : TokenRef)
    (minPrice maxPrice : R) : M string :=
  fun w =>
    let poolId := poolIdOf (store w) baseToken preToken in
    if Map_has poolId (_liquidityPools (amm w))
    then (inl PoolAlreadyExists, w)
    else
      let pool :=
        BoundedLiquidityPool.constructor baseToken preToken minPrice maxPrice
          None in
      (inr poolId,
       mkWorld (store w)
         (mk (Js.Map_set poolId pool (_liquidityPools (amm w)))
             (_isSettlementPhase (amm w)))).

Definition getPool (poolId : string) : M BoundedLiquidityPool.t :=
  fun w =>
    match Map_get poolId (_liquidityPools (amm w)) with
    | Some pool => (inr pool, w)
    | None => (inl PoolDoesNotExist, w)
    end.

(** [this.getPool(poolId)] followed by a method of the pool: the method
    runs on the pool object and on the tokens, and what it did to them is
    there afterwards, whether it returned or threw. *)
Definition onPool {A} (poolId : string) (method : BoundedLiquidityPool.M A)
    : M A :=
  fun w =>
    match getPool poolId w with
    | (inl e, w') => (inl e, w')
    | (inr pool, _) =>
        let '(r, pw) :=
          method (BoundedLiquidityPool.mkWorld (store w) pool) in
        (r,
         mkWorld (BoundedLiquidityPool.store pw)
           (mk (Js.Map_set poolId (BoundedLiquidityPool.pool pw)
                  (_liquidityPools (amm w)))
               (_isSettlementPhase (amm w))))
    end.

Definition addLiquidity (poolId lpProvider : string)
    (baseAmount minPrice maxPrice : R) : M string :=
  onPool poolId
    (BoundedLiquidityPool.addLiquidity lpProvider baseAmount minPrice maxPrice).

Definition swapBaseForPreToken (poolId trader : string) (baseAmount : R)
    : M R :=
  onPool poolId (BoundedLiquidityPool.swapBaseForPreToken trader baseAmount).

Definition swapPreTokenForBase (poolId trader : string) (preTokenAmount : R)
    : M R :=
  onPool poolId
    (BoundedLiquidityPool.swapPreTokenForBase trader preTokenAmount).

Definition getPrice (poolId : string) : M R :=
  fun w =>
    match getPool poolId w with
    | (inl e, w') => (inl e, w')
    | (inr pool, w') => (inr (BoundedLiquidityPool.getCurrentPrice pool), w')
    end.

(** The flag of the registry is set after the pool has entered the
    settlement phase, so not when that call throws. *)
Definition enterSettlementPhase (poolId : string) (realToken : TokenRef)
    : M unit :=
  fun w =>
    match onPool poolId (BoundedLiquidityPool.enterSettlementPhase realToken)
            w with
    | (inl e, w') => (inl e, w')
    | (inr _, w') =>
        (inr tt, mkWorld (store w') (mk (_liquidityPools (amm w')) true))
    end.

Definition getAllPools (a : t) : list (string * BoundedLiquidityPool.t) :=
  _liquidityPools a.

End WPreMarketAMM.

(** *** Histories of a registry

    What a client can do: create a pool, call a pool through the
    registry, or call a token directly. *)

Inductive AmmOp : Type :=
  | CreatePool (baseToken preToken : TokenRef) (minPrice maxPrice : R)
  | PoolAddLiquidity (poolId lpProvider : string)
      (baseAmount minPrice maxPrice : R)
  | PoolSwapBaseForPreToken (poolId trader : string) (baseAmount : R)
  | PoolSwapPreTokenForBase (poolId trader : string) (preTokenAmount : R)
  | PoolEnterSettlementPhase (poolId : string) (realToken : TokenRef)
  | OnToken (token : TokenRef) (op : TokenOp).

Definition ammReturning {A} (f : A -> Value)
    (r : (Thrown + A) * WPreMarketAMM.World)
    : (Thrown + Value) * WPreMarketAMM.World :=
  (match r.1 with inl e => inl e | inr a => inr (f a) end, r.2).

Definition ammExec (op : AmmOp) (w : WPreMarketAMM.World)
    : (Thrown + Value) * WPreMarketAMM.World :=
  match op with
  | CreatePool baseToken preToken minPrice maxPrice =>
      ammReturning VString
        (WPreMarketAMM.createPool baseToken preToken minPrice maxPrice w)
  | PoolAddLiquidity poolId lpProvider baseAmount minPrice maxPrice =>
      ammReturning VString
        (WPreMarketAMM.addLiquidity poolId lpProvider baseAmount minPrice
           maxPrice w)
  | PoolSwapBaseForPreToken poolId trader baseAmount =>
      ammReturning VNumber
        (WPreMarketAMM.swapBaseForPreToken poolId trader baseAmount w)
  | PoolSwapPreTokenForBase poolId trader preTokenAmount =>
      ammReturning VNumber
        (WPreMarketAMM.swapPreTokenForBase poolId trader preTokenAmount w)
  | PoolEnterSettlementPhase poolId realToken =>
      ammReturning (fun _ => VVoid)
        (WPreMarketAMM.enterSettlementPhase poolId realToken w)
  | OnToken token op =>
      let '(b, tok) := applyTokenOp op (WPreMarketAMM.store w token) in
      (inr (VBool b),
       WPreMarketAMM.mkWorld (<[token := tok]> (WPreMarketAMM.store w))
         (WPreMarketAMM.amm w))
  end.

Definition ammStep (w : WPreMarketAMM.World) (op : AmmOp)
    : WPreMarketAMM.World :=
  (ammExec op w).2.

Definition ammRun (ops : list AmmOp) (w : WPreMarketAMM.World)
    : WPreMarketAMM.World :=
  foldl ammStep w ops.

(** A registry without pools over a store of tokens. *)
Definition ammInitial (tokens : TokenRef -> Token.Token)
    : WPreMarketAMM.World :=
  WPreMarketAMM.mkWorld tokens WPreMarketAMM.new.

(** The pool registered under [poolId], if there is one. *)
Definition poolAt (poolId : string) (w : WPreMarketAMM.World)
    : option BoundedLiquidityPool.t :=
  Map_get poolId (WPreMarketAMM.getAllPools (WPreMarketAMM.amm w)).

Definition poolIds (w : WPreMarketAMM.World) : list string :=
  (WPreMarketAMM.getAllPools (WPreMarketAMM.amm w)).*1.

(** *** The paths through the methods of the pool with one range *)

(** The pool after the price was recomputed on a valid range. *)
Definition repriced (p : BoundedLiquidityPool.t) : BoundedLiquidityPool.t :=
  if Num.ltb 0 (BoundedLiquidityPool._preTokenReserve p)
     && Num.ltb 0 (BoundedLiquidityPool._baseReserve p)
  then
    let sqrtP :=
      BoundedLiquidityPool._preTokenReserve p
      / liquidityFor (BoundedLiquidityPool._baseReserve p)
          (BoundedLiquidityPool._minPrice p) (BoundedLiquidityPool._maxPrice p)
      + sqrt (BoundedLiquidityPool._minPrice p) in
    BoundedLiquidityPool.set_currentSqrtPrice (sqrt (sqrtP * sqrtP)) p
  else p.

(** The world a buy that returns [outputAmount] leaves behind. *)
Definition boundedBought (trader : string) (baseAmount outputAmount : R)
    (w : BoundedLiquidityPool.World) : BoundedLiquidityPool.World :=
  let p := BoundedLiquidityPool.pool w in
  let baseAmountAfterFee :=
    baseAmount - baseAmount * BoundedLiquidityPool._feePercentage in
  BoundedLiquidityPool.mkWorld
    (tokenCall (BoundedLiquidityPool._preToken p)
       (Token.transfer BoundedLiquidityPool.POOL trader outputAmount)
       (tokenCall (BoundedLiquidityPool._baseToken p)
          (Token.transfer trader BoundedLiquidityPool.POOL baseAmount)
          (BoundedLiquidityPool.store w)))
    (repriced
       (BoundedLiquidityPool.set_reserves
          (BoundedLiquidityPool._baseReserve p + baseAmountAfterFee)
          (BoundedLiquidityPool._preTokenReserve p - outputAmount)
          (BoundedLiquidityPool._liquidity p) p)).

(** The world a sale whose quote is [outputAmount] leaves behind. *)
Definition boundedSold (trader : string) (preTokenAmount outputAmount : R)
    (w : BoundedLiquidityPool.World) : BoundedLiquidityPool.World :=
  let p := BoundedLiquidityPool.pool w in
  let outputAmountAfterFee :=
    outputAmount - outputAmount * BoundedLiquidityPool._feePercentage in
  BoundedLiquidityPool.mkWorld
    (tokenCall (BoundedLiquidityPool._baseToken p)
       (Token.transfer BoundedLiquidityPool.POOL trader outputAmountAfterFee)
       (tokenCall (BoundedLiquidityPool._preToken p)
          (Token.transfer trader BoundedLiquidityPool.POOL preTokenAmount)
          (BoundedLiquidityPool.store w)))
    (repriced
       (BoundedLiquidityPool.set_reserves
          (BoundedLiquidityPool._baseReserve p - outputAmount)
          (BoundedLiquidityPool._preTokenReserve p + preTokenAmount)
          (BoundedLiquidityPool._liquidity p) p)).

(** The world a successful [addLiquidity] leaves behind. *)
Definition boundedAddedPool (owner : string) (baseAmount pa pb : R)
    (p : BoundedLiquidityPool.t) : BoundedLiquidityPool.t :=
  let positionId := "LP-" +:+ pretty (BoundedLiquidityPool._nextPositionId p) in
  let position :=
    LPPosition.mk positionId owner (liquidityFor baseAmount pa pb) pa pb
                  baseAmount (preTokenFor baseAmount pa pb) in
  let q :=
    BoundedLiquidityPool.set_lpPositions
      (Js.Map_set positionId position (BoundedLiquidityPool._lpPositions p))
      (BoundedLiquidityPool.set_nextPositionId
         (S (BoundedLiquidityPool._nextPositionId p))
         (BoundedLiquidityPool.set_reserves
            (BoundedLiquidityPool._baseReserve p + baseAmount)
            (BoundedLiquidityPool._preTokenReserve p
             + preTokenFor baseAmount pa pb)
            (BoundedLiquidityPool._liquidity p + liquidityFor baseAmount pa pb)
            p)) in
  if negb (BoundedLiquidityPool._initialPriceSet p)
     && Nat.eqb (Js.Map_size (BoundedLiquidityPool._lpPositions q)) 1
  then BoundedLiquidityPool.set_initialPriceSet true
         (BoundedLiquidityPool.set_currentSqrtPrice (sqrt pa) q)
  else q.

Definition boundedAdded (owner : string) (baseAmount pa pb : R)
    (w : BoundedLiquidityPool.World) : BoundedLiquidityPool.World :=
  let p := BoundedLiquidityPool.pool w in
  BoundedLiquidityPool.mkWorld
    (tokenCall (BoundedLiquidityPool._preToken p)
       (Token.mint BoundedLiquidityPool.POOL (preTokenFor baseAmount pa pb))
       (tokenCall (BoundedLiquidityPool._baseToken p)
          (Token.transfer owner BoundedLiquidityPool.POOL (baseAmount * 2))
          (BoundedLiquidityPool.store w)))
    (boundedAddedPool owner baseAmount pa pb p).

(** *** Scenarios for the pool with one range *)

(** A pool over the range [1, 4] that was just constructed; LP1 holds
    2000 base tokens and the trader 1000. *)
Definition boundedFresh : BoundedLiquidityPool.World :=
  BoundedLiquidityPool.mkWorld
    (tokensOf (usdc 3000 {[ "LP1" := 2000; "Trader1" := 1000 ]}) (preX 0 ∅))
    (BoundedLiquidityPool.constructor 0%nat 1%nat 1 4 None).

(** The pool after LP1 has added 1000 base tokens on the pool's own range:
    the reserves are 1000 base tokens and the 2000 pre-tokens minted for
    them, and the trader holds 5000 base tokens and 500 pre-tokens. *)
Definition boundedFunded : BoundedLiquidityPool.World :=
  BoundedLiquidityPool.mkWorld
    (tokensOf (usdc 7000 {[ "POOL" := 2000; "Trader1" := 5000 ]})
              (preX 2500 {[ "POOL" := 2000; "Trader1" := 500 ]}))
    (BoundedLiquidityPool.mk 0%nat 1%nat 1000 2000 1 4 2000
       [("LP-1", LPPosition.mk "LP-1" "LP1" 2000 1 4 1000 2000)]
       false None 2%nat 1 true).

(** *** Reading a history of the registry *)

(** The pool a call is addressed to: the id [createPool] would give, the
    id a delegating method is called with. *)
Definition target (op : AmmOp) (w : WPreMarketAMM.World) : option string :=
  match op with
  | CreatePool baseToken preToken _ _ =>
      Some (WPreMarketAMM.poolIdOf (WPreMarketAMM.store w) baseToken preToken)
  | PoolAddLiquidity poolId _ _ _ _ => Some poolId
  | PoolSwapBaseForPreToken poolId _ _ => Some poolId
  | PoolSwapPreTokenForBase poolId _ _ => Some poolId
  | PoolEnterSettlementPhase poolId _ => Some poolId
  | OnToken _ _ => None
  end.

Definition isSwap (op : AmmOp) : bool :=
  match op with
  | PoolSwapBaseForPreToken _ _ _ => true
  | PoolSwapPreTokenForBase _ _ _ => true
  | _ => false
  end.

(** What the constructor establishes for every pool of a registry. *)
Definition pricesSet (w : WPreMarketAMM.World) : Prop :=
  forall poolId pool,
    poolAt poolId w = Some pool ->
    BoundedLiquidityPool._initialPriceSet pool = true.

(** *** Scenarios for the registry *)

(** Four tokens whose symbols join to the same pool id in two ways. *)
Definition clashingTokens : TokenRef -> Token.Token :=
  fun r =>
    match r with
    | 0%nat => Token.new "Alpha Beta" "A-B" 18
    | 1%nat => Token.new "Gamma" "C" 18
    | 2%nat => Token.new "Alpha" "A" 18
    | _ => Token.new "Beta Gamma" "B-C" 18
    end.

(** The registry of the simulation: one pool over USDC and the pre-token,
    with the bounds 1 and 5. *)
Definition simulated : WPreMarketAMM.World :=
  ammRun [CreatePool 0%nat 1%nat 1 5]
         (ammInitial (tokensOf (usdc 10000 {[ "LP1" := 10000 ]}) (preX 0 ∅))).

(** What no method changes of a pool and of the tokens: the symbols, the
    two token references, the bounds; and what no method undoes. *)
Definition poolKept (pw pw' : BoundedLiquidityPool.World) : Prop :=
  (forall r,
     Token._symbol (BoundedLiquidityPool.store pw' r)
     = Token._symbol (BoundedLiquidityPool.store pw r))
  /\ BoundedLiquidityPool._baseToken (BoundedLiquidityPool.pool pw')
     = BoundedLiquidityPool._baseToken (BoundedLiquidityPool.pool pw)
  /\ BoundedLiquidityPool._preToken (BoundedLiquidityPool.pool pw')
     = BoundedLiquidityPool._preToken (BoundedLiquidityPool.pool pw)
  /\ BoundedLiquidityPool._minPrice (BoundedLiquidityPool.pool pw')
     = BoundedLiquidityPool._minPrice (BoundedLiquidityPool.pool pw)
  /\ BoundedLiquidityPool._maxPrice (BoundedLiquidityPool.pool pw')
     = BoundedLiquidityPool._maxPrice (BoundedLiquidityPool.pool pw)
  /\ (BoundedLiquidityPool._initialPriceSet (BoundedLiquidityPool.pool pw)
      = true ->
      BoundedLiquidityPool._initialPriceSet (BoundedLiquidityPool.pool pw')
      = true)
  /\ (BoundedLiquidityPool._isSettlementPhase (BoundedLiquidityPool.pool pw)
      = true ->
      BoundedLiquidityPool._isSettlementPhase (BoundedLiquidityPool.pool pw')
      = true).

(** The tokens and the bounds of two pools agree. *)
Definition sameMarket (pool pool' : BoundedLiquidityPool.t) : Prop :=
  BoundedLiquidityPool._baseToken pool' = BoundedLiquidityPool._baseToken pool
  /\ BoundedLiquidityPool._preToken pool' = BoundedLiquidityPool._preToken pool
  /\ BoundedLiquidityPool._minPrice pool' = BoundedLiquidityPool._minPrice pool
  /\ BoundedLiquidityPool._maxPrice pool' = BoundedLiquidityPool._maxPrice pool.

(** A registry over the four tokens, with a pool for the first two. *)
Definition clashing : WPreMarketAMM.World :=
  ammRun [CreatePool 0%nat 1%nat 1 5] (ammInitial clashingTokens).

(** * Properties *)

(** ** Comparisons *)

Lemma ltb_true x y : Num.ltb x y = true <-> x < y.
Proof. unfold Num.ltb. destruct (Rlt_dec x y); split; intros; try done; lra. Qed.

Lemma ltb_false x y : Num.ltb x y = false <-> y <= x.
Proof. unfold Num.ltb. destruct (Rlt_dec x y); split; intros; try done; lra. Qed.

Lemma leb_true x y : Num.leb x y = true <-> x <= y.
Proof. unfold Num.leb. destruct (Rle_dec x y); split; intros; try done; lra. Qed.

Lemma leb_false x y : Num.leb x y = false <-> y < x.
Proof. unfold Num.leb. destruct (Rle_dec x y); split; intros; try done; lra. Qed.

Lemma eqb_true x y : Num.eqb x y = true <-> x = y.
Proof. unfold Num.eqb. destruct (Req_dec_T x y); split; intros; try done. Qed.

Lemma eqb_false x y : Num.eqb x y = false <-> x <> y.
Proof. unfold Num.eqb. destruct (Req_dec_T x y); split; intros; try done. Qed.

(** Settles the comparisons between numerals that stand in the goal. *)
Ltac num_decide :=
  repeat match goal with
  | |- context [Num.ltb ?a ?b] =>
      first [ rewrite (proj2 (ltb_true a b)) by lra
            | rewrite (proj2 (ltb_false a b)) by lra ]
  | |- context [Num.leb ?a ?b] =>
      first [ rewrite (proj2 (leb_true a b)) by lra
            | rewrite (proj2 (leb_false a b)) by lra ]
  | |- context [Num.eqb ?a ?b] =>
      first [ rewrite (proj2 (eqb_true a b)) by lra
            | rewrite (proj2 (eqb_false a b)) by lra ]
  end.

(** ** PriceCalculator *)

Lemma invalidRange_true pa pb :
  PriceCalculator.invalidRange pa pb = true <-> (pa <= 0 \/ pb <= 0 \/ pa >= pb).
Proof.
  unfold PriceCalculator.invalidRange.
  rewrite !orb_true_iff, !leb_true. split; intros H.
  - destruct H as [[H|H]|H]; [right; right; lra | left; lra | right; left; lra].
  - destruct H as [H|[H|H]]; [left; right; lra | right; lra | left; left; lra].
Qed.

Lemma invalidRange_false pa pb :
  PriceCalculator.invalidRange pa pb = false <-> (0 < pa /\ pa < pb).
Proof.
  unfold PriceCalculator.invalidRange.
  rewrite !orb_false_iff, !leb_false. split; intros H.
  - destruct H as [[H1 H2] H3]. lra.
  - repeat split; lra.
Qed.

Lemma sqrt_range pa pb : 0 < pa -> pa < pb -> 0 < sqrt pa < sqrt pb.
Proof.
  intros Ha Hab. split.
  - apply sqrt_lt_R0. exact Ha.
  - apply sqrt_lt_1; lra.
Qed.

Lemma inv_sqrt_gap pa pb :
  0 < pa -> pa < pb -> 0 < 1 / sqrt pa - 1 / sqrt pb.
Proof.
  intros Ha Hab. destruct (sqrt_range pa pb Ha Hab) as [H1 H2].
  replace (1 / sqrt pa - 1 / sqrt pb)
    with ((sqrt pb - sqrt pa) / (sqrt pa * sqrt pb)) by (field; lra).
  apply Rdiv_lt_0_compat; [lra|]. apply Rmult_lt_0_compat; lra.
Qed.



(** The three conversions reject every invalid range before they compute. *)
Lemma conversions_reject_invalid_range (x pa pb : R) :
  pa <= 0 \/ pb <= 0 \/ pa >= pb ->
  PriceCalculator.calculateLiquidity x pa pb = inl InvalidRange
  /\ PriceCalculator.calculatePreTokenAmount x pa pb = inl InvalidRange
  /\ PriceCalculator.calculateBaseAmount x pa pb = inl InvalidRange.
Proof.
  intros H. apply invalidRange_true in H.
  unfold PriceCalculator.calculateLiquidity,
    PriceCalculator.calculatePreTokenAmount,
    PriceCalculator.calculateBaseAmount.
  rewrite H. done.
Qed.

(** [calculateCurrentPrice] checks the range only through
    [calculateLiquidity], that is, when both reserves are non-zero. *)
Lemma calculateCurrentPrice_rejects_when_both_reserves
    (baseReserve preTokenReserve pa pb : R) :
  pa <= 0 \/ pb <= 0 \/ pa >= pb ->
  preTokenReserve <> 0 -> baseReserve <> 0 ->
  PriceCalculator.calculateCurrentPrice baseReserve preTokenReserve pa pb
  = inl InvalidRange.
Proof.
  intros H Hp Hb. unfold PriceCalculator.calculateCurrentPrice.
  rewrite (proj2 (eqb_false _ _) Hp), (proj2 (eqb_false _ _) Hb).
  destruct (conversions_reject_invalid_range baseReserve pa pb H) as [-> _].
  done.
Qed.

(** C5.  The code at the failing input: with the invalid range [Pa = 5],
    [Pb = 1], [calculateCurrentPrice] returns [Pa] when the pre-token
    reserve is 0 and [Pb] when the base reserve is 0, instead of failing
    with [InvalidRange] as [calculateLiquidity] does on the same range. *)
Theorem C5_calculateCurrentPrice_returns_on_invalid_range :
  PriceCalculator.invalidRange 5 1 = true
  /\ PriceCalculator.calculateLiquidity 1 5 1 = inl InvalidRange
  /\ PriceCalculator.calculateCurrentPrice 1 0 5 1 = inr 5
  /\ PriceCalculator.calculateCurrentPrice 0 1 5 1 = inr 1.
Proof.
  unfold PriceCalculator.calculateCurrentPrice,
    PriceCalculator.calculateLiquidity, PriceCalculator.invalidRange.
  num_decide. done.
Qed.

(** ** Token *)

Import LiquidityPool.

Lemma transfer_done (from to : string) (amount : R) (t : Token.Token) :
  0 < amount -> amount <= Token.balanceOf t from ->
  Token.transfer from to amount t
  = (true,
     Token.withBalance to
       (Token.balanceOf
          (Token.withBalance from (Token.balanceOf t from - amount) t) to
        + amount)
       (Token.withBalance from (Token.balanceOf t from - amount) t)).
Proof.
  intros Hpos Hle. unfold Token.transfer.
  rewrite (proj2 (leb_false _ _) Hpos), (proj2 (ltb_false _ _) Hle). done.
Qed.

Lemma transfer_refused (from to : string) (amount : R) (t : Token.Token) :
  amount <= 0 \/ Token.balanceOf t from < amount ->
  Token.transfer from to amount t = (false, t).
Proof.
  intros H. unfold Token.transfer.
  destruct H as [H|H].
  - rewrite (proj2 (leb_true _ _) H). done.
  - rewrite (proj2 (ltb_true _ _) H), orb_true_r. done.
Qed.

Lemma balanceOf_withBalance (t : Token.Token) (a b : string) (v : R) :
  Token.balanceOf (Token.withBalance a v t) b
  = if decide (b = a) then v else Token.balanceOf t b.
Proof.
  unfold Token.balanceOf, Token.withBalance. cbn.
  destruct (decide (b = a)) as [->|Hne].
  - rewrite lookup_insert_eq. done.
  - rewrite lookup_insert_ne by done. done.
Qed.

(** What a transfer that goes through does to every balance. *)
Lemma balanceOf_transfer (from to : string) (amount : R) (t : Token.Token)
    (a : string) :
  0 < amount -> amount <= Token.balanceOf t from ->
  Token.balanceOf (Token.transfer from to amount t).2 a
  = Token.balanceOf t a
    - (if decide (a = from) then amount else 0)
    + (if decide (a = to) then amount else 0).
Proof.
  intros Hpos Hle. rewrite transfer_done by done. cbn.
  rewrite !balanceOf_withBalance.
  destruct (decide (a = to)) as [->|Hto].
  - destruct (decide (to = from)) as [->|Hfrom]; lra.
  - destruct (decide (a = from)) as [->|Hfrom]; lra.
Qed.

(** Whatever it returns, a transfer leaves third accounts alone. *)
Lemma balanceOf_transfer_other (from to : string) (amount : R)
    (t : Token.Token) (a : string) :
  a <> from -> a <> to ->
  Token.balanceOf (Token.transfer from to amount t).2 a = Token.balanceOf t a.
Proof.
  intros Hf Ht. unfold Token.transfer.
  destruct (Num.leb amount 0 || Num.ltb (Token.balanceOf t from) amount);
    [done|].
  cbn. rewrite !balanceOf_withBalance.
  rewrite !decide_False by done. done.
Qed.

Lemma balanceOf_mint (to : string) (amount : R) (t : Token.Token)
    (a : string) :
  0 < amount ->
  Token.balanceOf (Token.mint to amount t).2 a
  = Token.balanceOf t a + (if decide (a = to) then amount else 0).
Proof.
  intros Hpos. unfold Token.mint.
  rewrite (proj2 (leb_false _ _) Hpos). cbn.
  change (Token.balanceOf (Token.withBalance to (Token.balanceOf t to + amount) t) a
          = Token.balanceOf t a + (if decide (a = to) then amount else 0)).
  rewrite balanceOf_withBalance.
  destruct (decide (a = to)) as [->|Hne]; lra.
Qed.

(** ** The methods, one guard at a time *)

Section Guards.
Variable w : World.

Lemma addLiquidity_settled owner baseAmount pa pb :
  _isSettlementPhase (pool w) = true ->
  addLiquidity owner baseAmount pa pb w = (inl SettlementPhaseViolation, w).
Proof. intros H. unfold addLiquidity, bind, this. rewrite H. done. Qed.

Lemma swapBaseForPreToken_settled trader baseAmount :
  _isSettlementPhase (pool w) = true ->
  swapBaseForPreToken trader baseAmount w = (inl SettlementPhaseViolation, w).
Proof. intros H. unfold swapBaseForPreToken, bind, this. rewrite H. done. Qed.

Lemma swapPreTokenForBase_settled trader preTokenAmount :
  _isSettlementPhase (pool w) = true ->
  swapPreTokenForBase trader preTokenAmount w
  = (inl SettlementPhaseViolation, w).
Proof. intros H. unfold swapPreTokenForBase, bind, this. rewrite H. done. Qed.

Lemma enterSettlementPhase_settled realToken :
  _isSettlementPhase (pool w) = true ->
  enterSettlementPhase realToken w = (inl AlreadyInSettlement, w).
Proof. intros H. unfold enterSettlementPhase, bind, this. rewrite H. done. Qed.

Lemma enterSettlementPhase_trading realToken :
  _isSettlementPhase (pool w) = false ->
  enterSettlementPhase realToken w
  = (inr tt, mkWorld (store w) (set_settlement true (Some realToken) (pool w))).
Proof. intros H. unfold enterSettlementPhase, bind, this. rewrite H. done. Qed.

End Guards.

(** A token call never touches the pool. *)
Lemma call_pool {A} (r : TokenRef) (f : Token.Token -> A * Token.Token)
    (w : World) :
  pool (call r f w).2 = pool w.
Proof. unfold call. destruct (f (store w r)). done. Qed.

(** Once settled, a world stays as it is under every pool call, and every
    token call leaves the pool alone. *)
Lemma step_settled (w : World) (op : Op) :
  _isSettlementPhase (pool w) = true -> pool (step w op) = pool w.
Proof.
  intros H. destruct op; unfold step; cbn [exec]; unfold returning.
  - rewrite addLiquidity_settled by done. done.
  - rewrite swapBaseForPreToken_settled by done. done.
  - rewrite swapPreTokenForBase_settled by done. done.
  - rewrite enterSettlementPhase_settled by done. done.
  - apply call_pool.
  - apply call_pool.
  - apply call_pool.
Qed.

Lemma run_settled (ops : list Op) (w : World) :
  _isSettlementPhase (pool w) = true -> pool (run ops w) = pool w.
Proof.
  revert w. induction ops as [|op ops IH]; intros w H; [done|].
  unfold run in *. cbn. rewrite IH.
  - apply step_settled. done.
  - rewrite step_settled by done. done.
Qed.

(** C3.  From the Trading phase [enterSettlementPhase] succeeds, sets the
    settlement flag and stores [realToken]; after it, whatever calls follow,
    the pool is still settled with the same [realToken], a further
    [enterSettlementPhase] fails with [AlreadyInSettlement], and
    [addLiquidity] and both swaps fail with [SettlementPhaseViolation]. *)
Theorem C3_settlement_is_one_way (w : World) (realToken : TokenRef) :
  _isSettlementPhase (pool w) = false ->
  exists w',
    enterSettlementPhase realToken w = (inr tt, w')
    /\ _isSettlementPhase (pool w') = true
    /\ _realToken (pool w') = Some realToken
    /\ forall ops : list Op,
         let w'' := run ops w' in
         _isSettlementPhase (pool w'') = true
         /\ _realToken (pool w'') = Some realToken
         /\ (forall other,
               (enterSettlementPhase other w'').1 = inl AlreadyInSettlement)
         /\ (forall owner baseAmount pa pb,
               (addLiquidity owner baseAmount pa pb w'').1
               = inl SettlementPhaseViolation)
         /\ (forall trader baseAmount,
               (swapBaseForPreToken trader baseAmount w'').1
               = inl SettlementPhaseViolation)
         /\ (forall trader preTokenAmount,
               (swapPreTokenForBase trader preTokenAmount w'').1
               = inl SettlementPhaseViolation).
Proof.
  intros Htrading. eexists. split; [apply enterSettlementPhase_trading; done|].
  split; [done|]. split; [done|].
  intros ops w''.
  assert (Hpool : pool w''
                  = set_settlement true (Some realToken) (pool w))
    by (apply run_settled; done).
  assert (Hset : _isSettlementPhase (pool w'') = true) by (rewrite Hpool; done).
  split; [done|]. split; [rewrite Hpool; done|].
  split; [intros; rewrite enterSettlementPhase_settled by done; done|].
  split; [intros; rewrite addLiquidity_settled by done; done|].
  split; [intros; rewrite swapBaseForPreToken_settled by done; done|].
  intros; rewrite swapPreTokenForBase_settled by done; done.
Qed.

Lemma C3_settlement_is_one_way_witness :
  exists w',
    enterSettlementPhase 2%nat
      (initial (fun _ => Token.new "T" "T" 18) 0%nat 1%nat None)
    = (inr tt, w')
    /\ _isSettlementPhase (pool w') = true
    /\ _realToken (pool w') = Some 2%nat
    /\ forall ops : list Op,
         let w'' := run ops w' in
         _isSettlementPhase (pool w'') = true
         /\ _realToken (pool w'') = Some 2%nat
         /\ (forall other,
               (enterSettlementPhase other w'').1 = inl AlreadyInSettlement)
         /\ (forall owner baseAmount pa pb,
               (addLiquidity owner baseAmount pa pb w'').1
               = inl SettlementPhaseViolation)
         /\ (forall trader baseAmount,
               (swapBaseForPreToken trader baseAmount w'').1
               = inl SettlementPhaseViolation)
         /\ (forall trader preTokenAmount,
               (swapPreTokenForBase trader preTokenAmount w'').1
               = inl SettlementPhaseViolation).
Proof.
  apply (C3_settlement_is_one_way
           (initial (fun _ => Token.new "T" "T" 18) 0%nat 1%nat None) 2%nat).
  reflexivity.
Defined.

(** ** The methods in the Trading phase *)

Lemma addLiquidity_done (owner : string) (baseAmount pa pb : R) (w : World) :
  _isSettlementPhase (pool w) = false ->
  0 < baseAmount ->
  baseAmount * 2 <= Token.balanceOf (store w (_baseToken (pool w))) owner ->
  0 < pa -> pa < pb ->
  addLiquidity owner baseAmount pa pb w
  = (inr ("LP-" +:+ pretty (_nextPositionId (pool w))),
     mkWorld (addedStore owner baseAmount pa pb w)
             (addedPool owner baseAmount pa pb (pool w))).
Proof.
  intros Hphase Hpos Hbal Hpa Hpab.
  unfold addLiquidity, bind, this, view, lift.
  rewrite Hphase, (proj2 (leb_false _ _) Hpos), (proj2 (ltb_false _ _) Hbal).
  unfold PriceCalculator.calculatePreTokenAmount,
    PriceCalculator.calculateLiquidity.
  rewrite (proj2 (invalidRange_false pa pb)) by done.
  unfold call, assign, ret, when, addedStore, addedPool, tokenCall.
  cbn.
  destruct (Token.transfer owner POOL (baseAmount * 2)
              (store w (_baseToken (pool w)))) as [b1 t1] eqn:E1.
  cbn.
  destruct (Token.mint POOL _ _) as [b2 t2] eqn:E2.
  cbn.
  unfold liquidityFor, preTokenFor in *.
  replace t2 with (b2, t2).2 by done. rewrite <- E2.
  destruct (negb (_initialPriceSet (pool w)) && _) eqn:E3; cbn; done.
Qed.

(** The guards of [addLiquidity] in the order the code tests them; a call
    that throws has changed nothing. *)
Lemma addLiquidity_refused (owner : string) (baseAmount pa pb : R)
    (w : World) :
  _isSettlementPhase (pool w) = false ->
  (baseAmount <= 0 ->
   addLiquidity owner baseAmount pa pb w = (inl NonPositiveAmount, w))
  /\ (0 < baseAmount ->
      Token.balanceOf (store w (_baseToken (pool w))) owner < baseAmount * 2 ->
      addLiquidity owner baseAmount pa pb w = (inl InsufficientBalance, w))
  /\ (0 < baseAmount ->
      baseAmount * 2 <= Token.balanceOf (store w (_baseToken (pool w))) owner ->
      pa <= 0 \/ pb <= 0 \/ pa >= pb ->
      addLiquidity owner baseAmount pa pb w = (inl InvalidRange, w)).
Proof.
  intros Hphase. unfold addLiquidity, bind, this, view, lift, throw.
  rewrite Hphase. repeat split.
  - intros H. rewrite (proj2 (leb_true _ _) H). done.
  - intros Hpos H. rewrite (proj2 (leb_false _ _) Hpos).
    rewrite (proj2 (ltb_true _ _) H). done.
  - intros Hpos Hbal Hrange.
    rewrite (proj2 (leb_false _ _) Hpos), (proj2 (ltb_false _ _) Hbal).
    destruct (conversions_reject_invalid_range baseAmount pa pb Hrange)
      as (_ & -> & _).
    done.
Qed.

(** Every outcome of [addLiquidity]: it throws and leaves the world as it
    was, or all guards passed and the world is the one described above. *)
Lemma addLiquidity_cases (owner : string) (baseAmount pa pb : R) (w : World) :
  (exists e, addLiquidity owner baseAmount pa pb w = (inl e, w))
  \/ (_isSettlementPhase (pool w) = false
      /\ 0 < baseAmount
      /\ baseAmount * 2 <= Token.balanceOf (store w (_baseToken (pool w))) owner
      /\ 0 < pa /\ pa < pb
      /\ addLiquidity owner baseAmount pa pb w
         = (inr ("LP-" +:+ pretty (_nextPositionId (pool w))),
            mkWorld (addedStore owner baseAmount pa pb w)
                    (addedPool owner baseAmount pa pb (pool w)))).
Proof.
  destruct (_isSettlementPhase (pool w)) eqn:Hphase.
  { left. eexists. apply addLiquidity_settled. done. }
  destruct (addLiquidity_refused owner baseAmount pa pb w Hphase)
    as (Hamount & Hbalance & Hrange).
  destruct (Rle_dec baseAmount 0) as [H0|H0].
  { left. eexists. apply Hamount. done. }
  destruct (Rlt_dec (Token.balanceOf (store w (_baseToken (pool w))) owner)
                    (baseAmount * 2)) as [H1|H1].
  { left. eexists. apply Hbalance; [lra|done]. }
  destruct (Rle_dec pa 0) as [H2|H2].
  { left. eexists. apply Hrange; [lra|lra|]. left. done. }
  destruct (Rle_dec pb pa) as [H3|H3].
  { left. eexists. apply Hrange; [lra|lra|]. right; right. lra. }
  right. repeat split; try lra.
  apply addLiquidity_done; try done; lra.
Qed.

(** The swaps behind their guards. *)
Lemma swapBaseForPreToken_trading (trader : string) (baseAmount : R)
    (w : World) :
  _isSettlementPhase (pool w) = false ->
  0 < baseAmount ->
  baseAmount <= Token.balanceOf (store w (_baseToken (pool w))) trader ->
  swapBaseForPreToken trader baseAmount w = bought trader baseAmount w.
Proof.
  intros Hphase Hpos Hbal.
  unfold swapBaseForPreToken, bought, bind, this, view.
  rewrite Hphase, (proj2 (leb_false _ _) Hpos), (proj2 (ltb_false _ _) Hbal).
  unfold call, tokenCall, buyStart, buyRoute, ascending. cbn.
  destruct (Token.transfer trader POOL baseAmount _) as [b1 t1] eqn:E1.
  cbn.
  destruct (startIndex _ _ _) as [i|]; [|done].
  destruct (routeBase _ _ _ _) as [[remaining total] price].
  cbn.
  destruct (Num.ltb 0 remaining); cbn.
  - destruct (Token.transfer POOL trader remaining _) as [b2 t2]. cbn.
    destruct (Token.transfer POOL trader total _) as [b3 t3]. done.
  - destruct (Token.transfer POOL trader total _) as [b3 t3]. done.
Qed.

Lemma swapPreTokenForBase_trading (trader : string) (preTokenAmount : R)
    (w : World) :
  _isSettlementPhase (pool w) = false ->
  0 < preTokenAmount ->
  preTokenAmount <= Token.balanceOf (store w (_preToken (pool w))) trader ->
  swapPreTokenForBase trader preTokenAmount w = sold trader preTokenAmount w.
Proof.
  intros Hphase Hpos Hbal.
  unfold swapPreTokenForBase, sold, bind, this, view.
  rewrite Hphase, (proj2 (leb_false _ _) Hpos), (proj2 (ltb_false _ _) Hbal).
  unfold call, tokenCall, sellStart, sellRoute, descending. cbn.
  destruct (Token.transfer trader POOL preTokenAmount _) as [b1 t1] eqn:E1.
  cbn.
  destruct (startIndex _ _ _) as [i|]; [|done].
  destruct (routePre _ _ _ _) as [[remaining total] price].
  cbn.
  destruct (Num.ltb 0 remaining); cbn.
  - destruct (Token.transfer POOL trader remaining _) as [b2 t2]. cbn.
    destruct (Token.transfer POOL trader _ _) as [b3 t3]. done.
  - destruct (Token.transfer POOL trader _ _) as [b3 t3]. done.
Qed.

(** A swap that does not get past its guards changes nothing. *)
Lemma swapBaseForPreToken_cases (trader : string) (baseAmount : R)
    (w : World) :
  (exists e, e <> NoLiquidityAvailable
             /\ swapBaseForPreToken trader baseAmount w = (inl e, w))
  \/ (_isSettlementPhase (pool w) = false
      /\ 0 < baseAmount
      /\ baseAmount <= Token.balanceOf (store w (_baseToken (pool w))) trader
      /\ swapBaseForPreToken trader baseAmount w = bought trader baseAmount w).
Proof.
  destruct (_isSettlementPhase (pool w)) eqn:Hphase.
  { left. eexists. split; [|apply swapBaseForPreToken_settled; done]. done. }
  destruct (Rle_dec baseAmount 0) as [H0|H0].
  { left. exists NonPositiveAmount. split; [done|].
    unfold swapBaseForPreToken, bind, this, throw.
    rewrite Hphase, (proj2 (leb_true _ _) H0). done. }
  destruct (Rlt_dec (Token.balanceOf (store w (_baseToken (pool w))) trader)
                    baseAmount) as [H1|H1].
  { left. exists InsufficientBalance. split; [done|].
    unfold swapBaseForPreToken, bind, this, view, throw.
    rewrite Hphase, (proj2 (leb_false _ _)) by lra.
    rewrite (proj2 (ltb_true _ _) H1). done. }
  right. repeat split; try lra.
  apply swapBaseForPreToken_trading; try done; lra.
Qed.

Lemma swapPreTokenForBase_cases (trader : string) (preTokenAmount : R)
    (w : World) :
  (exists e, e <> NoLiquidityAvailable
             /\ swapPreTokenForBase trader preTokenAmount w = (inl e, w))
  \/ (_isSettlementPhase (pool w) = false
      /\ 0 < preTokenAmount
      /\ preTokenAmount
         <= Token.balanceOf (store w (_preToken (pool w))) trader
      /\ swapPreTokenForBase trader preTokenAmount w
         = sold trader preTokenAmount w).
Proof.
  destruct (_isSettlementPhase (pool w)) eqn:Hphase.
  { left. eexists. split; [|apply swapPreTokenForBase_settled; done]. done. }
  destruct (Rle_dec preTokenAmount 0) as [H0|H0].
  { left. exists NonPositiveAmount. split; [done|].
    unfold swapPreTokenForBase, bind, this, throw.
    rewrite Hphase, (proj2 (leb_true _ _) H0). done. }
  destruct (Rlt_dec (Token.balanceOf (store w (_preToken (pool w))) trader)
                    preTokenAmount) as [H1|H1].
  { left. exists InsufficientBalance. split; [done|].
    unfold swapPreTokenForBase, bind, this, view, throw.
    rewrite Hphase, (proj2 (leb_false _ _)) by lra.
    rewrite (proj2 (ltb_true _ _) H1). done. }
  right. repeat split; try lra.
  apply swapPreTokenForBase_trading; try done; lra.
Qed.

(** ** addLiquidity and the ledger *)

Lemma tokenCall_same {A} (r : TokenRef) (f : Token.Token -> A * Token.Token)
    (tokens : TokenRef -> Token.Token) :
  tokenCall r f tokens r = (f (tokens r)).2.
Proof. unfold tokenCall. apply fn_lookup_insert. Qed.

Lemma tokenCall_other {A} (r r' : TokenRef)
    (f : Token.Token -> A * Token.Token) (tokens : TokenRef -> Token.Token) :
  r <> r' -> tokenCall r f tokens r' = tokens r'.
Proof. intros H. unfold tokenCall. apply fn_lookup_insert_ne. done. Qed.

Lemma preTokenFor_pos (x pa pb : R) :
  0 < x -> 0 < pa -> pa < pb -> 0 < preTokenFor x pa pb.
Proof.
  intros Hx Ha Hab. unfold preTokenFor.
  destruct (sqrt_range pa pb Ha Hab) as [H1 H2].
  apply Rdiv_lt_0_compat; [|apply inv_sqrt_gap; done].
  apply Rmult_lt_0_compat; lra.
Qed.

Lemma liquidityFor_pos (x pa pb : R) :
  0 < x -> 0 < pa -> pa < pb -> 0 < liquidityFor x pa pb.
Proof.
  intros Hx Ha Hab. unfold liquidityFor.
  apply Rdiv_lt_0_compat; [done|apply inv_sqrt_gap; done].
Qed.

(** The base-token balances after a successful [addLiquidity]: twice the
    amount has left the owner and reached the pool account; when the pool
    was built with one token object in both roles, the minted pre-tokens
    land on the same ledger. *)
Lemma addedStore_base_balance (owner : string) (baseAmount pa pb : R)
    (w : World) (a : string) :
  0 < baseAmount ->
  baseAmount * 2 <= Token.balanceOf (store w (_baseToken (pool w))) owner ->
  0 < pa -> pa < pb ->
  Token.balanceOf
    (addedStore owner baseAmount pa pb w (_baseToken (pool w))) a
  = Token.balanceOf (store w (_baseToken (pool w))) a
    - (if decide (a = owner) then 2 * baseAmount else 0)
    + (if decide (a = POOL) then 2 * baseAmount else 0)
    + (if decide (_preToken (pool w) = _baseToken (pool w)) then
         if decide (a = POOL) then preTokenFor baseAmount pa pb else 0
       else 0).
Proof.
  intros Hpos Hbal Ha Hab. unfold addedStore.
  assert (Hmint := preTokenFor_pos baseAmount pa pb Hpos Ha Hab).
  destruct (decide (_preToken (pool w) = _baseToken (pool w))) as [Heq|Hne].
  - rewrite Heq, !tokenCall_same.
    rewrite balanceOf_mint by done.
    rewrite balanceOf_transfer by lra.
    repeat destruct (decide _); lra.
  - rewrite tokenCall_other by done. rewrite tokenCall_same.
    rewrite balanceOf_transfer by lra.
    repeat destruct (decide _); lra.
Qed.



(** ** What a call can do to the pool's book and price *)

Lemma Map_set_not_nil {A} (k : string) (v : A) (m : list (string * A)) :
  Js.Map_set k v m <> [].
Proof. destruct m as [|[k' v'] m]; cbn; [done|]. destruct (decide _); done. Qed.

Lemma ascending_nil (p : LiquidityPool.t) :
  _lpPositions p = [] -> buyStart p = None.
Proof. intros H. unfold buyStart, ascending. rewrite H. done. Qed.

Lemma descending_nil (p : LiquidityPool.t) :
  _lpPositions p = [] -> sellStart p = None.
Proof. intros H. unfold sellStart, descending. rewrite H. done. Qed.

Lemma sameBook_refl (p : LiquidityPool.t) : sameBook p p.
Proof. done. Qed.

Lemma bought_sameBook trader baseAmount w :
  sameBook (pool w) (pool (bought trader baseAmount w).2).
Proof.
  unfold bought. destruct (buyStart (pool w)) as [i|] eqn:E; [|done].
  cbn. repeat split. intros Hnil. rewrite ascending_nil in E; done.
Qed.

Lemma sold_sameBook trader preTokenAmount w :
  sameBook (pool w) (pool (sold trader preTokenAmount w).2).
Proof.
  unfold sold. destruct (sellStart (pool w)) as [i|] eqn:E; [|done].
  cbn. repeat split. intros Hnil. rewrite descending_nil in E; done.
Qed.

(** Every step other than a successful [addLiquidity] keeps the book. *)
Lemma step_sameBook (w : World) (op : Op) :
  isAddLiquidity op && succeeded op w = false ->
  sameBook (pool w) (pool (step w op)).
Proof.
  intros Hop. unfold succeeded in Hop.
  destruct op; unfold step in *; cbn [exec isAddLiquidity] in *;
    unfold returning in *; cbn [fst snd] in *.
  - destruct (addLiquidity_cases owner baseAmount pa pb w)
      as [[e He]|(_ & _ & _ & _ & _ & Hok)].
    + rewrite He. done.
    + rewrite Hok in Hop. done.
  - destruct (swapBaseForPreToken_cases trader baseAmount w)
      as [(e & _ & He)|(_ & _ & _ & Hok)].
    + rewrite He. done.
    + rewrite Hok. apply bought_sameBook.
  - destruct (swapPreTokenForBase_cases trader preTokenAmount w)
      as [(e & _ & He)|(_ & _ & _ & Hok)].
    + rewrite He. done.
    + rewrite Hok. apply sold_sameBook.
  - destruct (_isSettlementPhase (pool w)) eqn:Hphase.
    + rewrite enterSettlementPhase_settled by done. done.
    + rewrite enterSettlementPhase_trading by done. done.
  - rewrite call_pool. done.
  - rewrite call_pool. done.
  - rewrite call_pool. done.
Qed.

(** What a successful [addLiquidity] does to the book and the price. *)
Lemma addedPool_book owner baseAmount pa pb (p : LiquidityPool.t) :
  _lpPositions (addedPool owner baseAmount pa pb p) <> []
  /\ (_initialPriceSet p = true ->
      _initialPriceSet (addedPool owner baseAmount pa pb p) = true
      /\ _currentSqrtPrice (addedPool owner baseAmount pa pb p)
         = _currentSqrtPrice p)
  /\ (_initialPriceSet p = false -> _lpPositions p = [] ->
      _initialPriceSet (addedPool owner baseAmount pa pb p) = true
      /\ _currentSqrtPrice (addedPool owner baseAmount pa pb p) = sqrt pa).
Proof.
  unfold addedPool. split; [|split].
  - destruct (negb _ && _); cbn; apply Map_set_not_nil.
  - intros H. rewrite H. cbn. done.
  - intros H ->. rewrite H. cbn. done.
Qed.

Lemma priceSetInv_initial tokens baseToken preToken initialPrice :
  priceSetInv initialPrice
    (pool (initial tokens baseToken preToken initialPrice)).
Proof.
  split.
  - destruct initialPrice; cbn; split; intros H; try done.
    + left. done.
    + destruct H as [[? [=]]|H]; done.
  - intros ->. done.
Qed.

Lemma priceSetInv_step initialPrice (w : World) (op : Op) :
  priceSetInv initialPrice (pool w) ->
  priceSetInv initialPrice (pool (step w op)).
Proof.
  intros [Hflag Hzero].
  destruct (isAddLiquidity op && succeeded op w) eqn:Hop.
  - destruct op; try done. unfold succeeded, step in *.
    cbn [exec isAddLiquidity] in *. unfold returning in *. cbn [fst snd] in *.
    destruct (addLiquidity_cases owner baseAmount pa pb w)
      as [[e He]|(_ & _ & _ & _ & _ & Hok)].
    { rewrite He in Hop. done. }
    rewrite Hok. cbn [snd pool].
    destruct (addedPool_book owner baseAmount pa pb (pool w))
      as (Hne & Hset & Hunset).
    split; [|done].
    split; [intros _; right; done|]. intros _.
    destruct (_initialPriceSet (pool w)) eqn:E.
    + apply Hset. done.
    + apply Hunset; [done|].
      destruct (_lpPositions (pool w)) eqn:El; [done|].
      assert (false = true) by (apply Hflag; right; done). done.
  - destruct (step_sameBook w op Hop) as (Hpos & Hset & Hprice).
    split.
    + rewrite Hset, Hpos. done.
    + rewrite Hpos. intros Hi Hnil. rewrite Hprice by done. auto.
Qed.

Lemma priceSetInv_run initialPrice (ops : list Op) (w : World) :
  priceSetInv initialPrice (pool w) ->
  priceSetInv initialPrice (pool (run ops w)).
Proof.
  revert w. induction ops as [|op ops IH]; intros w H; [done|].
  apply IH, priceSetInv_step, H.
Qed.

(** C6.  In a pool reached from its constructor by any history, a
    successful [addLiquidity] leaves [currentSqrtPrice] as it was whenever
    an initial price was passed to the constructor or a position already
    exists (that is, whenever [_initialPriceSet] holds); it sets it to
    [sqrt pa] only when no initial price was passed and the position is the
    pool's first. *)
Theorem C6_addLiquidity_moves_only_an_unset_price
    (tokens : TokenRef -> Token.Token) (baseToken preToken : TokenRef)
    (initialPrice : option R) (ops : list Op)
    (owner : string) (baseAmount pa pb : R)
    (positionId : string) (w' : World) :
  let w := run ops (initial tokens baseToken preToken initialPrice) in
  addLiquidity owner baseAmount pa pb w = (inr positionId, w') ->
  (_initialPriceSet (pool w) = true
   <-> is_Some initialPrice \/ _lpPositions (pool w) <> [])
  /\ (is_Some initialPrice \/ _lpPositions (pool w) <> [] ->
      _currentSqrtPrice (pool w') = _currentSqrtPrice (pool w))
  /\ (initialPrice = None -> _lpPositions (pool w) = [] ->
      _currentSqrtPrice (pool w') = sqrt pa).
Proof.
  intros w Hdone.
  assert (Hinv : priceSetInv initialPrice (pool w))
    by apply priceSetInv_run, priceSetInv_initial.
  destruct Hinv as [Hflag Hzero].
  destruct (addLiquidity_cases owner baseAmount pa pb w)
    as [[e He]|(_ & _ & _ & _ & _ & Hok)]; [congruence|].
  rewrite Hok in Hdone. injection Hdone as _ <-. cbn [pool].
  destruct (addedPool_book owner baseAmount pa pb (pool w))
    as (_ & Hset & Hunset).
  split; [done|]. split.
  - intros H. apply Hset, Hflag, H.
  - intros Hnone Hnil. apply Hunset; [|done].
    destruct (_initialPriceSet (pool w)) eqn:E; [|done].
    destruct (proj1 Hflag eq_refl) as [[x Hx]|H]; congruence.
Qed.

Lemma C6_addLiquidity_moves_only_an_unset_price_witness :
  _currentSqrtPrice (addedPool "LP1" 5000 1 5 (constructor 0%nat 1%nat None))
  = sqrt 1.
Proof.
  refine (proj2 (proj2
    (C6_addLiquidity_moves_only_an_unset_price
       (tokensOf (usdc 10000 {[ "LP1" := 10000 ]}) (preX 0 ∅))
       0%nat 1%nat None [] "LP1" 5000 1 5 _
       (mkWorld _ _) _)) eq_refl eq_refl).
  apply addLiquidity_done; try reflexivity; try lra.
  change (5000 * 2 <= default 0 (Some 10000)). cbn. lra.
Defined.



(** Scenario D on a fresh pool, as a history step. *)
Lemma short_owner_is_refused :
  addLiquidity "LP1" 5000 1 5
    (initial (tokensOf (usdc 9999 {[ "LP1" := 9999 ]}) (preX 0 ∅))
             0%nat 1%nat None)
  = (inl InsufficientBalance,
     initial (tokensOf (usdc 9999 {[ "LP1" := 9999 ]}) (preX 0 ∅))
             0%nat 1%nat None).
Proof.
  apply addLiquidity_refused; [reflexivity|lra|].
  change (default 0 (Some 9999) < 5000 * 2). cbn. lra.
Qed.


(** ** Swaps and the ledger *)







(** ** Evaluating histories *)

Lemma sqrt_is (x y : R) : 0 <= y -> y * y = x -> sqrt x = y.
Proof. intros Hy <-. apply sqrt_square. done. Qed.

Lemma sqrt_1_is : sqrt 1 = 1.
Proof. apply sqrt_is; lra. Qed.

Lemma sqrt_4_is : sqrt 4 = 2.
Proof. apply sqrt_is; lra. Qed.

Lemma sqrt_9_is : sqrt 9 = 3.
Proof. apply sqrt_is; lra. Qed.

Lemma sqrt_16_is : sqrt 16 = 4.
Proof. apply sqrt_is; lra. Qed.

Lemma sqrt_25_is : sqrt 25 = 5.
Proof. apply sqrt_is; lra. Qed.

Lemma sqrt_100_is : sqrt 100 = 10.
Proof. apply sqrt_is; lra. Qed.

(** Replaces the square roots of the scenarios by their values. *)
Ltac sqrt_eval :=
  rewrite ?sqrt_1_is, ?sqrt_4_is, ?sqrt_9_is, ?sqrt_16_is, ?sqrt_25_is,
    ?sqrt_100_is.

(** Settles comparisons, [Math.min] and [Math.max] between numerals. *)
Ltac num_eval :=
  repeat first
    [ progress num_decide
    | match goal with
      | |- context [Rmin ?a ?b] =>
          first [ rewrite (Rmin_left a b) by lra
                | rewrite (Rmin_right a b) by lra ]
      | |- context [Rmax ?a ?b] =>
          first [ rewrite (Rmax_left a b) by lra
                | rewrite (Rmax_right a b) by lra ]
      end ].

Lemma positionId_1 : "LP-" +:+ pretty 1%nat = "LP-1".
Proof. reflexivity. Qed.

Lemma positionId_2 : "LP-" +:+ pretty 2%nat = "LP-2".
Proof. reflexivity. Qed.

Lemma step_addLiquidity (owner : string) (baseAmount pa pb : R) (w : World) :
  _isSettlementPhase (pool w) = false ->
  0 < baseAmount ->
  baseAmount * 2 <= Token.balanceOf (store w (_baseToken (pool w))) owner ->
  0 < pa -> pa < pb ->
  step w (AddLiquidity owner baseAmount pa pb)
  = mkWorld (addedStore owner baseAmount pa pb w)
            (addedPool owner baseAmount pa pb (pool w)).
Proof.
  intros. unfold step. cbn [exec]. unfold returning.
  rewrite addLiquidity_done by done. done.
Qed.

Lemma balanceOf_mint_other (to : string) (amount : R) (t : Token.Token)
    (a : string) :
  a <> to -> Token.balanceOf (Token.mint to amount t).2 a = Token.balanceOf t a.
Proof.
  intros Hne. unfold Token.mint. destruct (Num.leb amount 0); [done|].
  cbn.
  change (Token.balanceOf
            (Token.withBalance to (Token.balanceOf t to + amount) t) a
          = Token.balanceOf t a).
  rewrite balanceOf_withBalance, decide_False by done. done.
Qed.

(** [addLiquidity] leaves the accounts of third parties alone, on every
    token. *)
Lemma addedStore_other (owner : string) (baseAmount pa pb : R) (w : World)
    (r : TokenRef) (a : string) :
  a <> owner -> a <> POOL ->
  Token.balanceOf (addedStore owner baseAmount pa pb w r) a
  = Token.balanceOf (store w r) a.
Proof.
  intros Ho Hp. unfold addedStore.
  destruct (decide (_preToken (pool w) = r)) as [<-|Hpre].
  - rewrite tokenCall_same, balanceOf_mint_other by done.
    destruct (decide (_baseToken (pool w) = _preToken (pool w))) as [<-|Hb].
    + rewrite tokenCall_same, balanceOf_transfer_other by done. done.
    + rewrite tokenCall_other by done. done.
  - rewrite tokenCall_other by done.
    destruct (decide (_baseToken (pool w) = r)) as [<-|Hb].
    + rewrite tokenCall_same, balanceOf_transfer_other by done. done.
    + rewrite tokenCall_other by done. done.
Qed.

(** What [addLiquidity] keeps of the pool. *)
Lemma addedPool_frame (owner : string) (baseAmount pa pb : R)
    (p : LiquidityPool.t) :
  _baseToken (addedPool owner baseAmount pa pb p) = _baseToken p
  /\ _preToken (addedPool owner baseAmount pa pb p) = _preToken p
  /\ _isSettlementPhase (addedPool owner baseAmount pa pb p)
     = _isSettlementPhase p
  /\ _baseReserve (addedPool owner baseAmount pa pb p)
     = _baseReserve p + baseAmount.
Proof. unfold addedPool. destruct (negb _ && _); done. Qed.

(** ** A swap that finds no liquidity *)

(** Whenever a buy fails for lack of liquidity the pool is as it was, but
    the trader's payment has already been moved to the pool account. *)
Lemma failed_buy_has_paid (trader : string) (baseAmount : R) (w w' : World) :
  swapBaseForPreToken trader baseAmount w = (inl NoLiquidityAvailable, w') ->
  pool w' = pool w
  /\ store w'
     = tokenCall (_baseToken (pool w))
         (Token.transfer trader POOL baseAmount) (store w)
  /\ (trader <> POOL ->
      Token.balanceOf (store w' (_baseToken (pool w))) trader
      = Token.balanceOf (store w (_baseToken (pool w))) trader - baseAmount).
Proof.
  intros Hfail.
  destruct (swapBaseForPreToken_cases trader baseAmount w)
    as [(e & Hne & He)|(_ & Hpos & Hbal & Hok)]; [congruence|].
  rewrite Hok in Hfail. unfold bought in Hfail.
  destruct (buyStart (pool w)); [done|].
  injection Hfail as <-. cbn [pool store]. split; [done|]. split; [done|].
  intros Hne. rewrite tokenCall_same, balanceOf_transfer by done.
  rewrite decide_True, decide_False by done. lra.
Qed.

Lemma failed_sell_has_paid (trader : string) (preTokenAmount : R)
    (w w' : World) :
  swapPreTokenForBase trader preTokenAmount w
  = (inl NoLiquidityAvailable, w') ->
  pool w' = pool w
  /\ store w'
     = tokenCall (_preToken (pool w))
         (Token.transfer trader POOL preTokenAmount) (store w)
  /\ (trader <> POOL ->
      Token.balanceOf (store w' (_preToken (pool w))) trader
      = Token.balanceOf (store w (_preToken (pool w))) trader
        - preTokenAmount).
Proof.
  intros Hfail.
  destruct (swapPreTokenForBase_cases trader preTokenAmount w)
    as [(e & Hne & He)|(_ & Hpos & Hbal & Hok)]; [congruence|].
  rewrite Hok in Hfail. unfold sold in Hfail.
  destruct (sellStart (pool w)); [done|].
  injection Hfail as <-. cbn [pool store]. split; [done|]. split; [done|].
  intros Hne. rewrite tokenCall_same, balanceOf_transfer by done.
  rewrite decide_True, decide_False by done. lra.
Qed.

(** C1.  The code at the failing input: on a fresh pool without positions
    a trader who holds 100 base tokens and 50 pre-tokens swaps 10 base
    tokens, then 20 pre-tokens.  Both calls fail with
    [NoLiquidityAvailable] and leave the pool as it was, but the ledger is
    not as it was: the payments stay on the pool account. *)
Theorem C1_failed_swap_keeps_the_payment :
  (exists w',
      swapBaseForPreToken "Trader1" 10 emptyPool
      = (inl NoLiquidityAvailable, w')
      /\ pool w' = pool emptyPool
      /\ Token.balanceOf (store emptyPool 0%nat) "Trader1" = 100
      /\ Token.balanceOf (store emptyPool 0%nat) POOL = 0
      /\ Token.balanceOf (store w' 0%nat) "Trader1" = 90
      /\ Token.balanceOf (store w' 0%nat) POOL = 10)
  /\ (exists w',
         swapPreTokenForBase "Trader1" 20 emptyPool
         = (inl NoLiquidityAvailable, w')
         /\ pool w' = pool emptyPool
         /\ Token.balanceOf (store emptyPool 1%nat) "Trader1" = 50
         /\ Token.balanceOf (store emptyPool 1%nat) POOL = 0
         /\ Token.balanceOf (store w' 1%nat) "Trader1" = 30
         /\ Token.balanceOf (store w' 1%nat) POOL = 20).
Proof.
  assert (Hb : Token.balanceOf (store emptyPool 0%nat) "Trader1" = 100)
    by reflexivity.
  assert (Hbp : Token.balanceOf (store emptyPool 0%nat) POOL = 0)
    by reflexivity.
  assert (Hp : Token.balanceOf (store emptyPool 1%nat) "Trader1" = 50)
    by reflexivity.
  assert (Hpp : Token.balanceOf (store emptyPool 1%nat) POOL = 0)
    by reflexivity.
  split.
  - eexists. split.
    { rewrite swapBaseForPreToken_trading;
        [|reflexivity|lra|change (10 <= Token.balanceOf (store emptyPool 0%nat) "Trader1"); lra].
      unfold bought. rewrite ascending_nil by reflexivity. reflexivity. }
    cbn [pool store]. split; [reflexivity|].
    change (_baseToken (pool emptyPool)) with 0%nat.
    rewrite tokenCall_same.
    rewrite !balanceOf_transfer by lra.
    rewrite Hb, Hbp.
    repeat case_decide; try done. repeat split; lra.
  - eexists. split.
    { rewrite swapPreTokenForBase_trading;
        [|reflexivity|lra|change (20 <= Token.balanceOf (store emptyPool 1%nat) "Trader1"); lra].
      unfold sold. rewrite descending_nil by reflexivity. reflexivity. }
    cbn [pool store]. split; [reflexivity|].
    change (_preToken (pool emptyPool)) with 1%nat.
    rewrite tokenCall_same.
    rewrite !balanceOf_transfer by lra.
    rewrite Hp, Hpp.
    repeat case_decide; try done. repeat split; lra.
Qed.

(** ** Nested ranges *)

(** The buy side: the book of [nestedBuy] and the trader's funds. *)
Lemma nestedBuy_state :
  pool nestedBuy
  = addedPool "LP2" 6 4 9
      (addedPool "LP1" 9 1 100 (constructor 0%nat 1%nat (Some 25)))
  /\ Token.balanceOf (store nestedBuy 0%nat) "Trader1" = 1000.
Proof.
  unfold nestedBuy, run. cbn [foldl].
  rewrite (step_addLiquidity "LP1")
    by (try reflexivity; try lra;
        change (9 * 2 <= default 0 (Some 18)); cbn; lra).
  rewrite (step_addLiquidity "LP2").
  - split; [reflexivity|].
    repeat (cbn [store]; rewrite addedStore_other by done). reflexivity.
  - reflexivity.
  - lra.
  - cbn [store pool]. rewrite (proj1 (addedPool_frame _ _ _ _ _)).
    rewrite addedStore_other by done.
    change (6 * 2 <= default 0 (Some 12)). cbn. lra.
  - lra.
  - lra.
Qed.

Lemma nestedBuy_price : _currentSqrtPrice (pool nestedBuy) = 5.
Proof.
  rewrite (proj1 nestedBuy_state). unfold addedPool, constructor. cbn.
  num_decide. apply sqrt_25_is.
Qed.

Lemma nestedBuy_ascending :
  ascending (pool nestedBuy)
  = [LPPosition.mk "LP-1" "LP1" 10 1 100 9 90;
     LPPosition.mk "LP-2" "LP2" 36 4 9 6 36].
Proof.
  rewrite (proj1 nestedBuy_state).
  unfold ascending, addedPool, constructor. cbn -[pretty].
  rewrite positionId_1, positionId_2, decide_False by discriminate.
  cbn. num_decide. unfold liquidityFor, preTokenFor. sqrt_eval.
  repeat f_equal; lra.
Qed.

(** The routing starts in [1, 100], which contains the price 25, uses it
    up at [sqrt 100 = 10], and goes on to [4, 9], where [Math.min] pulls
    the price down to [sqrt 9 = 3]. *)
Lemma nestedBuy_route :
  buyStart (pool nestedBuy) = Some 0%nat
  /\ buyRoute (pool nestedBuy) 0 (1000 - 1000 * _feePercentage)
     = (1199, -37 / 5, 3).
Proof.
  unfold buyStart, buyRoute, getCurrentPrice.
  rewrite nestedBuy_ascending, nestedBuy_price. split.
  - unfold startIndex, containsPrice. cbn. num_decide. done.
  - unfold _feePercentage. rewrite (sqrt_is (5 * 5) 5) by lra.
    cbn. sqrt_eval. num_eval. repeat f_equal; lra.
Qed.

(** The sell side. *)
Lemma nestedSell_state :
  pool nestedSell
  = addedPool "LP2" 1 16 25
      (addedPool "LP1" 9 1 100 (constructor 0%nat 1%nat (Some 4)))
  /\ Token.balanceOf (store nestedSell 1%nat) "Trader1" = 100.
Proof.
  unfold nestedSell, run. cbn [foldl].
  rewrite (step_addLiquidity "LP1")
    by (try reflexivity; try lra;
        change (9 * 2 <= default 0 (Some 18)); cbn; lra).
  rewrite (step_addLiquidity "LP2").
  - split; [reflexivity|].
    repeat (cbn [store]; rewrite addedStore_other by done). reflexivity.
  - reflexivity.
  - lra.
  - cbn [store pool]. rewrite (proj1 (addedPool_frame _ _ _ _ _)).
    rewrite addedStore_other by done.
    change (1 * 2 <= default 0 (Some 2)). cbn. lra.
  - lra.
  - lra.
Qed.

Lemma nestedSell_price : _currentSqrtPrice (pool nestedSell) = 2.
Proof.
  rewrite (proj1 nestedSell_state). unfold addedPool, constructor. cbn.
  num_decide. apply sqrt_4_is.
Qed.

Lemma nestedSell_descending :
  descending (pool nestedSell)
  = [LPPosition.mk "LP-1" "LP1" 10 1 100 9 90;
     LPPosition.mk "LP-2" "LP2" 20 16 25 1 20].
Proof.
  rewrite (proj1 nestedSell_state).
  unfold descending, addedPool, constructor. cbn -[pretty].
  rewrite positionId_1, positionId_2, decide_False by discriminate.
  cbn. num_decide. unfold liquidityFor, preTokenFor. sqrt_eval.
  repeat f_equal; lra.
Qed.

(** The routing starts in [1, 100], which contains the price 4, uses it up
    at [sqrt 1 = 1], and goes on to [16, 25], where [Math.max] pushes the
    price up to [sqrt 16 = 4]. *)
Lemma nestedSell_route :
  sellStart (pool nestedSell) = Some 0%nat
  /\ sellRoute (pool nestedSell) 0 100 = (90, -50, 4).
Proof.
  unfold sellStart, sellRoute, getCurrentPrice.
  rewrite nestedSell_descending, nestedSell_price. split.
  - unfold startIndex, containsPrice. cbn. num_decide. done.
  - rewrite (sqrt_is (2 * 2) 2) by lra.
    cbn. sqrt_eval. num_eval. repeat f_equal; lra.
Qed.

(** C2.  The code at the failing inputs, both reached from the
    constructor by two successful [addLiquidity] calls.  With the ranges
    [1, 100] and [4, 9] and the price at 25, buying with 1000 base tokens
    returns normally and leaves [currentSqrtPrice] at 3, below the 5 it
    started from.  With the ranges [1, 100] and [16, 25] and the price at
    4, selling 100 pre-tokens returns normally and leaves
    [currentSqrtPrice] at 4, above the 2 it started from. *)
Theorem C2_nested_ranges_move_the_price_backwards :
  (exists w',
      swapBaseForPreToken "Trader1" 1000 nestedBuy = (inr (-37 / 5), w')
      /\ _currentSqrtPrice (pool nestedBuy) = 5
      /\ _currentSqrtPrice (pool w') = 3)
  /\ (exists w',
         swapPreTokenForBase "Trader1" 100 nestedSell
         = (inr (-50 - -50 * _feePercentage), w')
         /\ _currentSqrtPrice (pool nestedSell) = 2
         /\ _currentSqrtPrice (pool w') = 4).
Proof.
  split.
  - destruct nestedBuy_state as [Hpool Hfunds].
    destruct nestedBuy_route as [Hstart Hroute].
    eexists. split; [|split; [apply nestedBuy_price|]].
    + rewrite swapBaseForPreToken_trading.
      * unfold bought. cbv zeta. rewrite Hstart, Hroute. reflexivity.
      * rewrite Hpool. reflexivity.
      * lra.
      * replace (_baseToken (pool nestedBuy)) with 0%nat
          by (rewrite Hpool; reflexivity).
        lra.
    + reflexivity.
  - destruct nestedSell_state as [Hpool Hfunds].
    destruct nestedSell_route as [Hstart Hroute].
    eexists. split; [|split; [apply nestedSell_price|]].
    + rewrite swapPreTokenForBase_trading.
      * unfold sold. cbv zeta. rewrite Hstart, Hroute. reflexivity.
      * rewrite Hpool. reflexivity.
      * lra.
      * replace (_preToken (pool nestedSell)) with 1%nat
          by (rewrite Hpool; reflexivity).
        lra.
    + reflexivity.
Qed.

(** ** The pool account's surplus over [baseReserve] *)

Section Surplus.
Variable w : World.
Variable who : string.
Variable amount : R.
Hypothesis distinct_tokens : _baseToken (pool w) <> _preToken (pool w).
Hypothesis not_the_pool : who <> POOL.

Let base := _baseToken (pool w).

Lemma added_surplus (pa pb : R) :
  0 < amount ->
  amount * 2 <= Token.balanceOf (store w base) who ->
  0 < pa -> pa < pb ->
  surplus (mkWorld (addedStore who amount pa pb w)
                   (addedPool who amount pa pb (pool w)))
  = surplus w + amount.
Proof.
  intros Hpos Hbal Ha Hab. unfold surplus. cbn [store pool].
  destruct (addedPool_frame who amount pa pb (pool w))
    as (-> & _ & _ & ->).
  rewrite addedStore_base_balance by done.
  rewrite decide_False by done.
  rewrite decide_True by done.
  rewrite decide_False by (intros H; apply distinct_tokens; done).
  lra.
Qed.

Lemma bought_surplus (i : nat) :
  0 < amount ->
  amount <= Token.balanceOf (store w base) who ->
  buyStart (pool w) = Some i ->
  0 <= (buyRoute (pool w) i (amount - amount * _feePercentage)).1.1
    <= Token.balanceOf (store w base) POOL + amount ->
  surplus (bought who amount w).2 = surplus w + amount * _feePercentage.
Proof.
  intros Hpos Hbal Hstart Hrem. unfold bought. rewrite Hstart. cbv zeta.
  set (r := buyRoute (pool w) i (amount - amount * _feePercentage)) in *.
  unfold surplus. cbn [snd store pool _baseToken _baseReserve
                         set_currentSqrtPrice set_reserves].
  fold base.
  rewrite tokenCall_other by (intros H; apply distinct_tokens; done).
  assert (Hpaid :
    Token.balanceOf
      (tokenCall base (Token.transfer who POOL amount) (store w) base) POOL
    = Token.balanceOf (store w base) POOL + amount).
  { rewrite tokenCall_same, balanceOf_transfer by done.
    rewrite decide_False by done. rewrite decide_True by done. lra. }
  destruct (Num.ltb 0 r.1.1) eqn:Hrefund.
  - apply ltb_true in Hrefund.
    rewrite tokenCall_same, balanceOf_transfer by (rewrite ?Hpaid; lra).
    rewrite Hpaid. rewrite decide_True by done.
    rewrite decide_False by done. lra.
  - apply ltb_false in Hrefund. rewrite Hpaid.
    assert (r.1.1 = 0) by lra. lra.
Qed.

Lemma sold_surplus (i : nat) :
  sellStart (pool w) = Some i ->
  let gross := (sellRoute (pool w) i amount).1.2 in
  0 < gross - gross * _feePercentage <= Token.balanceOf (store w base) POOL ->
  surplus (sold who amount w).2 = surplus w + gross * _feePercentage.
Proof.
  intros Hstart gross Hpay. unfold sold. rewrite Hstart. cbv zeta.
  fold gross.
  set (r := sellRoute (pool w) i amount) in *.
  unfold surplus. cbn [snd store pool _baseToken _baseReserve
                         set_currentSqrtPrice set_reserves].
  fold base.
  assert (Hkept : forall tokens,
    tokens base = store w base ->
    (if Num.ltb 0 r.1.1
     then tokenCall (_preToken (pool w))
            (Token.transfer POOL who r.1.1) tokens
     else tokens) base = store w base).
  { intros tokens Ht. destruct (Num.ltb 0 r.1.1); [|done].
    rewrite tokenCall_other by (intros H; apply distinct_tokens; done).
    done. }
  rewrite tokenCall_same, balanceOf_transfer.
  - rewrite Hkept
      by (rewrite tokenCall_other
            by (intros H; apply distinct_tokens; done); done).
    rewrite decide_True by done. rewrite decide_False by done. lra.
  - lra.
  - rewrite Hkept
      by (rewrite tokenCall_other
            by (intros H; apply distinct_tokens; done); done).
    lra.
Qed.

End Surplus.

(** C8, as amended.  Take a pool over two distinct token objects and an
    owner or trader other than the POOL account, and write surplus for the
    POOL account's base-token balance minus [baseReserve].  A successful
    [addLiquidity] raises the surplus by exactly [baseAmount].  A successful
    [swapBaseForPreToken] raises it by the input fee [baseAmount * 0.003]
    when the unused input is non-negative and the POOL account's balance
    covers its refund.  A successful [swapPreTokenForBase] raises it by the
    output fee when the net payout is positive and the POOL account's
    base-token balance covers it.  In each of these cases the surplus does
    not decrease. *)
Theorem C8_surplus_grows_by_collateral_and_fees
    (w : World) (who : string) (amount : R) :
  _baseToken (pool w) <> _preToken (pool w) ->
  who <> POOL ->
  let base := _baseToken (pool w) in
  (forall pa pb positionId w',
      addLiquidity who amount pa pb w = (inr positionId, w') ->
      surplus w' = surplus w + amount /\ surplus w <= surplus w')
  /\ (forall out w',
        swapBaseForPreToken who amount w = (inr out, w') ->
        exists i,
          buyStart (pool w) = Some i
          /\ let remaining :=
               (buyRoute (pool w) i (amount - amount * _feePercentage)).1.1 in
             (0 <= remaining <= Token.balanceOf (store w base) POOL + amount ->
              surplus w' = surplus w + amount * _feePercentage
              /\ surplus w <= surplus w'))
  /\ (forall out w',
        swapPreTokenForBase who amount w = (inr out, w') ->
        exists i,
          sellStart (pool w) = Some i
          /\ let gross := (sellRoute (pool w) i amount).1.2 in
             out = gross - gross * _feePercentage
             /\ (0 < out <= Token.balanceOf (store w base) POOL ->
                 surplus w' = surplus w + gross * _feePercentage
                 /\ surplus w <= surplus w')).
Proof.
  intros Hdistinct Hwho base. split; [|split].
  - intros pa pb positionId w' Hdone.
    destruct (addLiquidity_cases who amount pa pb w)
      as [[e He]|(_ & Hpos & Hbal & Ha & Hab & Hok)]; [congruence|].
    rewrite Hok in Hdone. injection Hdone as _ <-.
    rewrite added_surplus by done. split; lra.
  - intros out w' Hdone.
    destruct (swapBaseForPreToken_cases who amount w)
      as [(e & _ & He)|(_ & Hpos & Hbal & Hok)]; [congruence|].
    rewrite Hok in Hdone.
    destruct (buyStart (pool w)) as [i|] eqn:Hstart;
      [|unfold bought in Hdone; rewrite Hstart in Hdone; done].
    exists i. split; [done|]. intros remaining Hrem.
    assert (Hw' : w' = (bought who amount w).2) by (rewrite Hdone; done).
    rewrite Hw', (bought_surplus w who amount Hdistinct Hwho i) by done.
    unfold _feePercentage. split; lra.
  - intros out w' Hdone.
    destruct (swapPreTokenForBase_cases who amount w)
      as [(e & _ & He)|(_ & Hpos & Hbal & Hok)]; [congruence|].
    rewrite Hok in Hdone.
    destruct (sellStart (pool w)) as [i|] eqn:Hstart;
      [|unfold sold in Hdone; rewrite Hstart in Hdone; done].
    exists i. split; [done|]. intros gross.
    assert (Hout : out = gross - gross * _feePercentage).
    { unfold sold in Hdone. rewrite Hstart in Hdone.
      injection Hdone as <- _. done. }
    split; [done|]. intros Hpay.
    assert (Hw' : w' = (sold who amount w).2) by (rewrite Hdone; done).
    rewrite Hw', (sold_surplus w who amount Hdistinct Hwho i Hstart)
      by (fold gross; rewrite <- Hout; done).
    fold gross. rewrite Hout in Hpay. unfold _feePercentage in *.
    split; lra.
Qed.

Lemma C8_surplus_grows_by_collateral_and_fees_witness :
  surplus
    (mkWorld
       (addedStore "LP1" 9 1 100
          (initial (tokensOf (usdc 18 {[ "LP1" := 18 ]}) (preX 0 ∅))
                   0%nat 1%nat None))
       (addedPool "LP1" 9 1 100 (constructor 0%nat 1%nat None)))
  = surplus (initial (tokensOf (usdc 18 {[ "LP1" := 18 ]}) (preX 0 ∅))
                     0%nat 1%nat None)
    + 9.
Proof.
  refine (proj1 (proj1
    (C8_surplus_grows_by_collateral_and_fees
       (initial (tokensOf (usdc 18 {[ "LP1" := 18 ]}) (preX 0 ∅))
                0%nat 1%nat None)
       "LP1" 9 _ _) 1 100 _ _ _)).
  - discriminate.
  - discriminate.
  - apply addLiquidity_done; try reflexivity; try lra.
    change (9 * 2 <= default 0 (Some 18)). cbn. lra.
Defined.

(** *** Where the surplus does something else *)

(** The world [onePosition]: 18 base tokens on the pool account, 9 of them
    counted in [baseReserve]. *)
Lemma onePosition_state :
  onePosition
  = mkWorld
      (addedStore "LP1" 9 1 100
         (initial (tokensOf (usdc 18 {[ "LP1" := 18 ]}) (preX 0 ∅))
                  0%nat 1%nat None))
      (addedPool "LP1" 9 1 100 (constructor 0%nat 1%nat None)).
Proof.
  unfold onePosition, run. cbn [foldl].
  rewrite (step_addLiquidity "LP1")
    by (try reflexivity; try lra;
        change (9 * 2 <= default 0 (Some 18)); cbn; lra).
  reflexivity.
Qed.

Lemma onePosition_surplus :
  Token.balanceOf (store onePosition 0%nat) POOL = 18
  /\ _baseReserve (pool onePosition) = 9
  /\ surplus onePosition = 9.
Proof.
  assert (Hbal : Token.balanceOf (store onePosition 0%nat) POOL = 18).
  { rewrite onePosition_state. cbn [store].
    rewrite (addedStore_base_balance "LP1" 9 1 100
               (initial (tokensOf (usdc 18 {[ "LP1" := 18 ]}) (preX 0 ∅))
                        0%nat 1%nat None) POOL);
      try lra; [|change (9 * 2 <= default 0 (Some 18)); cbn; lra].
    change (Token.balanceOf _ POOL) with 0.
    repeat case_decide; try done; lra. }
  assert (Hres : _baseReserve (pool onePosition) = 9).
  { rewrite onePosition_state. cbn [pool].
    rewrite (proj2 (proj2 (proj2 (addedPool_frame _ _ _ _ _)))). cbn. lra. }
  split; [done|]. split; [done|].
  unfold surplus.
  replace (_baseToken (pool onePosition)) with 0%nat
    by (rewrite onePosition_state; reflexivity).
  lra.
Qed.

(** An owner named POOL pays the pool with the pool's own tokens. *)
Lemma self_dealing_lowers_the_surplus :
  exists positionId w',
    addLiquidity POOL 5 1 4 onePosition = (inr positionId, w')
    /\ surplus onePosition = 9
    /\ surplus w' = 4.
Proof.
  destruct onePosition_surplus as (Hbal & Hres & Hsur).
  assert (Hbase : _baseToken (pool onePosition) = 0%nat)
    by (rewrite onePosition_state; reflexivity).
  assert (Hpre : _preToken (pool onePosition) = 1%nat)
    by (rewrite onePosition_state; reflexivity).
  eexists _, _. split; [|split; [done|]].
  - apply addLiquidity_done; try lra.
    + rewrite onePosition_state. reflexivity.
    + rewrite Hbase. lra.
  - unfold surplus. cbn [store pool].
    destruct (addedPool_frame POOL 5 1 4 (pool onePosition))
      as (-> & _ & _ & ->).
    rewrite addedStore_base_balance by (rewrite ?Hbase; lra).
    rewrite Hbase, Hpre, Hbal, Hres.
    repeat case_decide; try done; lra.
Qed.

(** The world [shortPool]: the same position, the price at 25. *)
Lemma shortPool_state :
  shortPool
  = mkWorld
      (addedStore "LP1" 9 1 100
         (initial (tokensOf (usdc 18 {[ "LP1" := 18 ]})
                            (preX 100 {[ "Trader1" := 100 ]}))
                  0%nat 1%nat (Some 25)))
      (addedPool "LP1" 9 1 100 (constructor 0%nat 1%nat (Some 25))).
Proof.
  unfold shortPool, run. cbn [foldl].
  rewrite (step_addLiquidity "LP1")
    by (try reflexivity; try lra;
        change (9 * 2 <= default 0 (Some 18)); cbn; lra).
  reflexivity.
Qed.

Lemma shortPool_surplus :
  Token.balanceOf (store shortPool 0%nat) POOL = 18
  /\ Token.balanceOf (store shortPool 1%nat) "Trader1" = 100
  /\ _baseReserve (pool shortPool) = 9
  /\ surplus shortPool = 9.
Proof.
  assert (Hbal : Token.balanceOf (store shortPool 0%nat) POOL = 18).
  { rewrite shortPool_state. cbn [store].
    rewrite (addedStore_base_balance "LP1" 9 1 100
               (initial (tokensOf (usdc 18 {[ "LP1" := 18 ]})
                                  (preX 100 {[ "Trader1" := 100 ]}))
                        0%nat 1%nat (Some 25)) POOL);
      try lra; [|change (9 * 2 <= default 0 (Some 18)); cbn; lra].
    change (Token.balanceOf _ POOL) with 0.
    repeat case_decide; try done; lra. }
  assert (Hres : _baseReserve (pool shortPool) = 9).
  { rewrite shortPool_state. cbn [pool].
    rewrite (proj2 (proj2 (proj2 (addedPool_frame _ _ _ _ _)))). cbn. lra. }
  split; [done|]. split.
  { rewrite shortPool_state. cbn [store].
    rewrite addedStore_other by done. reflexivity. }
  split; [done|].
  unfold surplus.
  replace (_baseToken (pool shortPool)) with 0%nat
    by (rewrite shortPool_state; reflexivity).
  lra.
Qed.

Lemma shortPool_route :
  sellStart (pool shortPool) = Some 0%nat
  /\ sellRoute (pool shortPool) 0 100 = (108, 40, 1).
Proof.
  assert (Hprice : _currentSqrtPrice (pool shortPool) = 5).
  { rewrite shortPool_state. unfold addedPool, constructor. cbn.
    num_decide. apply sqrt_25_is. }
  assert (Hbook : descending (pool shortPool)
                  = [LPPosition.mk "LP-1" "LP1" 10 1 100 9 90]).
  { rewrite shortPool_state. unfold descending, addedPool, constructor.
    cbn -[pretty]. rewrite positionId_1. cbn.
    unfold liquidityFor, preTokenFor. sqrt_eval. repeat f_equal; lra. }
  unfold sellStart, sellRoute, getCurrentPrice. rewrite Hbook, Hprice. split.
  - unfold startIndex, containsPrice. cbn. num_decide. done.
  - rewrite (sqrt_is (5 * 5) 5) by lra.
    cbn. sqrt_eval. num_eval. repeat f_equal; lra.
Qed.

(** A payout that the ledger refuses: the sale moves the price from 25
    down to 1 and is owed 40 base tokens less the fee, the pool account
    holds 18, [transfer] returns [false], and [baseReserve] is lowered by
    40 all the same. *)
Lemma refused_payout_raises_the_surplus :
  exists w',
    swapPreTokenForBase "Trader1" 100 shortPool
    = (inr (40 - 40 * _feePercentage), w')
    /\ surplus shortPool = 9
    /\ surplus w' = 49.
Proof.
  destruct shortPool_surplus as (Hbal & Hfunds & Hres & Hsur).
  destruct shortPool_route as [Hstart Hroute].
  assert (Hbase : _baseToken (pool shortPool) = 0%nat)
    by (rewrite shortPool_state; reflexivity).
  assert (Hpre : _preToken (pool shortPool) = 1%nat)
    by (rewrite shortPool_state; reflexivity).
  eexists. split; [|split; [done|]].
  - rewrite swapPreTokenForBase_trading.
    + unfold sold. cbv zeta. rewrite Hstart, Hroute. reflexivity.
    + rewrite shortPool_state. reflexivity.
    + lra.
    + rewrite Hpre. lra.
  - unfold surplus.
    cbn [snd store pool _baseToken _baseReserve fst
           set_currentSqrtPrice set_reserves].
    rewrite Hbase, Hpre, Hres, tokenCall_same.
    num_decide.
    rewrite !(tokenCall_other 1%nat 0%nat) by done.
    rewrite transfer_refused
      by (right; rewrite Hbal; unfold _feePercentage; lra).
    cbn [snd]. rewrite Hbal. lra.
Qed.

(** One token object in both roles: the minted pre-tokens are base tokens
    of the pool account. *)
Lemma shared_ledger_adds_the_mint :
  exists positionId w',
    addLiquidity "LP1" 9 1 100 oneLedger = (inr positionId, w')
    /\ surplus oneLedger = 0
    /\ surplus w' = 99.
Proof.
  assert (Hfunds : Token.balanceOf (store oneLedger 0%nat) "LP1" = 18)
    by reflexivity.
  assert (Hbal : Token.balanceOf (store oneLedger 0%nat) POOL = 0)
    by reflexivity.
  eexists _, _. split; [|split].
  - apply addLiquidity_done; try reflexivity; try lra.
    change (9 * 2 <= Token.balanceOf (store oneLedger 0%nat) "LP1"). lra.
  - unfold surplus.
    change (Token.balanceOf (store oneLedger 0%nat) POOL - 0 = 0). lra.
  - unfold surplus. cbn [store pool].
    destruct (addedPool_frame "LP1" 9 1 100 (pool oneLedger))
      as (-> & _ & _ & ->).
    rewrite addedStore_base_balance
      by (try lra;
          change (9 * 2 <= Token.balanceOf (store oneLedger 0%nat) "LP1");
          lra).
    change (_baseToken (pool oneLedger)) with 0%nat.
    change (_preToken (pool oneLedger)) with 0%nat.
    change (_baseReserve (pool oneLedger)) with 0.
    rewrite Hbal. unfold preTokenFor. sqrt_eval.
    repeat case_decide; try done; lra.
Qed.

(** C8, counterexample.  Three successful calls after which the surplus
    is not what the claim says: an [addLiquidity] by the POOL account
    lowers it from 9 to 4; a [swapPreTokenForBase] whose payout the ledger
    refuses raises it by the whole output, 40, and not by the fee;
    an [addLiquidity] on a pool built with one token object in both roles
    raises it by 99 and not by the amount, 9. *)
Lemma C8_surplus_counterexample :
  (exists positionId w',
      addLiquidity POOL 5 1 4 onePosition = (inr positionId, w')
      /\ surplus w' < surplus onePosition)
  /\ (exists w',
         swapPreTokenForBase "Trader1" 100 shortPool
         = (inr (40 - 40 * _feePercentage), w')
         /\ surplus w' <> surplus shortPool + 40 * _feePercentage)
  /\ (exists positionId w',
         addLiquidity "LP1" 9 1 100 oneLedger = (inr positionId, w')
         /\ surplus w' <> surplus oneLedger + 9).
Proof.
  split; [|split].
  - destruct self_dealing_lowers_the_surplus as (i & w' & H & H0 & H1).
    exists i, w'. split; [done|]. lra.
  - destruct refused_payout_raises_the_surplus as (w' & H & H0 & H1).
    exists w'. split; [done|]. unfold _feePercentage. lra.
  - destruct shared_ledger_adds_the_mint as (i & w' & H & H0 & H1).
    exists i, w'. split; [done|]. lra.
Qed.

(** ** The book holds valid positions only *)

Lemma Map_set_Forall {A} (P : A -> Prop) (k : string) (v : A)
    (m : list (string * A)) :
  P v -> Forall P (Js.Map_values m) -> Forall P (Js.Map_values (Js.Map_set k v m)).
Proof.
  intros Hv. unfold Js.Map_values.
  induction m as [|[k' v'] m IH]; cbn; intros Hm.
  - constructor; done.
  - inversion Hm as [|? ? Hv' Hm']; subst.
    destruct (decide (k' = k)); cbn; constructor; auto.
Qed.

Lemma validBook_step (w : World) (op : Op) :
  validBook (pool w) -> validBook (pool (step w op)).
Proof.
  intros Hvalid.
  destruct (isAddLiquidity op && succeeded op w) eqn:Hop.
  - destruct op; try done. unfold succeeded, step in *.
    cbn [exec isAddLiquidity] in *. unfold returning in *. cbn [fst snd] in *.
    destruct (addLiquidity_cases owner baseAmount pa pb w)
      as [[e He]|(_ & Hpos & _ & Ha & Hab & Hok)].
    { rewrite He in Hop. done. }
    rewrite Hok. cbn [snd pool]. unfold validBook, addedPool.
    destruct (negb _ && _); cbn; apply Map_set_Forall; try done.
    all: repeat split; cbn; try done; apply liquidityFor_pos; done.
  - destruct (step_sameBook w op Hop) as (Hpos & _).
    unfold validBook. rewrite Hpos. done.
Qed.

Lemma validBook_run (tokens : TokenRef -> Token.Token)
    (baseToken preToken : TokenRef) (initialPrice : option R)
    (ops : list Op) :
  validBook (pool (run ops (initial tokens baseToken preToken initialPrice))).
Proof.
  assert (H0 : validBook
                 (pool (initial tokens baseToken preToken initialPrice)))
    by constructor.
  revert H0. generalize (initial tokens baseToken preToken initialPrice).
  induction ops as [|op ops IH]; intros w H; [done|].
  apply IH, validBook_step, H.
Qed.

(** * Further properties *)

(** ** The ledger *)

Lemma sum_comm (j1 j2 : string) (z1 z2 y : R) :
  z1 + (z2 + y) = z2 + (z1 + y).
Proof. lra. Qed.

Lemma sumOfBalances_withBalance (t : Token.Token) (a : string) (v : R) :
  sumOfBalances (Token.withBalance a v t)
  = sumOfBalances t - Token.balanceOf t a + v.
Proof.
  unfold sumOfBalances, Token.balanceOf, Token.withBalance. cbn.
  destruct (Token._balances t !! a) as [x|] eqn:E; cbn.
  - rewrite <- (insert_delete_eq (Token._balances t)).
    rewrite map_fold_insert_L
      by (try apply lookup_delete_eq; intros; apply sum_comm; done).
    rewrite (map_fold_delete_L _ _ a x (Token._balances t))
      by (try done; intros; apply sum_comm; done).
    lra.
  - rewrite map_fold_insert_L by (try done; intros; apply sum_comm; done).
    lra.
Qed.

Lemma withBalance_supply (t : Token.Token) (a : string) (v : R) :
  Token._totalSupply (Token.withBalance a v t) = Token._totalSupply t.
Proof. done. Qed.

Lemma transfer_totals
    (from to : string) (amount : R) (t : Token.Token) :
  Token._totalSupply (Token.transfer from to amount t).2
  = Token._totalSupply t
  /\ sumOfBalances (Token.transfer from to amount t).2 = sumOfBalances t
  /\ ((Token.transfer from to amount t).1 = true
      <-> 0 < amount <= Token.balanceOf t from).
Proof.
  unfold Token.transfer.
  destruct (Num.leb amount 0) eqn:E1; cbn.
  { apply leb_true in E1. repeat split; try done. intros [? _]. lra. }
  apply leb_false in E1.
  destruct (Num.ltb (Token.balanceOf t from) amount) eqn:E2; cbn.
  { apply ltb_true in E2. repeat split; try done. intros [_ ?]. lra. }
  apply ltb_false in E2.
  split; [done|]. split; [|split; [lra|done]].
  rewrite !sumOfBalances_withBalance. lra.
Qed.

(** X1.  A transfer, whether it goes through or is refused, changes
    neither the total supply nor the sum of the balances; it goes through
    exactly when the amount is positive and covered by the sender. *)
Theorem X1_transfer_conserves_supply
    (from to : string) (amount : R) (t : Token.Token) :
  Token._totalSupply (Token.transfer from to amount t).2
  = Token._totalSupply t
  /\ sumOfBalances (Token.transfer from to amount t).2 = sumOfBalances t
  /\ ((Token.transfer from to amount t).1 = true
      <-> 0 < amount <= Token.balanceOf t from).
Proof. apply transfer_totals. Qed.

(** X2.  In a token built by [new] and then used through any sequence of
    [mint], [burn] and [transfer] calls, the total supply is the sum of the
    balances and no balance is negative. *)
Theorem X2_supply_is_the_sum_of_balances
    (name symbol : string) (decimals : nat) (ops : list TokenOp) :
  let t := runTokenOps ops (Token.new name symbol decimals) in
  Token._totalSupply t = sumOfBalances t
  /\ forall account, 0 <= Token.balanceOf t account.
Proof.
  cbn zeta.
  assert (H0 : Token._totalSupply (Token.new name symbol decimals)
               = sumOfBalances (Token.new name symbol decimals)
               /\ forall account,
                    0 <= Token.balanceOf (Token.new name symbol decimals)
                                         account).
  { split; [reflexivity|]. intros account.
    unfold Token.balanceOf, Token.new. cbn. rewrite lookup_empty. cbn. lra. }
  revert H0. generalize (Token.new name symbol decimals).
  induction ops as [|op ops IH]; intros t [Hsum Hpos]; [done|].
  apply IH. clear IH. destruct op as [to amount|from amount|from to amount];
    cbn [applyTokenOp].
  - unfold Token.mint. destruct (Num.leb amount 0) eqn:E; [done|].
    apply leb_false in E. cbn. split.
    + change (Token._totalSupply t + amount
              = sumOfBalances
                  (Token.withBalance to (Token.balanceOf t to + amount) t)).
      rewrite sumOfBalances_withBalance. lra.
    + intros account.
      change (0 <= Token.balanceOf
                     (Token.withBalance to (Token.balanceOf t to + amount) t)
                     account).
      rewrite balanceOf_withBalance. specialize (Hpos to) as Hto.
      specialize (Hpos account). case_decide; lra.
  - unfold Token.burn. destruct (Num.leb amount 0) eqn:E1; [done|].
    destruct (Num.ltb (Token.balanceOf t from) amount) eqn:E2; [done|].
    apply leb_false in E1. apply ltb_false in E2. cbn. split.
    + change (Token._totalSupply t - amount
              = sumOfBalances
                  (Token.withBalance from (Token.balanceOf t from - amount)
                                     t)).
      rewrite sumOfBalances_withBalance. lra.
    + intros account.
      change (0 <= Token.balanceOf
                     (Token.withBalance from
                        (Token.balanceOf t from - amount) t)
                     account).
      rewrite balanceOf_withBalance. specialize (Hpos account).
      case_decide; lra.
  - destruct (transfer_totals from to amount t) as (Hs & Hb & _).
    split; [rewrite Hs, Hb; done|].
    intros account. unfold Token.transfer.
    destruct (Num.leb amount 0) eqn:E1; [apply Hpos|].
    destruct (Num.ltb (Token.balanceOf t from) amount) eqn:E2; [apply Hpos|].
    apply leb_false in E1. apply ltb_false in E2. cbn.
    rewrite !balanceOf_withBalance.
    specialize (Hpos to) as Hto. specialize (Hpos account).
    repeat case_decide; subst; lra.
Qed.

(** X3.  A transfer from an account to itself that passes the guard
    returns [true] and leaves the token exactly as it was: the credit
    reads the balance the debit has just written. *)
Theorem X3_transfer_to_self_changes_nothing
    (account : string) (amount : R) (t : Token.Token) :
  0 < amount -> amount <= Token.balanceOf t account ->
  Token.transfer account account amount t = (true, t).
Proof.
  intros Hpos Hle. rewrite transfer_done by done. f_equal.
  rewrite balanceOf_withBalance, decide_True by done.
  unfold Token.withBalance. cbn. rewrite insert_insert_eq.
  replace (Token.balanceOf t account - amount + amount)
    with (Token.balanceOf t account) by lra.
  unfold Token.balanceOf in *.
  destruct (Token._balances t !! account) as [x|] eqn:E; cbn in *; [|lra].
  rewrite insert_id by done. destruct t; done.
Qed.

Lemma X3_transfer_to_self_changes_nothing_witness :
  Token.transfer "LP1" "LP1" 5 (usdc 18 {[ "LP1" := 18 ]})
  = (true, usdc 18 {[ "LP1" := 18 ]}).
Proof.
  apply (X3_transfer_to_self_changes_nothing
           "LP1" 5 (usdc 18 {[ "LP1" := 18 ]})).
  - lra.
  - change (5 <= default 0 (Some 18)). cbn. lra.
Defined.

(** X4.  On an account whose balance is not negative, burning what was
    just minted succeeds and gives back every balance and the total
    supply. *)
Theorem X4_burn_undoes_mint (account : string) (amount : R) (t : Token.Token) :
  0 < amount -> 0 <= Token.balanceOf t account ->
  (Token.mint account amount t).1 = true
  /\ (Token.burn account amount (Token.mint account amount t).2).1 = true
  /\ Token._totalSupply
       (Token.burn account amount (Token.mint account amount t).2).2
     = Token._totalSupply t
  /\ forall a,
       Token.balanceOf
         (Token.burn account amount (Token.mint account amount t).2).2 a
       = Token.balanceOf t a.
Proof.
  intros Hpos Hnonneg. unfold Token.mint.
  rewrite (proj2 (leb_false _ _) Hpos). cbn [fst snd].
  split; [done|].
  set (t1 := Token.withTotalSupply _ _).
  assert (Hb : Token.balanceOf t1 account = Token.balanceOf t account + amount).
  { unfold t1.
    change (Token.balanceOf
              (Token.withBalance account
                 (Token.balanceOf t account + amount) t) account
            = Token.balanceOf t account + amount).
    rewrite balanceOf_withBalance, decide_True by done. done. }
  unfold Token.burn. cbv zeta. rewrite (proj2 (leb_false _ _) Hpos).
  rewrite (proj2 (ltb_false (Token.balanceOf t1 account) amount))
    by (rewrite Hb; lra).
  cbn [fst snd orb]. split; [done|]. split.
  - cbn. lra.
  - intros a.
    change (Token.balanceOf
              (Token.withBalance account (Token.balanceOf t1 account - amount)
                                 t1) a
            = Token.balanceOf t a).
    rewrite balanceOf_withBalance, Hb.
    case_decide as Ha; [subst; lra|].
    unfold t1.
    change (Token.balanceOf
              (Token.withBalance account
                 (Token.balanceOf t account + amount) t) a
            = Token.balanceOf t a).
    rewrite balanceOf_withBalance, decide_False by done. done.
Qed.

Lemma X4_burn_undoes_mint_witness :
  Token.balanceOf
    (Token.burn "LP1" 7 (Token.mint "LP1" 7 (Token.new "T" "T" 18)).2).2
    "LP1"
  = Token.balanceOf (Token.new "T" "T" 18) "LP1".
Proof.
  refine (proj2 (proj2 (proj2
    (X4_burn_undoes_mint "LP1" 7 (Token.new "T" "T" 18) _ _))) "LP1").
  - lra.
  - change (0 <= default 0 None). cbn. lra.
Defined.

(** X5.  A ledger call that returns [false] has changed nothing. *)
Theorem X5_refused_ledger_call_changes_nothing
    (op : TokenOp) (t : Token.Token) :
  (applyTokenOp op t).1 = false -> (applyTokenOp op t).2 = t.
Proof.
  destruct op as [to amount|from amount|from to amount]; cbn [applyTokenOp].
  - unfold Token.mint. destruct (Num.leb amount 0); done.
  - unfold Token.burn. destruct (_ || _); done.
  - unfold Token.transfer. destruct (_ || _); done.
Qed.

Lemma X5_refused_ledger_call_changes_nothing_witness :
  (applyTokenOp (TransferOp "LP1" "LP2" 20) (usdc 18 {[ "LP1" := 18 ]})).2
  = usdc 18 {[ "LP1" := 18 ]}.
Proof.
  apply (X5_refused_ledger_call_changes_nothing
           (TransferOp "LP1" "LP2" 20) (usdc 18 {[ "LP1" := 18 ]})).
  cbn [applyTokenOp]. rewrite transfer_refused; [reflexivity|].
  right. change (default 0 (Some 18) < 20). cbn. lra.
Defined.

(** ** The conversions *)

Lemma valid_calculateLiquidity (x pa pb : R) :
  0 < pa -> pa < pb ->
  PriceCalculator.calculateLiquidity x pa pb = inr (liquidityFor x pa pb).
Proof.
  intros Ha Hab. unfold PriceCalculator.calculateLiquidity.
  rewrite (proj2 (invalidRange_false pa pb)) by done. done.
Qed.

Lemma valid_calculatePreTokenAmount (x pa pb : R) :
  0 < pa -> pa < pb ->
  PriceCalculator.calculatePreTokenAmount x pa pb = inr (preTokenFor x pa pb).
Proof.
  intros Ha Hab. unfold PriceCalculator.calculatePreTokenAmount.
  rewrite (proj2 (invalidRange_false pa pb)) by done. done.
Qed.

Lemma valid_calculateBaseAmount (y pa pb : R) :
  0 < pa -> pa < pb ->
  PriceCalculator.calculateBaseAmount y pa pb
  = inr (y * (1 / sqrt pa - 1 / sqrt pb) / (sqrt pb - sqrt pa)).
Proof.
  intros Ha Hab. unfold PriceCalculator.calculateBaseAmount.
  rewrite (proj2 (invalidRange_false pa pb)) by done. done.
Qed.

Lemma preTokenFor_product (x pa pb : R) :
  0 < pa -> pa < pb -> preTokenFor x pa pb = x * (sqrt pa * sqrt pb).
Proof.
  intros Ha Hab. destruct (sqrt_range pa pb Ha Hab) as [H1 H2].
  unfold preTokenFor. field. repeat split; lra.
Qed.

(** X6.  On a valid range the two conversions are inverse to each other:
    the base amount of the pre-token amount of [x] is [x], and the other
    way round. *)
Theorem X6_conversions_are_inverse (x pa pb : R) :
  0 < pa -> pa < pb ->
  (forall y,
      PriceCalculator.calculatePreTokenAmount x pa pb = inr y ->
      PriceCalculator.calculateBaseAmount y pa pb = inr x)
  /\ (forall y,
         PriceCalculator.calculateBaseAmount x pa pb = inr y ->
         PriceCalculator.calculatePreTokenAmount y pa pb = inr x).
Proof.
  intros Ha Hab. destruct (sqrt_range pa pb Ha Hab) as [H1 H2].
  split; intros y Hy.
  - rewrite valid_calculatePreTokenAmount in Hy by done.
    injection Hy as <-. rewrite valid_calculateBaseAmount by done.
    f_equal. unfold preTokenFor. field. repeat split; lra.
  - rewrite valid_calculateBaseAmount in Hy by done.
    injection Hy as <-. rewrite valid_calculatePreTokenAmount by done.
    f_equal. unfold preTokenFor. field. repeat split; lra.
Qed.

Lemma X6_conversions_are_inverse_witness :
  PriceCalculator.calculateBaseAmount (preTokenFor 5000 1 5) 1 5 = inr 5000.
Proof.
  refine (proj1 (X6_conversions_are_inverse 5000 1 5 _ _) _ _).
  - lra.
  - lra.
  - apply valid_calculatePreTokenAmount; lra.
Defined.

(** X7.  On a valid range the liquidity has the closed form
    [x * sqrt pa * sqrt pb / (sqrt pb - sqrt pa)], it is positive for a
    positive amount, and the pre-token amount is the liquidity times the
    width [sqrt pb - sqrt pa] of the range. *)
Theorem X7_liquidity_closed_form (x pa pb : R) :
  0 < pa -> pa < pb ->
  exists liquidity,
    PriceCalculator.calculateLiquidity x pa pb = inr liquidity
    /\ liquidity = x * sqrt pa * sqrt pb / (sqrt pb - sqrt pa)
    /\ PriceCalculator.calculatePreTokenAmount x pa pb
       = inr (liquidity * (sqrt pb - sqrt pa))
    /\ (0 < x -> 0 < liquidity).
Proof.
  intros Ha Hab. destruct (sqrt_range pa pb Ha Hab) as [H1 H2].
  exists (liquidityFor x pa pb).
  split; [apply valid_calculateLiquidity; done|].
  split; [unfold liquidityFor; field; repeat split; lra|].
  split.
  - rewrite valid_calculatePreTokenAmount by done. f_equal.
    unfold preTokenFor, liquidityFor. field. repeat split; lra.
  - intros Hx. apply liquidityFor_pos; done.
Qed.

Lemma X7_liquidity_closed_form_witness :
  exists liquidity,
    PriceCalculator.calculateLiquidity 5000 1 5 = inr liquidity
    /\ liquidity = 5000 * sqrt 1 * sqrt 5 / (sqrt 5 - sqrt 1)
    /\ PriceCalculator.calculatePreTokenAmount 5000 1 5
       = inr (liquidity * (sqrt 5 - sqrt 1))
    /\ (0 < 5000 -> 0 < liquidity).
Proof. apply (X7_liquidity_closed_form 5000 1 5); lra. Defined.

(** X8.  On a valid range, with a positive base reserve [x] and a
    pre-token reserve between 0 and the amount minted for [x], the price
    derived from the reserves lies above [pa] and not above [pb]; at the
    minted amount itself it is exactly [pb]. *)
Theorem X8_price_from_reserves_is_in_range (x y pa pb : R) :
  0 < pa -> pa < pb -> 0 < x ->
  0 < y <= preTokenFor x pa pb ->
  (exists price,
      PriceCalculator.calculateCurrentPrice x y pa pb = inr price
      /\ pa < price <= pb)
  /\ PriceCalculator.calculateCurrentPrice x (preTokenFor x pa pb) pa pb
     = inr pb.
Proof.
  intros Ha Hab Hx [Hy Hle].
  destruct (sqrt_range pa pb Ha Hab) as [H1 H2].
  assert (HL := liquidityFor_pos x pa pb Hx Ha Hab).
  assert (Hpre : preTokenFor x pa pb
                 = liquidityFor x pa pb * (sqrt pb - sqrt pa)).
  { unfold preTokenFor, liquidityFor. field. repeat split; lra. }
  assert (Hcalc : forall y', 0 < y' ->
    PriceCalculator.calculateCurrentPrice x y' pa pb
    = inr ((y' / liquidityFor x pa pb + sqrt pa)
           * (y' / liquidityFor x pa pb + sqrt pa))).
  { intros y' Hy'. unfold PriceCalculator.calculateCurrentPrice.
    rewrite (proj2 (eqb_false y' 0)) by lra.
    rewrite (proj2 (eqb_false x 0)) by lra.
    rewrite valid_calculateLiquidity by done. done. }
  split.
  - eexists. split; [apply Hcalc; done|].
    set (q := y / liquidityFor x pa pb).
    assert (Hq : 0 < q) by (apply Rdiv_lt_0_compat; done).
    assert (Hq' : q <= sqrt pb - sqrt pa).
    { unfold q. apply (Rmult_le_reg_r (liquidityFor x pa pb)); [done|].
      replace (y / liquidityFor x pa pb * liquidityFor x pa pb) with y
        by (field; lra).
      lra. }
    assert (Hpa : sqrt pa * sqrt pa = pa) by (apply sqrt_sqrt; lra).
    assert (Hpb : sqrt pb * sqrt pb = pb) by (apply sqrt_sqrt; lra).
    split; nra.
  - rewrite Hcalc by (rewrite Hpre; apply Rmult_lt_0_compat; lra).
    f_equal. rewrite Hpre.
    replace (liquidityFor x pa pb * (sqrt pb - sqrt pa) / liquidityFor x pa pb
             + sqrt pa) with (sqrt pb) by (field; lra).
    apply sqrt_sqrt. lra.
Qed.

Lemma X8_price_from_reserves_is_in_range_witness :
  PriceCalculator.calculateCurrentPrice 5000 (preTokenFor 5000 1 5) 1 5
  = inr 5.
Proof.
  refine (proj2 (X8_price_from_reserves_is_in_range
                   5000 (preTokenFor 5000 1 5) 1 5 _ _ _ _)); try lra.
  split; [apply preTokenFor_pos; lra|lra].
Defined.

(** ** calculateSwapOutput *)

Lemma calculateSwapOutput_guarded (inputAmount inputReserve outputReserve : R) :
  0 < inputAmount -> 0 < inputReserve -> 0 < outputReserve ->
  Num.leb inputAmount 0 || Num.leb inputReserve 0 || Num.leb outputReserve 0
  = false.
Proof.
  intros H1 H2 H3.
  rewrite (proj2 (leb_false _ _) H1), (proj2 (leb_false _ _) H2),
    (proj2 (leb_false _ _) H3).
  done.
Qed.

(** X9.  On a valid range and with positive arguments, a base-to-pre-token
    quote is the pre-token amount of the enlarged base reserve less the
    pre-token reserve; when the pre-token reserve is the amount minted for
    the base reserve, the quote is [inputAmount * sqrt (pa * pb)], whatever
    the reserves: the curve quotes one constant price. *)
Theorem X9_base_quote_is_linear
    (inputAmount inputReserve outputReserve pa pb : R) :
  0 < pa -> pa < pb ->
  0 < inputAmount -> 0 < inputReserve -> 0 < outputReserve ->
  calculateSwapOutput inputAmount inputReserve outputReserve pa pb true
  = inr ((inputReserve + inputAmount) * sqrt (pa * pb) - outputReserve)
  /\ (outputReserve = preTokenFor inputReserve pa pb ->
      calculateSwapOutput inputAmount inputReserve outputReserve pa pb true
      = inr (inputAmount * sqrt (pa * pb))).
Proof.
  intros Ha Hab Hin Hres Hout.
  assert (Hq : calculateSwapOutput inputAmount inputReserve outputReserve
                 pa pb true
               = inr ((inputReserve + inputAmount) * sqrt (pa * pb)
                      - outputReserve)).
  { unfold calculateSwapOutput.
    rewrite calculateSwapOutput_guarded by done.
    rewrite valid_calculateLiquidity, valid_calculatePreTokenAmount by done.
    cbn. rewrite preTokenFor_product, sqrt_mult by lra. done. }
  split; [done|]. intros ->. rewrite Hq. f_equal.
  rewrite preTokenFor_product, sqrt_mult by lra. lra.
Qed.

Lemma X9_base_quote_is_linear_witness :
  calculateSwapOutput 2000 5000 (preTokenFor 5000 1 5) 1 5 true
  = inr (2000 * sqrt (1 * 5)).
Proof.
  refine (proj2 (X9_base_quote_is_linear
                   2000 5000 (preTokenFor 5000 1 5) 1 5 _ _ _ _ _) eq_refl);
    try lra.
  apply preTokenFor_pos; lra.
Defined.

(** X10.  On a valid range and with positive arguments, a
    pre-token-to-base quote fails with [InsufficientLiquidity] exactly when
    the input amount exceeds [outputReserve]; otherwise it is
    [inputReserve] less the base amount of what is left of
    [outputReserve], that is,
    [inputReserve - (outputReserve - inputAmount) / sqrt (pa * pb)]. *)
Theorem X10_pre_token_quote
    (inputAmount inputReserve outputReserve pa pb : R) :
  0 < pa -> pa < pb ->
  0 < inputAmount -> 0 < inputReserve -> 0 < outputReserve ->
  (calculateSwapOutput inputAmount inputReserve outputReserve pa pb false
   = inl InsufficientLiquidity
   <-> outputReserve < inputAmount)
  /\ (inputAmount <= outputReserve ->
      calculateSwapOutput inputAmount inputReserve outputReserve pa pb false
      = inr (inputReserve - (outputReserve - inputAmount) / sqrt (pa * pb))).
Proof.
  intros Ha Hab Hin Hres Hout.
  destruct (sqrt_range pa pb Ha Hab) as [H1 H2].
  unfold calculateSwapOutput.
  rewrite calculateSwapOutput_guarded by done.
  rewrite valid_calculateLiquidity, valid_calculateBaseAmount by done.
  cbn.
  destruct (Num.ltb (outputReserve - inputAmount) 0) eqn:E.
  - apply ltb_true in E. split; [split; [lra|done]|]. lra.
  - apply ltb_false in E. split; [split; [done|lra]|].
    intros _. f_equal. rewrite sqrt_mult by lra. field. repeat split; lra.
Qed.

Lemma X10_pre_token_quote_witness :
  calculateSwapOutput 3 1 4 1 4 false = inr (1 - (4 - 3) / sqrt (1 * 4)).
Proof.
  refine (proj2 (X10_pre_token_quote 3 1 4 1 4 _ _ _ _ _) _); lra.
Defined.

(** X11.  The input guard comes first: a quote with a non-positive
    amount or reserve fails with [InvalidInput] in either direction and
    whatever the range; with positive arguments an invalid range fails
    with the [InvalidRange] of [calculateLiquidity]. *)
Theorem X11_quote_guards
    (inputAmount inputReserve outputReserve pa pb : R) (direction : bool) :
  (inputAmount <= 0 \/ inputReserve <= 0 \/ outputReserve <= 0 ->
   calculateSwapOutput inputAmount inputReserve outputReserve pa pb direction
   = inl InvalidInput)
  /\ (0 < inputAmount -> 0 < inputReserve -> 0 < outputReserve ->
      pa <= 0 \/ pb <= 0 \/ pa >= pb ->
      calculateSwapOutput inputAmount inputReserve outputReserve pa pb
        direction
      = inl (Raised InvalidRange)).
Proof.
  unfold calculateSwapOutput. split.
  - intros H.
    assert (Hg : Num.leb inputAmount 0 || Num.leb inputReserve 0
                 || Num.leb outputReserve 0 = true).
    { rewrite !orb_true_iff, !leb_true. tauto. }
    rewrite Hg. done.
  - intros H1 H2 H3 Hrange.
    rewrite calculateSwapOutput_guarded by done.
    destruct (conversions_reject_invalid_range inputReserve pa pb Hrange)
      as [-> _].
    done.
Qed.

(** ** One call at a time *)

Lemma bought_pool (trader : string) (baseAmount : R) (w : World) (i : nat) :
  buyStart (pool w) = Some i ->
  pool (bought trader baseAmount w).2 = boughtPool (pool w) i baseAmount.
Proof. intros H. unfold bought. rewrite H. done. Qed.

Lemma sold_pool (trader : string) (preTokenAmount : R) (w : World) (i : nat) :
  sellStart (pool w) = Some i ->
  pool (sold trader preTokenAmount w).2 = soldPool (pool w) i preTokenAmount.
Proof. intros H. unfold sold. rewrite H. done. Qed.

Lemma bought_pool_idle (trader : string) (baseAmount : R) (w : World) :
  buyStart (pool w) = None -> pool (bought trader baseAmount w).2 = pool w.
Proof. intros H. unfold bought. rewrite H. done. Qed.

Lemma sold_pool_idle (trader : string) (preTokenAmount : R) (w : World) :
  sellStart (pool w) = None -> pool (sold trader preTokenAmount w).2 = pool w.
Proof. intros H. unfold sold. rewrite H. done. Qed.

(** Every call changes the pool in one of the five ways of [poolStep]. *)
Lemma step_poolStep (w : World) (op : Op) :
  poolStep (pool w) (pool (step w op)).
Proof.
  destruct op; unfold step; cbn [exec]; unfold returning; cbn [snd].
  - destruct (addLiquidity_cases owner baseAmount pa pb w)
      as [[e He]|(Hphase & Hpos & _ & Ha & Hab & Hok)].
    + rewrite He. constructor.
    + rewrite Hok. apply poolStep_added; done.
  - destruct (swapBaseForPreToken_cases trader baseAmount w)
      as [(e & _ & He)|(Hphase & Hpos & _ & Hok)].
    + rewrite He. constructor.
    + rewrite Hok. destruct (buyStart (pool w)) as [i|] eqn:E.
      * rewrite (bought_pool _ _ _ i) by done. apply poolStep_bought; done.
      * rewrite bought_pool_idle by done. constructor.
  - destruct (swapPreTokenForBase_cases trader preTokenAmount w)
      as [(e & _ & He)|(Hphase & Hpos & _ & Hok)].
    + rewrite He. constructor.
    + rewrite Hok. destruct (sellStart (pool w)) as [i|] eqn:E.
      * rewrite (sold_pool _ _ _ i) by done. apply poolStep_sold; done.
      * rewrite sold_pool_idle by done. constructor.
  - destruct (_isSettlementPhase (pool w)) eqn:Hphase.
    + rewrite enterSettlementPhase_settled by done. constructor.
    + rewrite enterSettlementPhase_trading by done.
      apply poolStep_settled. done.
  - rewrite call_pool. constructor.
  - rewrite call_pool. constructor.
  - rewrite call_pool. constructor.
Qed.

(** ** The sorted views *)

Lemma sort_insert_Permutation {A} (cmp : A -> A -> R) (x : A) (l : list A) :
  Js.sort_insert cmp x l ≡ₚ x :: l.
Proof.
  induction l as [|y l IH]; cbn; [done|].
  destruct (Num.ltb 0 (cmp x y)); [|done].
  rewrite IH. apply Permutation_swap.
Qed.

Lemma Array_sort_Permutation {A} (cmp : A -> A -> R) (l : list A) :
  Js.Array_sort cmp l ≡ₚ l.
Proof.
  unfold Js.Array_sort. induction l as [|x l IH]; cbn; [done|].
  rewrite sort_insert_Permutation, IH. done.
Qed.

Lemma findIndex_Some {A} (f : A -> bool) (l : list A) (i : nat) :
  Js.findIndex f l = Some i ->
  exists x rest, drop i l = x :: rest /\ f x = true.
Proof.
  revert i. induction l as [|y l IH]; intros i; cbn; [done|].
  destruct (f y) eqn:E.
  - intros [= <-]. eauto.
  - destruct (Js.findIndex f l) as [j|]; cbn; [|done].
    intros [= <-]. apply IH. done.
Qed.

Lemma ascending_valid (p : LiquidityPool.t) (i : nat) :
  validBook p -> Forall validPosition (drop i (ascending p)).
Proof.
  intros H. apply Forall_drop. unfold ascending.
  rewrite Array_sort_Permutation. done.
Qed.

Lemma descending_valid (p : LiquidityPool.t) (i : nat) :
  validBook p -> Forall validPosition (drop i (descending p)).
Proof.
  intros H. apply Forall_drop. unfold descending.
  rewrite Array_sort_Permutation. done.
Qed.



(** The position a buy starts at ends at or above the current price. *)
Lemma buyStart_first (p : LiquidityPool.t) (i : nat) :
  validBook p -> buyStart p = Some i ->
  exists pos rest,
    drop i (ascending p) = pos :: rest
    /\ getCurrentPrice p <= LPPosition.upperPriceBound pos.
Proof.
  intros Hvalid Hstart. unfold buyStart, startIndex in Hstart.
  destruct (Js.findIndex (containsPrice _) _) as [j|] eqn:E.
  - injection Hstart as ->.
    destruct (findIndex_Some _ _ _ E) as (pos & rest & Hd & Hf).
    exists pos, rest. split; [done|].
    unfold containsPrice in Hf. apply andb_true_iff in Hf as [_ Hf].
    apply leb_true in Hf. done.
  - destruct (findIndex_Some _ _ _ Hstart) as (pos & rest & Hd & Hf).
    exists pos, rest. split; [done|].
    apply ltb_true in Hf.
    assert (Hv : validPosition pos).
    { pose proof (ascending_valid p i Hvalid) as HF. rewrite Hd in HF.
      inversion HF. done. }
    destruct Hv as (_ & Hlt & _). lra.
Qed.

(** The position a sale starts at begins at or below the current price,
    which is therefore positive. *)
Lemma sellStart_first (p : LiquidityPool.t) (i : nat) :
  validBook p -> sellStart p = Some i ->
  exists pos rest,
    drop i (descending p) = pos :: rest
    /\ LPPosition.lowerPriceBound pos <= getCurrentPrice p
    /\ 0 < getCurrentPrice p.
Proof.
  intros Hvalid Hstart. unfold sellStart, startIndex in Hstart.
  assert (Hv : forall pos rest,
             drop i (descending p) = pos :: rest -> validPosition pos).
  { intros pos rest Hd.
    pose proof (descending_valid p i Hvalid) as HF. rewrite Hd in HF.
    inversion HF. done. }
  destruct (Js.findIndex (containsPrice _) _) as [j|] eqn:E.
  - injection Hstart as ->.
    destruct (findIndex_Some _ _ _ E) as (pos & rest & Hd & Hf).
    exists pos, rest. split; [done|].
    unfold containsPrice in Hf. apply andb_true_iff in Hf as [Hf _].
    apply leb_true in Hf. destruct (Hv _ _ Hd) as (H0 & _). lra.
  - destruct (findIndex_Some _ _ _ Hstart) as (pos & rest & Hd & Hf).
    exists pos, rest. split; [done|].
    apply ltb_true in Hf. destruct (Hv _ _ Hd) as (H0 & Hlt & _). lra.
Qed.

(** ** One iteration of the routing loops *)

Lemma validPosition_sqrt (pos : LPPosition.t) :
  validPosition pos ->
  0 < sqrt (LPPosition.lowerPriceBound pos)
    < sqrt (LPPosition.upperPriceBound pos)
  /\ 0 < LPPosition.liquidity pos.
Proof.
  intros (Ha & Hab & HL). split; [apply sqrt_range; done|done].
Qed.

Lemma buy_iteration (pos : LPPosition.t) (remaining s : R) :
  validPosition pos -> 0 < remaining ->
  let liquidity := LPPosition.liquidity pos in
  let lower := sqrt (LPPosition.lowerPriceBound pos) in
  let upper := sqrt (LPPosition.upperPriceBound pos) in
  let s' := if Num.ltb s lower then lower else s in
  let effective := Rmin (s' + remaining / liquidity) upper in
  lower <= s' /\ s <= s' /\ 0 < s'
  /\ lower <= effective <= upper
  /\ liquidity * (effective - s') <= remaining
  /\ (s <= upper -> s' <= effective)
  /\ (Num.ltb effective upper = false -> effective = upper).
Proof.
  intros Hv Hrem liquidity lower upper s' effective.
  destruct (validPosition_sqrt pos Hv) as [[Hlo Hup] HL].
  fold lower upper liquidity in Hlo, Hup, HL.
  assert (Hq : 0 < remaining / liquidity) by (apply Rdiv_lt_0_compat; done).
  assert (Hs' : lower <= s' /\ s <= s').
  { unfold s'. destruct (Num.ltb s lower) eqn:E.
    - apply ltb_true in E. lra.
    - apply ltb_false in E. lra. }
  assert (He : effective <= s' + remaining / liquidity /\ effective <= upper)
    by (unfold effective; split; [apply Rmin_l|apply Rmin_r]).
  assert (He' : effective = s' + remaining / liquidity \/ effective = upper).
  { unfold effective, Rmin. destruct (Rle_dec _ _); auto. }
  split; [lra|]. split; [lra|]. split; [lra|].
  split; [destruct He'; lra|]. split.
  - apply (Rmult_le_reg_r (/ liquidity)); [apply Rinv_0_lt_compat; done|].
    replace (liquidity * (effective - s') * / liquidity)
      with (effective - s') by (field; lra).
    unfold Rdiv in *. lra.
  - split.
    + intros Hsu.
      assert (s' <= upper).
      { unfold s'. destruct (Num.ltb s lower); lra. }
      destruct He'; lra.
    + intros E. apply ltb_false in E. lra.
Qed.

Lemma sell_iteration (pos : LPPosition.t) (remaining s : R) :
  validPosition pos -> 0 < remaining -> 0 < s ->
  let liquidity := LPPosition.liquidity pos in
  let lower := sqrt (LPPosition.lowerPriceBound pos) in
  let upper := sqrt (LPPosition.upperPriceBound pos) in
  let s' := if Num.ltb upper s then upper else s in
  let divisor := remaining / liquidity + 1 / s' in
  let minNew := if Num.ltb 0 divisor then 1 / divisor else 0 in
  let effective := Rmax minNew lower in
  0 < s' /\ s' <= s /\ s' <= upper
  /\ lower <= effective <= upper /\ 0 < effective
  /\ (lower <= s ->
      effective <= s'
      /\ liquidity * (1 / s' - 1 / effective) <= 0
      /\ 0 <= liquidity * (s' - effective))
  /\ (Num.ltb lower effective = false -> effective = lower).
Proof.
  intros Hv Hrem Hs liquidity lower upper s' divisor minNew effective.
  destruct (validPosition_sqrt pos Hv) as [[Hlo Hup] HL].
  fold lower upper liquidity in Hlo, Hup, HL.
  assert (Hq : 0 < remaining / liquidity) by (apply Rdiv_lt_0_compat; done).
  assert (Hs' : 0 < s' /\ s' <= s /\ s' <= upper).
  { unfold s'. destruct (Num.ltb upper s) eqn:E.
    - apply ltb_true in E. lra.
    - apply ltb_false in E. lra. }
  destruct Hs' as (Hs'0 & Hs's & Hs'u).
  assert (Hinv : 0 < 1 / s') by (apply Rdiv_lt_0_compat; lra).
  assert (Hd : 0 < divisor) by (unfold divisor; lra).
  assert (Hm : minNew = 1 / divisor).
  { unfold minNew. rewrite (proj2 (ltb_true _ _) Hd). done. }
  assert (Hm0 : 0 < minNew) by (rewrite Hm; apply Rdiv_lt_0_compat; lra).
  assert (Hms : minNew < s').
  { rewrite Hm. apply (Rmult_lt_reg_r divisor); [done|].
    replace (1 / divisor * divisor) with 1 by (field; lra).
    unfold divisor.
    replace (s' * (remaining / liquidity + 1 / s'))
      with (s' * (remaining / liquidity) + 1) by (field; lra).
    assert (0 < s' * (remaining / liquidity))
      by (apply Rmult_lt_0_compat; done).
    lra. }
  assert (He : effective = minNew \/ effective = lower).
  { unfold effective, Rmax. destruct (Rle_dec _ _); auto. }
  assert (He1 : minNew <= effective /\ lower <= effective)
    by (unfold effective; split; [apply Rmax_l|apply Rmax_r]).
  split; [done|]. split; [done|]. split; [done|].
  split; [destruct He; lra|]. split; [lra|]. split.
  - intros Hls.
    assert (Hls' : lower <= s').
    { unfold s'. destruct (Num.ltb upper s); lra. }
    assert (Hes : effective <= s') by (destruct He; lra).
    split; [done|].
    assert (Hinv' : 1 / s' <= 1 / effective).
    { unfold Rdiv. rewrite !Rmult_1_l.
      apply Rinv_le_contravar; lra. }
    split.
    + assert (0 <= liquidity * (1 / effective - 1 / s'))
        by (apply Rmult_le_pos; lra).
      lra.
    + apply Rmult_le_pos; lra.
  - intros E. apply ltb_false in E. lra.
Qed.

(** ** The routing loops over a valid book *)

Lemma routeBase_idle (l : list LPPosition.t) (remaining total s : R) :
  remaining <= 0 -> routeBase l remaining total s = (remaining, total, s).
Proof.
  intros H. destruct l; cbn; [done|].
  rewrite (proj2 (ltb_false _ _) H). done.
Qed.


(** A buy ends inside the range of a position it has visited, and never
    with a negative rest of its input. *)
Lemma routeBase_lands (l : list LPPosition.t) (remaining total s : R) :
  Forall validPosition l -> 0 < remaining -> l <> [] ->
  (exists pos,
      pos ∈ l
      /\ sqrt (LPPosition.lowerPriceBound pos)
         <= (routeBase l remaining total s).2
         <= sqrt (LPPosition.upperPriceBound pos))
  /\ 0 <= (routeBase l remaining total s).1.1.
Proof.
  revert remaining total s.
  induction l as [|pos rest IH]; intros remaining total s Hvalid Hrem Hne;
    [done|].
  inversion Hvalid as [|? ? Hv Hrest]; subst.
  pose proof (buy_iteration pos remaining s Hv Hrem) as H. cbv zeta in H.
  cbn [routeBase]. rewrite (proj2 (ltb_true _ _) Hrem).
  set (s' := if Num.ltb s _ then _ else s) in *.
  set (effective := Rmin _ _) in *.
  destruct H as (_ & _ & _ & Hin & Hused & _ & Hfull).
  destruct (Num.ltb effective _) eqn:E.
  - cbn. split; [|lra]. exists pos. split; [left|done].
  - set (remaining' := remaining - _).
    set (total' := total + _).
    destruct (Rle_dec remaining' 0) as [H0|H0].
    + rewrite routeBase_idle by done. cbn. split; [|unfold remaining'; lra].
      exists pos. split; [left|done].
    + destruct rest as [|pos' rest'].
      * cbn. split; [|unfold remaining'; lra].
        exists pos. split; [left|done].
      * destruct (IH remaining' total' effective Hrest) as [(q & Hq & Hr) H1];
          [lra|done|].
        split; [|done]. exists q. split; [right; done|done].
Qed.


Lemma routeBase_price_nonneg (l : list LPPosition.t) (remaining total s : R) :
  Forall validPosition l -> 0 <= s -> 0 <= (routeBase l remaining total s).2.
Proof.
  revert remaining total s.
  induction l as [|pos rest IH]; intros remaining total s Hvalid Hs; [done|].
  inversion Hvalid as [|? ? Hv Hrest]; subst.
  cbn [routeBase]. destruct (Num.ltb 0 remaining) eqn:Hrem; [|done].
  apply ltb_true in Hrem.
  pose proof (buy_iteration pos remaining s Hv Hrem) as H. cbv zeta in H.
  destruct (validPosition_sqrt pos Hv) as [[Hlo _] _].
  set (s' := if Num.ltb s _ then _ else s) in *.
  set (effective := Rmin _ _) in *.
  destruct H as (_ & _ & _ & Hin & _).
  destruct (Num.ltb effective _); [cbn; lra|].
  apply IH; [done|lra].
Qed.

Lemma routePre_price_nonneg (l : list LPPosition.t) (remaining total s : R) :
  Forall validPosition l -> 0 <= s -> 0 <= (routePre l remaining total s).2.
Proof.
  revert remaining total s.
  induction l as [|pos rest IH]; intros remaining total s Hvalid Hs; [done|].
  inversion Hvalid as [|? ? Hv Hrest]; subst.
  cbn [routePre]. destruct (Num.ltb 0 remaining) eqn:Hrem; [|done].
  destruct (validPosition_sqrt pos Hv) as [[Hlo _] _].
  set (effective := Rmax _ _).
  assert (He : sqrt (LPPosition.lowerPriceBound pos) <= effective)
    by apply Rmax_r.
  destruct (Num.ltb _ effective); [cbn; lra|].
  apply IH; [done|lra].
Qed.

(** ** Routes on which the price moves one way *)

Lemma routeBase_ascending (l : list LPPosition.t) (remaining total s : R) :
  Forall validPosition l -> upperBoundsAscend l ->
  (forall pos rest, l = pos :: rest ->
                    s <= sqrt (LPPosition.upperPriceBound pos)) ->
  0 <= remaining ->
  s <= (routeBase l remaining total s).2
  /\ total <= (routeBase l remaining total s).1.2
  /\ (routeBase l remaining total s).1.1 <= remaining.
Proof.
  revert remaining total s.
  induction l as [|pos rest IH];
    intros remaining total s Hvalid Hasc Hhead Hrem0; [cbn; lra|].
  inversion Hvalid as [|? ? Hv Hrest]; subst.
  cbn [routeBase]. destruct (Num.ltb 0 remaining) eqn:Hrem; [|cbn; lra].
  apply ltb_true in Hrem.
  pose proof (buy_iteration pos remaining s Hv Hrem) as H. cbv zeta in H.
  specialize (Hhead pos rest eq_refl) as Hsu.
  set (s' := if Num.ltb s _ then _ else s) in *.
  set (effective := Rmin _ _) in *.
  destruct H as (_ & Hss' & Hs'0 & Hin & Hused & Hmono & Hfull).
  specialize (Hmono Hsu).
  assert (Hrecv : 0 <= LPPosition.liquidity pos * (1 / s' - 1 / effective)).
  { destruct (validPosition_sqrt pos Hv) as [_ HL].
    apply Rmult_le_pos; [lra|].
    assert (1 / effective <= 1 / s'); [|lra].
    unfold Rdiv. rewrite !Rmult_1_l. apply Rinv_le_contravar; lra. }
  assert (Hused0 : 0 <= LPPosition.liquidity pos * (effective - s')).
  { destruct (validPosition_sqrt pos Hv) as [_ HL].
    apply Rmult_le_pos; lra. }
  destruct (Num.ltb effective _) eqn:E; [cbn; lra|].
  specialize (Hfull eq_refl).
  edestruct (IH (remaining - LPPosition.liquidity pos * (effective - s'))
                (total + LPPosition.liquidity pos * (1 / s' - 1 / effective))
                effective Hrest) as (H1 & H2 & H3).
  - destruct rest as [|b rest']; [done|]. destruct Hasc as [_ Hasc]. done.
  - intros b rest' ->. destruct Hasc as [Hab _]. rewrite Hfull.
    destruct Hv as (? & ? & _). apply sqrt_le_1; [lra|lra|done].
  - lra.
  - lra.
Qed.

Lemma routePre_descending (l : list LPPosition.t) (remaining total s : R) :
  Forall validPosition l -> lowerBoundsDescend l ->
  (forall pos rest, l = pos :: rest ->
                    sqrt (LPPosition.lowerPriceBound pos) <= s) ->
  0 < s ->
  (routePre l remaining total s).2 <= s
  /\ total <= (routePre l remaining total s).1.2
  /\ remaining <= (routePre l remaining total s).1.1.
Proof.
  revert remaining total s.
  induction l as [|pos rest IH];
    intros remaining total s Hvalid Hdesc Hhead Hs; [cbn; lra|].
  inversion Hvalid as [|? ? Hv Hrest]; subst.
  cbn [routePre]. destruct (Num.ltb 0 remaining) eqn:Hrem; [|cbn; lra].
  apply ltb_true in Hrem.
  pose proof (sell_iteration pos remaining s Hv Hrem Hs) as H. cbv zeta in H.
  specialize (Hhead pos rest eq_refl) as Hls.
  set (s' := if Num.ltb _ s then _ else s) in *.
  set (divisor := remaining / _ + 1 / s') in *.
  set (minNew := if Num.ltb 0 divisor then _ else _) in *.
  set (effective := Rmax _ _) in *.
  destruct H as (Hs'0 & Hs's & _ & Hin & Hpos & Hmono & Hfull).
  destruct (Hmono Hls) as (Hes & Hused & Hrecv).
  destruct (Num.ltb _ effective) eqn:E; [cbn; lra|].
  specialize (Hfull eq_refl).
  edestruct (IH (remaining
                 - LPPosition.liquidity pos * (1 / s' - 1 / effective))
                (total + LPPosition.liquidity pos * (s' - effective))
                effective Hrest) as (H1 & H2 & H3).
  - destruct rest as [|b rest']; [done|]. destruct Hdesc as [_ Hdesc]. done.
  - intros b rest' ->. destruct Hdesc as [Hba _]. rewrite Hfull.
    inversion Hrest as [|? ? Hb _]. destruct Hb as (? & _).
    destruct Hv as (? & _). apply sqrt_le_1; [lra|lra|done].
  - done.
  - lra.
Qed.

(** ** What every reachable pool satisfies *)

Lemma idOf_inj (n m : nat) : idOf n = idOf m -> n = m.
Proof.
  unfold idOf. intros H. apply (inj pretty).
  cbn in H. injection H. done.
Qed.

Lemma Map_set_fresh {A} (k : string) (v : A) (m : list (string * A)) :
  k ∉ m.*1 -> Js.Map_set k v m = m ++ [(k, v)].
Proof.
  induction m as [|[k' v'] m IH]; cbn; intros Hk; [done|].
  rewrite decide_False by (intros ->; apply Hk; left).
  rewrite IH; [done|]. intros Hin. apply Hk. right. done.
Qed.

Lemma Map_get_set_same {A} (k : string) (v : A) (m : list (string * A)) :
  Map_get k (Js.Map_set k v m) = Some v.
Proof.
  induction m as [|[k' v'] m IH]; cbn.
  - rewrite decide_True by done. done.
  - destruct (decide (k' = k)) as [->|Hne]; cbn.
    + rewrite decide_True by done. done.
    + rewrite decide_False by done. done.
Qed.

Lemma Map_get_set_other {A} (k k' : string) (v : A) (m : list (string * A)) :
  k' <> k -> Map_get k' (Js.Map_set k v m) = Map_get k' m.
Proof.
  intros Hne. induction m as [|[k0 v0] m IH]; cbn.
  - rewrite decide_False by done. done.
  - destruct (decide (k0 = k)) as [->|Hne0]; cbn.
    + rewrite !decide_False by done. done.
    + destruct (decide (k0 = k')); done.
Qed.

Lemma Map_get_None {A} (k : string) (m : list (string * A)) :
  k ∉ m.*1 -> Map_get k m = None.
Proof.
  induction m as [|[k' v'] m IH]; cbn; intros Hk; [done|].
  rewrite decide_False by (intros ->; apply Hk; left).
  apply IH. intros Hin. apply Hk. right. done.
Qed.

(** The next id is not in use. *)
Lemma next_id_is_fresh (p : LiquidityPool.t) :
  poolInv p -> idOf (_nextPositionId p) ∉ (_lpPositions p).*1.
Proof.
  intros [_ _ Hids Hnext _]. unfold positionIds in Hids.
  rewrite Hids, Hnext. intros Hin.
  apply list_elem_of_fmap in Hin as (n & Heq & Hn).
  apply idOf_inj in Heq. subst n.
  apply elem_of_seq in Hn. lia.
Qed.

Lemma addedPool_positions (owner : string) (baseAmount pa pb : R)
    (p : LiquidityPool.t) :
  _lpPositions (addedPool owner baseAmount pa pb p)
  = Js.Map_set (idOf (_nextPositionId p))
      (LPPosition.mk (idOf (_nextPositionId p)) owner
         (liquidityFor baseAmount pa pb) pa pb baseAmount
         (preTokenFor baseAmount pa pb))
      (_lpPositions p)
  /\ _nextPositionId (addedPool owner baseAmount pa pb p)
     = S (_nextPositionId p)
  /\ _realToken (addedPool owner baseAmount pa pb p) = _realToken p.
Proof. unfold addedPool. destruct (negb _ && _); done. Qed.

Lemma poolInv_step (p p' : LiquidityPool.t) :
  poolStep p p' -> poolInv p -> poolInv p'.
Proof.
  intros Hstep Hinv. destruct Hstep as [|owner baseAmount pa pb Hphase Hx Ha Hab
    |i baseAmount Hphase Hx Hstart|i preTokenAmount Hphase Hx Hstart
    |realToken Hphase]; [done| | | |].
  - pose proof (next_id_is_fresh p Hinv) as Hfresh.
    destruct Hinv as [Hbook Hprice Hids Hnext Hset].
    destruct (addedPool_positions owner baseAmount pa pb p)
      as (Hpos & Hn & Hrt).
    destruct (addedPool_frame owner baseAmount pa pb p)
      as (_ & _ & Hph & _).
    split.
    + unfold validBook. rewrite Hpos. apply Map_set_Forall; [|done].
      repeat split; cbn; try done. apply liquidityFor_pos; done.
    + unfold addedPool. destruct (negb _ && _); cbn; [apply sqrt_pos|done].
    + unfold positionIds in *. rewrite Hpos, Map_set_fresh by done.
      rewrite fmap_app, length_app, Hids. cbn [length fmap list_fmap].
      rewrite Nat.add_1_r, seq_S, fmap_app. cbn.
      rewrite Hnext. done.
    + rewrite Hn, Hpos, Map_set_fresh by done.
      rewrite length_app. cbn. rewrite Hnext. lia.
    + rewrite Hph, Hrt. done.
  - destruct Hinv as [Hbook Hprice Hids Hnext Hset].
    split; try done. cbn.
    apply routeBase_price_nonneg; [|apply sqrt_pos].
    apply ascending_valid. done.
  - destruct Hinv as [Hbook Hprice Hids Hnext Hset].
    split; try done. cbn.
    apply routePre_price_nonneg; [|apply sqrt_pos].
    apply descending_valid. done.
  - destruct Hinv as [Hbook Hprice Hids Hnext Hset].
    split; done.
Qed.

Lemma poolInv_run (tokens : TokenRef -> Token.Token)
    (baseToken preToken : TokenRef) (initialPrice : option R)
    (ops : list Op) :
  poolInv (pool (run ops (initial tokens baseToken preToken initialPrice))).
Proof.
  assert (H0 : poolInv
                 (pool (initial tokens baseToken preToken initialPrice))).
  { split; try done.
    - constructor.
    - cbn. destruct initialPrice as [price|]; [|lra].
      destruct (Num.eqb price 0); [lra|apply sqrt_pos].
    - cbn. split; [done|]. intros [? [=]]. }
  revert H0. generalize (initial tokens baseToken preToken initialPrice).
  induction ops as [|op ops IH]; intros w H; [done|].
  apply IH. eapply poolInv_step; [apply step_poolStep|done].
Qed.

Lemma sqrt_of_price (p : LiquidityPool.t) :
  0 <= _currentSqrtPrice p -> sqrt (getCurrentPrice p) = _currentSqrtPrice p.
Proof. intros H. apply sqrt_square. done. Qed.

(** ** Calls that throw *)

(** X12.  A call that throws anything but [NoLiquidityAvailable] has
    changed neither the pool nor any token: [addLiquidity],
    [enterSettlementPhase] and the guards of both swaps throw before the
    first write. *)
Theorem X12_failed_call_changes_nothing
    (op : Op) (w w' : World) (e : Error) :
  exec op w = (inl e, w') -> e <> NoLiquidityAvailable -> w' = w.
Proof.
  intros Hexec Hne. destruct op; cbn [exec] in Hexec;
    unfold returning in Hexec.
  - destruct (addLiquidity_cases owner baseAmount pa pb w)
      as [[e' He]|(_ & _ & _ & _ & _ & Hok)].
    + rewrite He in Hexec. injection Hexec as _ <-. done.
    + rewrite Hok in Hexec. done.
  - destruct (swapBaseForPreToken_cases trader baseAmount w)
      as [(e' & _ & He)|(_ & _ & _ & Hok)].
    + rewrite He in Hexec. injection Hexec as _ <-. done.
    + rewrite Hok in Hexec. unfold bought in Hexec.
      destruct (buyStart (pool w)); cbn in Hexec; [done|].
      injection Hexec as <- _. done.
  - destruct (swapPreTokenForBase_cases trader preTokenAmount w)
      as [(e' & _ & He)|(_ & _ & _ & Hok)].
    + rewrite He in Hexec. injection Hexec as _ <-. done.
    + rewrite Hok in Hexec. unfold sold in Hexec.
      destruct (sellStart (pool w)); cbn in Hexec; [done|].
      injection Hexec as <- _. done.
  - destruct (_isSettlementPhase (pool w)) eqn:Hphase.
    + rewrite enterSettlementPhase_settled in Hexec by done.
      injection Hexec as _ <-. done.
    + rewrite enterSettlementPhase_trading in Hexec by done. done.
  - unfold call in Hexec. destruct (Token.mint _ _ _). done.
  - unfold call in Hexec. destruct (Token.burn _ _ _). done.
  - unfold call in Hexec. destruct (Token.transfer _ _ _ _). done.
Qed.

Lemma X12_failed_call_changes_nothing_witness :
  exec (AddLiquidity "LP1" 5000 1 5)
    (initial (tokensOf (usdc 9999 {[ "LP1" := 9999 ]}) (preX 0 ∅))
             0%nat 1%nat None)
  = (inl InsufficientBalance,
     initial (tokensOf (usdc 9999 {[ "LP1" := 9999 ]}) (preX 0 ∅))
             0%nat 1%nat None)
  /\ initial (tokensOf (usdc 9999 {[ "LP1" := 9999 ]}) (preX 0 ∅))
             0%nat 1%nat None
     = initial (tokensOf (usdc 9999 {[ "LP1" := 9999 ]}) (preX 0 ∅))
               0%nat 1%nat None.
Proof.
  assert (H : exec (AddLiquidity "LP1" 5000 1 5)
                (initial (tokensOf (usdc 9999 {[ "LP1" := 9999 ]}) (preX 0 ∅))
                         0%nat 1%nat None)
              = (inl InsufficientBalance,
                 initial (tokensOf (usdc 9999 {[ "LP1" := 9999 ]})
                                   (preX 0 ∅))
                         0%nat 1%nat None)).
  { cbn [exec]. unfold returning. rewrite short_owner_is_refused.
    reflexivity. }
  split; [exact H|].
  apply (X12_failed_call_changes_nothing _ _ _ _ H). discriminate.
Defined.

(** ** The position map *)

(** X13.  In a pool reached from the constructor, the id a successful
    [addLiquidity] returns was not in use; afterwards [getLPPosition]
    returns under that id the position with the owner, the range, the
    liquidity, the collateral [baseAmount] and the minted pre-token
    amount, every other id answers as before, and the position is the last
    of [getAllLPPositions]. *)
Theorem X13_position_is_recorded
    (tokens : TokenRef -> Token.Token) (baseToken preToken : TokenRef)
    (initialPrice : option R) (ops : list Op)
    (owner : string) (baseAmount pa pb : R)
    (positionId : string) (w' : World) :
  let w := run ops (initial tokens baseToken preToken initialPrice) in
  let position :=
    LPPosition.mk positionId owner (liquidityFor baseAmount pa pb) pa pb
                  baseAmount (preTokenFor baseAmount pa pb) in
  addLiquidity owner baseAmount pa pb w = (inr positionId, w') ->
  getLPPosition positionId (pool w) = None
  /\ getLPPosition positionId (pool w') = Some position
  /\ (forall other, other <> positionId ->
                    getLPPosition other (pool w')
                    = getLPPosition other (pool w))
  /\ getAllLPPositions (pool w') = getAllLPPositions (pool w) ++ [position].
Proof.
  intros w position Hdone.
  assert (Hinv : poolInv (pool w)) by apply poolInv_run.
  pose proof (next_id_is_fresh (pool w) Hinv) as Hfresh.
  destruct (addLiquidity_cases owner baseAmount pa pb w)
    as [[e He]|(_ & _ & _ & _ & _ & Hok)]; [congruence|].
  rewrite Hok in Hdone. injection Hdone as <- <-. cbn [pool].
  destruct (addedPool_positions owner baseAmount pa pb (pool w))
    as (Hpos & _).
  unfold getLPPosition, getAllLPPositions, Js.Map_values. rewrite Hpos.
  split; [apply Map_get_None; done|].
  split; [apply Map_get_set_same|].
  split; [intros other Hne; apply Map_get_set_other; done|].
  rewrite Map_set_fresh by done. rewrite fmap_app. done.
Qed.

Lemma X13_position_is_recorded_witness :
  getLPPosition "LP-1"
    (addedPool "LP1" 5000 1 5 (constructor 0%nat 1%nat None))
  = Some (LPPosition.mk "LP-1" "LP1" (liquidityFor 5000 1 5) 1 5 5000
                        (preTokenFor 5000 1 5)).
Proof.
  refine (proj1 (proj2
    (X13_position_is_recorded
       (tokensOf (usdc 10000 {[ "LP1" := 10000 ]}) (preX 0 ∅))
       0%nat 1%nat None [] "LP1" 5000 1 5 "LP-1"
       (mkWorld _ _) _))).
  cbn [run foldl]. rewrite addLiquidity_done; try reflexivity; try lra.
  change (5000 * 2 <= default 0 (Some 10000)). cbn. lra.
Defined.

(** X14.  In a pool reached from the constructor the ids of the positions
    are LP-1, LP-2, ... in the order of their creation, without gaps or
    repetitions, and the counter is one more than their number; so the
    next successful [addLiquidity] returns the id that follows. *)
Theorem X14_ids_count_the_positions
    (tokens : TokenRef -> Token.Token) (baseToken preToken : TokenRef)
    (initialPrice : option R) (ops : list Op) :
  let p := pool (run ops (initial tokens baseToken preToken initialPrice)) in
  positionIds p = idOf <$> seq 1 (length (getAllLPPositions p))
  /\ NoDup (positionIds p)
  /\ _nextPositionId p = S (length (getAllLPPositions p))
  /\ forall owner baseAmount pa pb positionId w',
       addLiquidity owner baseAmount pa pb
         (run ops (initial tokens baseToken preToken initialPrice))
       = (inr positionId, w') ->
       positionId = idOf (S (length (getAllLPPositions p))).
Proof.
  intros p.
  destruct (poolInv_run tokens baseToken preToken initialPrice ops)
    as [_ _ Hids Hnext _].
  fold p in Hids, Hnext.
  assert (Hlen : length (getAllLPPositions p) = length (_lpPositions p))
    by (unfold getAllLPPositions, Js.Map_values; apply length_fmap).
  rewrite Hlen. split; [done|]. split; [|split; [done|]].
  - rewrite Hids. apply NoDup_fmap_2; [|apply NoDup_seq].
    intros n m. apply idOf_inj.
  - intros owner baseAmount pa pb positionId w' Hdone.
    destruct (addLiquidity_cases owner baseAmount pa pb
                (run ops (initial tokens baseToken preToken initialPrice)))
      as [[e He]|(_ & _ & _ & _ & _ & Hok)]; [congruence|].
    rewrite Hok in Hdone. injection Hdone as <- _.
    fold p. rewrite Hnext. done.
Qed.

(** ** Where a swap leaves the price *)



(** The sale on [shortPool] as a call that returns. *)
Lemma shortPool_sale :
  swapPreTokenForBase "Trader1" 100 shortPool
  = (inr (40 - 40 * _feePercentage), (sold "Trader1" 100 shortPool).2).
Proof.
  destruct shortPool_surplus as (_ & Hfunds & _).
  destruct shortPool_route as [Hstart Hroute].
  rewrite swapPreTokenForBase_trading.
  - unfold sold. cbv zeta. rewrite Hstart, Hroute. reflexivity.
  - rewrite shortPool_state. reflexivity.
  - lra.
  - replace (_preToken (pool shortPool)) with 1%nat
      by (rewrite shortPool_state; reflexivity).
    lra.
Qed.


(** The world [buyingPool] and a purchase of 10 base tokens in it. *)
Lemma buyingPool_state :
  pool buyingPool = addedPool "LP1" 9 1 100 (constructor 0%nat 1%nat None)
  /\ Token.balanceOf (store buyingPool 0%nat) "Trader1" = 2000.
Proof.
  unfold buyingPool, run. cbn [foldl].
  rewrite (step_addLiquidity "LP1")
    by (try reflexivity; try lra;
        change (9 * 2 <= default 0 (Some 18)); cbn; lra).
  split; [reflexivity|]. cbn [store].
  rewrite addedStore_other by done. reflexivity.
Qed.

Lemma buyingPool_route :
  _currentSqrtPrice (pool buyingPool) = 1
  /\ ascending (pool buyingPool)
     = [LPPosition.mk "LP-1" "LP1" 10 1 100 9 90]
  /\ buyStart (pool buyingPool) = Some 0%nat.
Proof.
  assert (Hprice : _currentSqrtPrice (pool buyingPool) = 1).
  { rewrite (proj1 buyingPool_state). unfold addedPool, constructor. cbn.
    apply sqrt_1_is. }
  assert (Hbook : ascending (pool buyingPool)
                  = [LPPosition.mk "LP-1" "LP1" 10 1 100 9 90]).
  { rewrite (proj1 buyingPool_state). unfold ascending, addedPool, constructor.
    cbn -[pretty]. rewrite positionId_1. cbn.
    unfold liquidityFor, preTokenFor. sqrt_eval. repeat f_equal; lra. }
  split; [done|]. split; [done|].
  unfold buyStart, getCurrentPrice. rewrite Hbook, Hprice.
  unfold startIndex, containsPrice. cbn. num_decide. done.
Qed.

Lemma buyingPool_purchase :
  swapBaseForPreToken "Trader1" 10 buyingPool
  = (inr (buyRoute (pool buyingPool) 0 (10 - 10 * _feePercentage)).1.2,
     (bought "Trader1" 10 buyingPool).2).
Proof.
  destruct buyingPool_state as [Hpool Hfunds].
  destruct buyingPool_route as (_ & _ & Hstart).
  rewrite swapBaseForPreToken_trading.
  - unfold bought. cbv zeta. rewrite Hstart. reflexivity.
  - rewrite Hpool. reflexivity.
  - lra.
  - replace (_baseToken (pool buyingPool)) with 0%nat
      by (rewrite Hpool; reflexivity).
    lra.
Qed.

(** ** What a buy does to the reserves *)

(** A buy that returns, taken apart. *)
Lemma bought_returns (trader : string) (amount out : R) (w w' : World) :
  swapBaseForPreToken trader amount w = (inr out, w') ->
  0 < amount
  /\ exists i,
       buyStart (pool w) = Some i
       /\ out = (buyRoute (pool w) i (amount - amount * _feePercentage)).1.2
       /\ pool w' = boughtPool (pool w) i amount.
Proof.
  intros Hdone.
  destruct (swapBaseForPreToken_cases trader amount w)
    as [(e & _ & He)|(_ & Hpos & _ & Hok)]; [congruence|].
  split; [done|]. rewrite Hok in Hdone.
  destruct (buyStart (pool w)) as [i|] eqn:Hstart;
    [|unfold bought in Hdone; rewrite Hstart in Hdone; done].
  exists i. split; [done|]. split.
  - unfold bought in Hdone. rewrite Hstart in Hdone.
    injection Hdone as <- _. done.
  - rewrite <- (bought_pool trader amount w i Hstart), Hdone. done.
Qed.

Lemma sold_returns (trader : string) (amount out : R) (w w' : World) :
  swapPreTokenForBase trader amount w = (inr out, w') ->
  0 < amount
  /\ exists i,
       sellStart (pool w) = Some i
       /\ out = (sellRoute (pool w) i amount).1.2
                - (sellRoute (pool w) i amount).1.2 * _feePercentage
       /\ pool w' = soldPool (pool w) i amount.
Proof.
  intros Hdone.
  destruct (swapPreTokenForBase_cases trader amount w)
    as [(e & _ & He)|(_ & Hpos & _ & Hok)]; [congruence|].
  split; [done|]. rewrite Hok in Hdone.
  destruct (sellStart (pool w)) as [i|] eqn:Hstart;
    [|unfold sold in Hdone; rewrite Hstart in Hdone; done].
  exists i. split; [done|]. split.
  - unfold sold in Hdone. rewrite Hstart in Hdone.
    injection Hdone as <- _. done.
  - rewrite <- (sold_pool trader amount w i Hstart), Hdone. done.
Qed.

(** X16.  In a pool reached from the constructor, a buy that returns
    books the net input less a non-negative unused rest: [baseReserve]
    grows by at most [baseAmount - fee], and [preTokenReserve] falls by
    exactly the amount returned. *)
Theorem X16_buy_books_at_most_the_net_input
    (tokens : TokenRef -> Token.Token) (baseToken preToken : TokenRef)
    (initialPrice : option R) (ops : list Op)
    (trader : string) (amount out : R) (w' : World) :
  let w := run ops (initial tokens baseToken preToken initialPrice) in
  swapBaseForPreToken trader amount w = (inr out, w') ->
  exists unused,
    0 <= unused
    /\ _baseReserve (pool w')
       = _baseReserve (pool w) + (amount - amount * _feePercentage) - unused
    /\ _baseReserve (pool w')
       <= _baseReserve (pool w) + (amount - amount * _feePercentage)
    /\ _preTokenReserve (pool w') = _preTokenReserve (pool w) - out.
Proof.
  intros w Hdone.
  destruct (poolInv_run tokens baseToken preToken initialPrice ops)
    as [Hbook _ _ _ _].
  fold w in Hbook.
  destruct (bought_returns trader amount out w w' Hdone)
    as (Hpos & i & Hstart & Hout & Hw').
  destruct (buyStart_first (pool w) i Hbook Hstart)
    as (first & rest & Hdrop & _).
  destruct (routeBase_lands (drop i (ascending (pool w)))
              (amount - amount * _feePercentage) 0
              (sqrt (getCurrentPrice (pool w)))
              (ascending_valid (pool w) i Hbook))
    as [_ Hunused].
  { unfold _feePercentage. lra. }
  { rewrite Hdrop. done. }
  exists (buyRoute (pool w) i (amount - amount * _feePercentage)).1.1.
  rewrite Hw', Hout. unfold boughtPool. cbn.
  unfold buyRoute in *. repeat split; lra.
Qed.

Lemma X16_buy_books_at_most_the_net_input_witness :
  exists unused,
    0 <= unused
    /\ _baseReserve (pool (bought "Trader1" 10 buyingPool).2)
       = _baseReserve (pool buyingPool) + (10 - 10 * _feePercentage) - unused
    /\ _baseReserve (pool (bought "Trader1" 10 buyingPool).2)
       <= _baseReserve (pool buyingPool) + (10 - 10 * _feePercentage)
    /\ _preTokenReserve (pool (bought "Trader1" 10 buyingPool).2)
       = _preTokenReserve (pool buyingPool)
         - (buyRoute (pool buyingPool) 0 (10 - 10 * _feePercentage)).1.2.
Proof.
  apply (X16_buy_books_at_most_the_net_input
           (tokensOf (usdc 2018 {[ "LP1" := 18; "Trader1" := 2000 ]})
                     (preX 0 ∅))
           0%nat 1%nat None [AddLiquidity "LP1" 9 1 100] "Trader1" 10).
  exact buyingPool_purchase.
Defined.

(** ** Routes on which the price moves one way *)

(** X17.  In a pool reached from the constructor, when the upper bounds
    of the positions do not descend along the buy route, a buy that
    returns does not lower [currentSqrtPrice], returns a non-negative
    amount, does not lower [baseReserve] and does not raise
    [preTokenReserve]. *)
Theorem X17_buy_raises_the_price_on_ascending_routes
    (tokens : TokenRef -> Token.Token) (baseToken preToken : TokenRef)
    (initialPrice : option R) (ops : list Op)
    (trader : string) (amount out : R) (w' : World) :
  let w := run ops (initial tokens baseToken preToken initialPrice) in
  swapBaseForPreToken trader amount w = (inr out, w') ->
  (forall i, buyStart (pool w) = Some i ->
             upperBoundsAscend (drop i (ascending (pool w)))) ->
  _currentSqrtPrice (pool w) <= _currentSqrtPrice (pool w')
  /\ 0 <= out
  /\ _baseReserve (pool w) <= _baseReserve (pool w')
  /\ _preTokenReserve (pool w') <= _preTokenReserve (pool w).
Proof.
  intros w Hdone Hasc.
  destruct (poolInv_run tokens baseToken preToken initialPrice ops)
    as [Hbook Hprice _ _ _].
  fold w in Hbook, Hprice.
  destruct (bought_returns trader amount out w w' Hdone)
    as (Hpos & i & Hstart & Hout & Hw').
  destruct (buyStart_first (pool w) i Hbook Hstart)
    as (first & rest & Hdrop & Hfirst).
  destruct (routeBase_ascending (drop i (ascending (pool w)))
              (amount - amount * _feePercentage) 0
              (sqrt (getCurrentPrice (pool w)))
              (ascending_valid (pool w) i Hbook) (Hasc i Hstart))
    as (H1 & H2 & H3).
  { intros pos rest' Heq. rewrite Hdrop in Heq. injection Heq as <- <-.
    pose proof (ascending_valid (pool w) i Hbook) as HF.
    rewrite Hdrop in HF. inversion HF as [|? ? Hv _].
    destruct Hv as (? & ? & _).
    apply sqrt_le_1; [|lra|done].
    unfold getCurrentPrice. nra. }
  { unfold _feePercentage. lra. }
  pose proof (sqrt_of_price (pool w) Hprice) as Hs.
  rewrite Hs in H1 at 1.
  rewrite Hw', Hout. unfold boughtPool. cbn.
  unfold buyRoute in *. repeat split; lra.
Qed.

Lemma X17_buy_raises_the_price_on_ascending_routes_witness :
  _currentSqrtPrice (pool buyingPool)
  <= _currentSqrtPrice (pool (bought "Trader1" 10 buyingPool).2).
Proof.
  refine (proj1 (X17_buy_raises_the_price_on_ascending_routes
           (tokensOf (usdc 2018 {[ "LP1" := 18; "Trader1" := 2000 ]})
                     (preX 0 ∅))
           0%nat 1%nat None [AddLiquidity "LP1" 9 1 100] "Trader1" 10
           _ _ buyingPool_purchase _)).
  intros i Hi.
  change (upperBoundsAscend (drop i (ascending (pool buyingPool)))).
  rewrite (proj1 (proj2 buyingPool_route)).
  destruct i as [|[|i]]; cbn; exact I.
Defined.

(** X18.  In a pool reached from the constructor, when the lower bounds
    of the positions do not ascend along the sell route, a sale that
    returns does not raise [currentSqrtPrice], returns a non-negative
    amount and does not raise [baseReserve]; and it uses none of its
    input: the unused rest is at least the whole [preTokenAmount], so
    [preTokenReserve] does not grow. *)
Theorem X18_sale_lowers_the_price_and_uses_no_input
    (tokens : TokenRef -> Token.Token) (baseToken preToken : TokenRef)
    (initialPrice : option R) (ops : list Op)
    (trader : string) (amount out : R) (w' : World) :
  let w := run ops (initial tokens baseToken preToken initialPrice) in
  swapPreTokenForBase trader amount w = (inr out, w') ->
  (forall i, sellStart (pool w) = Some i ->
             lowerBoundsDescend (drop i (descending (pool w)))) ->
  _currentSqrtPrice (pool w') <= _currentSqrtPrice (pool w)
  /\ 0 <= out
  /\ _baseReserve (pool w') <= _baseReserve (pool w)
  /\ _preTokenReserve (pool w') <= _preTokenReserve (pool w)
  /\ exists i,
       sellStart (pool w) = Some i
       /\ amount <= (sellRoute (pool w) i amount).1.1.
Proof.
  intros w Hdone Hdesc.
  destruct (poolInv_run tokens baseToken preToken initialPrice ops)
    as [Hbook Hprice _ _ _].
  fold w in Hbook, Hprice.
  destruct (sold_returns trader amount out w w' Hdone)
    as (Hpos & i & Hstart & Hout & Hw').
  destruct (sellStart_first (pool w) i Hbook Hstart)
    as (first & rest & Hdrop & Hfirst & Hp0).
  destruct (routePre_descending (drop i (descending (pool w)))
              amount 0 (sqrt (getCurrentPrice (pool w)))
              (descending_valid (pool w) i Hbook) (Hdesc i Hstart))
    as (H1 & H2 & H3).
  { intros pos rest' Heq. rewrite Hdrop in Heq. injection Heq as <- <-.
    pose proof (descending_valid (pool w) i Hbook) as HF.
    rewrite Hdrop in HF. inversion HF as [|? ? Hv _].
    destruct Hv as (? & ? & _).
    apply sqrt_le_1; [lra|lra|done]. }
  { apply sqrt_lt_R0. done. }
  pose proof (sqrt_of_price (pool w) Hprice) as Hs.
  rewrite Hs in H1 at 2.
  rewrite Hw', Hout. unfold soldPool. cbn.
  unfold sellRoute in *. unfold _feePercentage.
  split; [lra|]. split; [lra|]. split; [lra|]. split; [lra|].
  exists i. split; [done|lra].
Qed.

Lemma X18_sale_lowers_the_price_and_uses_no_input_witness :
  _currentSqrtPrice (pool (sold "Trader1" 100 shortPool).2)
  <= _currentSqrtPrice (pool shortPool).
Proof.
  refine (proj1 (X18_sale_lowers_the_price_and_uses_no_input
           (tokensOf (usdc 18 {[ "LP1" := 18 ]})
                     (preX 100 {[ "Trader1" := 100 ]}))
           0%nat 1%nat (Some 25) [AddLiquidity "LP1" 9 1 100]
           "Trader1" 100 _ _ shortPool_sale _)).
  intros i Hi.
  change (lowerBoundsDescend (drop i (descending (pool shortPool)))).
  assert (Hbook : descending (pool shortPool)
                  = [LPPosition.mk "LP-1" "LP1" 10 1 100 9 90]).
  { rewrite shortPool_state. unfold descending, addedPool, constructor.
    cbn -[pretty]. rewrite positionId_1. cbn.
    unfold liquidityFor, preTokenFor. sqrt_eval. repeat f_equal; lra. }
  rewrite Hbook. destruct i as [|[|i]]; cbn; exact I.
Defined.

(** ** A buy that stays inside one range *)

(** X19.  In a pool reached from the constructor, let a buy start at a
    position with liquidity [L], from the price [s] (the current
    square-root price, raised to the position's lower one if it lies
    below), with the net input [a = baseAmount - fee].  If [s + a / L]
    stays below the position's upper square-root price, the buy ends
    there: [currentSqrtPrice] becomes [s + a / L], the amount returned is
    [a / (s * (s + a / L))], and the whole net input is booked in
    [baseReserve], nothing is left to refund. *)
Theorem X19_buy_inside_one_range
    (tokens : TokenRef -> Token.Token) (baseToken preToken : TokenRef)
    (initialPrice : option R) (ops : list Op)
    (trader : string) (amount out : R) (w' : World)
    (i : nat) (pos : LPPosition.t) (rest : list LPPosition.t) :
  let w := run ops (initial tokens baseToken preToken initialPrice) in
  let a := amount - amount * _feePercentage in
  let L := LPPosition.liquidity pos in
  let s := Rmax (_currentSqrtPrice (pool w))
                (sqrt (LPPosition.lowerPriceBound pos)) in
  swapBaseForPreToken trader amount w = (inr out, w') ->
  buyStart (pool w) = Some i ->
  drop i (ascending (pool w)) = pos :: rest ->
  s + a / L < sqrt (LPPosition.upperPriceBound pos) ->
  _currentSqrtPrice (pool w') = s + a / L
  /\ out = a / (s * (s + a / L))
  /\ _baseReserve (pool w') = _baseReserve (pool w) + a.
Proof.
  intros w a L s Hdone Hstart Hdrop Hfit.
  destruct (poolInv_run tokens baseToken preToken initialPrice ops)
    as [Hbook Hprice _ _ _].
  fold w in Hbook, Hprice.
  destruct (bought_returns trader amount out w w' Hdone)
    as (Hpos & j & Hstart' & Hout & Hw').
  rewrite Hstart in Hstart'. injection Hstart' as <-.
  assert (Hv : validPosition pos).
  { pose proof (ascending_valid (pool w) i Hbook) as HF.
    rewrite Hdrop in HF. inversion HF. done. }
  destruct (validPosition_sqrt pos Hv) as [[Hlo Hup] HL]. fold L in HL.
  assert (Ha : 0 < a) by (unfold a, _feePercentage; lra).
  assert (Hq : 0 < a / L) by (apply Rdiv_lt_0_compat; done).
  assert (Hs : (if Num.ltb (_currentSqrtPrice (pool w))
                           (sqrt (LPPosition.lowerPriceBound pos))
                then sqrt (LPPosition.lowerPriceBound pos)
                else _currentSqrtPrice (pool w)) = s).
  { unfold s, Rmax.
    destruct (Num.ltb _ _) eqn:E; destruct (Rle_dec _ _) as [H|H];
      try done.
    - apply ltb_true in E. lra.
    - apply ltb_false in E. lra. }
  assert (Hs0 : 0 < s).
  { unfold s. pose proof (Rmax_r (_currentSqrtPrice (pool w))
                            (sqrt (LPPosition.lowerPriceBound pos))). lra. }
  assert (Hroute : buyRoute (pool w) i a
                   = (a - L * (s + a / L - s),
                      0 + L * (1 / s - 1 / (s + a / L)),
                      s + a / L)).
  { unfold buyRoute. rewrite Hdrop, sqrt_of_price by done.
    cbn [routeBase]. rewrite (proj2 (ltb_true _ _) Ha).
    fold L. rewrite Hs.
    rewrite Rmin_left by lra.
    rewrite (proj2 (ltb_true _ _) Hfit). done. }
  rewrite Hw', Hout. unfold boughtPool. fold a. rewrite Hroute. cbn.
  assert (HsL : 0 < s * L) by (apply Rmult_lt_0_compat; done).
  split; [done|]. split; field; repeat split; lra.
Qed.

Lemma X19_buy_inside_one_range_witness :
  _currentSqrtPrice (pool (bought "Trader1" 10 buyingPool).2)
  = Rmax (_currentSqrtPrice (pool buyingPool)) (sqrt 1)
    + (10 - 10 * _feePercentage) / 10.
Proof.
  destruct buyingPool_route as (Hprice & Hbook & Hstart).
  refine (proj1 (X19_buy_inside_one_range
           (tokensOf (usdc 2018 {[ "LP1" := 18; "Trader1" := 2000 ]})
                     (preX 0 ∅))
           0%nat 1%nat None [AddLiquidity "LP1" 9 1 100] "Trader1" 10
           _ _ 0%nat (LPPosition.mk "LP-1" "LP1" 10 1 100 9 90) []
           buyingPool_purchase Hstart _ _)).
  - change (drop 0 (ascending (pool buyingPool))
            = [LPPosition.mk "LP-1" "LP1" 10 1 100 9 90]).
    rewrite Hbook. reflexivity.
  - change (Rmax (_currentSqrtPrice (pool buyingPool)) (sqrt 1)
            + (10 - 10 * _feePercentage) / 10 < sqrt 100).
    rewrite Hprice. sqrt_eval. rewrite Rmax_left by lra.
    unfold _feePercentage. lra.
Defined.

(** ** The recorded positions *)

Lemma sumLiquidity_app (l : list LPPosition.t) (pos : LPPosition.t) :
  sumLiquidity (l ++ [pos]) = sumLiquidity l + LPPosition.liquidity pos.
Proof.
  unfold sumLiquidity. induction l as [|x l IH]; cbn; [lra|].
  rewrite IH. lra.
Qed.

Lemma recordsInv_step (p p' : LiquidityPool.t) :
  poolStep p p' -> poolInv p -> recordsInv p -> recordsInv p'.
Proof.
  intros Hstep Hinv Hrec. destruct Hstep as [|owner baseAmount pa pb Hphase Hx Ha Hab
    |i baseAmount Hphase Hx Hstart|i preTokenAmount Hphase Hx Hstart
    |realToken Hphase]; try done.
  pose proof (next_id_is_fresh p Hinv) as Hfresh.
  destruct Hrec as (Hall & Hkeys & Hsum).
  destruct (addedPool_positions owner baseAmount pa pb p) as (Hpos & _).
  assert (Hliq : _liquidity (addedPool owner baseAmount pa pb p)
                 = _liquidity p + liquidityFor baseAmount pa pb)
    by (unfold addedPool; destruct (negb _ && _); done).
  unfold recordsInv, getAllLPPositions, Js.Map_values in *.
  rewrite Hpos, Hliq, Map_set_fresh by done.
  rewrite fmap_app. cbn [fmap list_fmap snd].
  split; [|split].
  - apply Forall_app. split; [done|]. constructor; [|done].
    repeat split; done.
  - apply Forall_app. split; [done|]. constructor; done.
  - rewrite sumLiquidity_app, Hsum. done.
Qed.

Lemma Map_get_own_id (l : list (string * LPPosition.t)) (pos : LPPosition.t) :
  NoDup l.*1 ->
  Forall (fun entry => LPPosition.id entry.2 = entry.1) l ->
  pos ∈ l.*2 ->
  Map_get (LPPosition.id pos) l = Some pos.
Proof.
  induction l as [|[k v] l IH]; cbn; intros Hnodup Hkeys Hin;
    [by apply elem_of_nil in Hin|].
  apply list.NoDup_cons in Hnodup as [Hnotin Hnodup].
  apply list.Forall_cons in Hkeys as [Hk Hkeys]. cbn in Hk.
  apply elem_of_cons in Hin as [->|Hin].
  - rewrite Hk, decide_True by done. done.
  - rewrite decide_False; [apply IH; done|].
    intros Heq. apply Hnotin.
    apply list_elem_of_fmap in Hin as ([k' v'] & -> & Hin').
    apply list_elem_of_fmap. exists (k', v'). split; [|done].
    rewrite list.Forall_forall in Hkeys.
    rewrite Heq. apply (Hkeys (k', v')). done.
Qed.

(** X20.  In a pool reached from the constructor, every position returned
    by [getAllLPPositions] has a positive collateral and a valid range,
    its liquidity and its initial pre-token amount are the ones
    [PriceCalculator] gives for that collateral on that range (so the
    initial pre-token amount is [collateral * sqrt (Pa * Pb)]), it is
    stored under its own id, and the pool's [liquidity] is the sum of the
    liquidity of its positions: swaps leave all of this alone. *)
Theorem X20_positions_are_as_recorded
    (tokens : TokenRef -> Token.Token) (baseToken preToken : TokenRef)
    (initialPrice : option R) (ops : list Op) :
  let p := pool (run ops (initial tokens baseToken preToken initialPrice)) in
  Forall recordedPosition (getAllLPPositions p)
  /\ (forall pos, pos ∈ getAllLPPositions p ->
        getLPPosition (LPPosition.id pos) p = Some pos
        /\ LPPosition.initialPreTokenAmount pos
           = LPPosition.collateralAmount pos
             * sqrt (LPPosition.lowerPriceBound pos
                     * LPPosition.upperPriceBound pos))
  /\ _liquidity p = sumLiquidity (getAllLPPositions p).
Proof.
  cbn zeta.
  assert (H : poolInv (pool (run ops (initial tokens baseToken preToken
                                         initialPrice)))
              /\ recordsInv (pool (run ops (initial tokens baseToken preToken
                                              initialPrice)))).
  { assert (H0 : poolInv (pool (initial tokens baseToken preToken
                                   initialPrice))
                 /\ recordsInv (pool (initial tokens baseToken preToken
                                        initialPrice))).
    { split; [apply (poolInv_run _ _ _ _ [])|].
      split; [constructor|]. split; [constructor|]. reflexivity. }
    revert H0. generalize (initial tokens baseToken preToken initialPrice).
    induction ops as [|op ops IH]; intros w H; [done|].
    apply IH. destruct H as [Hi Hr].
    pose proof (step_poolStep w op) as Hstep.
    split; [eapply poolInv_step; done|eapply recordsInv_step; done]. }
  destruct H as [Hinv (Hall & Hkeys & Hsum)].
  set (p := pool (run ops (initial tokens baseToken preToken initialPrice)))
    in *.
  split; [done|]. split; [|done].
  intros pos Hin. split.
  - destruct Hinv as [_ _ Hids _ _].
    assert (Hnodup : NoDup (_lpPositions p).*1).
    { unfold positionIds in Hids. rewrite Hids.
      apply NoDup_fmap_2; [|apply NoDup_seq]. intros n m. apply idOf_inj. }
    apply Map_get_own_id; done.
  - rewrite list.Forall_forall in Hall.
    destruct (Hall pos Hin) as (Hc & Ha & Hab & _ & Hpre).
    rewrite Hpre, preTokenFor_product, sqrt_mult by lra. done.
Qed.

(** ** The pool with one price range *)

Lemma calculateSwapOutput_returns
    (inputAmount inputReserve outputReserve pa pb out : R) (direction : bool) :
  calculateSwapOutput inputAmount inputReserve outputReserve pa pb direction
  = inr out ->
  (0 < pa /\ pa < pb)
  /\ 0 < inputAmount /\ 0 < inputReserve /\ 0 < outputReserve.
Proof.
  unfold calculateSwapOutput.
  destruct (Num.leb inputAmount 0 || Num.leb inputReserve 0
            || Num.leb outputReserve 0) eqn:Hg; [done|].
  rewrite !orb_false_iff, !leb_false in Hg.
  unfold PriceCalculator.calculateLiquidity.
  destruct (PriceCalculator.invalidRange pa pb) eqn:Hr; [done|].
  apply invalidRange_false in Hr. intros _. tauto.
Qed.

Lemma updatePrice_valid (w : BoundedLiquidityPool.World) :
  0 < BoundedLiquidityPool._minPrice (BoundedLiquidityPool.pool w) ->
  BoundedLiquidityPool._minPrice (BoundedLiquidityPool.pool w)
  < BoundedLiquidityPool._maxPrice (BoundedLiquidityPool.pool w) ->
  BoundedLiquidityPool.updatePrice w
  = (inr tt,
     BoundedLiquidityPool.mkWorld (BoundedLiquidityPool.store w)
       (repriced (BoundedLiquidityPool.pool w))).
Proof.
  intros Hlo Hhi. destruct w as [st p].
  unfold BoundedLiquidityPool.updatePrice, repriced,
    BoundedLiquidityPool.bind, BoundedLiquidityPool.this,
    BoundedLiquidityPool.when, BoundedLiquidityPool.lift,
    BoundedLiquidityPool.assign, BoundedLiquidityPool.ret.
  cbn [BoundedLiquidityPool.pool BoundedLiquidityPool.store] in *.
  destruct (Num.ltb 0 (BoundedLiquidityPool._preTokenReserve p)) eqn:Hy;
    [|done].
  destruct (Num.ltb 0 (BoundedLiquidityPool._baseReserve p)) eqn:Hx;
    [|done].
  apply ltb_true in Hy, Hx. cbn [andb].
  unfold PriceCalculator.calculateCurrentPrice.
  rewrite (proj2 (eqb_false _ 0)) by lra.
  rewrite (proj2 (eqb_false _ 0)) by lra.
  rewrite valid_calculateLiquidity by done. done.
Qed.

(** The steps of a buy, when every guard lets it pass. *)
Lemma bounded_buy_done (trader : string) (baseAmount out : R)
    (w : BoundedLiquidityPool.World) :
  let p := BoundedLiquidityPool.pool w in
  BoundedLiquidityPool._isSettlementPhase p = false ->
  0 < baseAmount ->
  baseAmount
  <= Token.balanceOf
       (BoundedLiquidityPool.store w (BoundedLiquidityPool._baseToken p))
       trader ->
  calculateSwapOutput
    (baseAmount - baseAmount * BoundedLiquidityPool._feePercentage)
    (BoundedLiquidityPool._baseReserve p)
    (BoundedLiquidityPool._preTokenReserve p)
    (BoundedLiquidityPool._minPrice p) (BoundedLiquidityPool._maxPrice p) true
  = inr out ->
  0 < out ->
  BoundedLiquidityPool.swapBaseForPreToken trader baseAmount w
  = (inr out, boundedBought trader baseAmount out w).
Proof.
  intros p Hs Ha Hbal Hq Hout.
  destruct (calculateSwapOutput_returns _ _ _ _ _ _ _ Hq) as [[Hlo Hhi] _].
  unfold BoundedLiquidityPool.swapBaseForPreToken.
  unfold BoundedLiquidityPool.bind at 1. unfold BoundedLiquidityPool.this at 1.
  fold p. rewrite Hs, (proj2 (leb_false _ _) Ha).
  unfold BoundedLiquidityPool.bind at 1. unfold BoundedLiquidityPool.view at 1.
  rewrite (proj2 (ltb_false _ _) Hbal).
  unfold BoundedLiquidityPool.bind at 1. unfold BoundedLiquidityPool.quote at 1.
  rewrite Hq, (proj2 (leb_false _ _) Hout).
  unfold BoundedLiquidityPool.bind, BoundedLiquidityPool.call,
    BoundedLiquidityPool.assign, BoundedLiquidityPool.ret.
  destruct (Token.transfer trader BoundedLiquidityPool.POOL baseAmount
              (BoundedLiquidityPool.store w (BoundedLiquidityPool._baseToken p)))
    as [b1 tok1] eqn:E1.
  cbn [BoundedLiquidityPool.store BoundedLiquidityPool.pool].
  destruct (Token.transfer BoundedLiquidityPool.POOL trader out
              ((<[BoundedLiquidityPool._baseToken p := tok1]>
                  (BoundedLiquidityPool.store w))
                 (BoundedLiquidityPool._preToken p)))
    as [b2 tok2] eqn:E2.
  rewrite updatePrice_valid by done.
  unfold boundedBought, tokenCall. fold p.
  rewrite E1. cbn [snd]. rewrite E2. done.
Qed.

(** A buy either throws in the world it found or runs to its end. *)
Lemma bounded_buy_cases (trader : string) (baseAmount : R)
    (w : BoundedLiquidityPool.World) :
  let p := BoundedLiquidityPool.pool w in
  (exists e,
     BoundedLiquidityPool.swapBaseForPreToken trader baseAmount w = (inl e, w))
  \/ (exists out,
        BoundedLiquidityPool._isSettlementPhase p = false
        /\ 0 < baseAmount
        /\ baseAmount
           <= Token.balanceOf
                (BoundedLiquidityPool.store w
                   (BoundedLiquidityPool._baseToken p))
                trader
        /\ calculateSwapOutput
             (baseAmount - baseAmount * BoundedLiquidityPool._feePercentage)
             (BoundedLiquidityPool._baseReserve p)
             (BoundedLiquidityPool._preTokenReserve p)
             (BoundedLiquidityPool._minPrice p)
             (BoundedLiquidityPool._maxPrice p) true
           = inr out
        /\ 0 < out
        /\ BoundedLiquidityPool.swapBaseForPreToken trader baseAmount w
           = (inr out, boundedBought trader baseAmount out w)).
Proof.
  intros p.
  destruct (BoundedLiquidityPool._isSettlementPhase p) eqn:Hs.
  { left. eexists. unfold BoundedLiquidityPool.swapBaseForPreToken,
      BoundedLiquidityPool.bind, BoundedLiquidityPool.this. fold p.
    rewrite Hs. done. }
  destruct (Num.leb baseAmount 0) eqn:Ha.
  { left. eexists. unfold BoundedLiquidityPool.swapBaseForPreToken,
      BoundedLiquidityPool.bind, BoundedLiquidityPool.this. fold p.
    rewrite Hs, Ha. done. }
  destruct (Num.ltb
              (Token.balanceOf
                 (BoundedLiquidityPool.store w
                    (BoundedLiquidityPool._baseToken p)) trader)
              baseAmount) eqn:Hbal.
  { left. eexists. unfold BoundedLiquidityPool.swapBaseForPreToken,
      BoundedLiquidityPool.bind, BoundedLiquidityPool.this,
      BoundedLiquidityPool.view. fold p.
    rewrite Hs, Ha, Hbal. done. }
  destruct (calculateSwapOutput
              (baseAmount - baseAmount * BoundedLiquidityPool._feePercentage)
              (BoundedLiquidityPool._baseReserve p)
              (BoundedLiquidityPool._preTokenReserve p)
              (BoundedLiquidityPool._minPrice p)
              (BoundedLiquidityPool._maxPrice p) true) as [e|out] eqn:Hq.
  { left. eexists. unfold BoundedLiquidityPool.swapBaseForPreToken,
      BoundedLiquidityPool.bind, BoundedLiquidityPool.this,
      BoundedLiquidityPool.view, BoundedLiquidityPool.quote. fold p.
    rewrite Hs, Ha, Hbal, Hq. done. }
  destruct (Num.leb out 0) eqn:Hout.
  { left. eexists. unfold BoundedLiquidityPool.swapBaseForPreToken,
      BoundedLiquidityPool.bind, BoundedLiquidityPool.this,
      BoundedLiquidityPool.view, BoundedLiquidityPool.quote. fold p.
    rewrite Hs, Ha, Hbal, Hq, Hout. done. }
  right. exists out. apply leb_false in Ha, Hout. apply ltb_false in Hbal.
  repeat split; try done.
  apply bounded_buy_done; done.
Qed.

Lemma bounded_sell_done (trader : string) (preTokenAmount out : R)
    (w : BoundedLiquidityPool.World) :
  let p := BoundedLiquidityPool.pool w in
  BoundedLiquidityPool._isSettlementPhase p = false ->
  0 < preTokenAmount ->
  preTokenAmount
  <= Token.balanceOf
       (BoundedLiquidityPool.store w (BoundedLiquidityPool._preToken p))
       trader ->
  calculateSwapOutput preTokenAmount
    (BoundedLiquidityPool._preTokenReserve p)
    (BoundedLiquidityPool._baseReserve p)
    (BoundedLiquidityPool._minPrice p) (BoundedLiquidityPool._maxPrice p) false
  = inr out ->
  0 < out ->
  BoundedLiquidityPool.swapPreTokenForBase trader preTokenAmount w
  = (inr (out - out * BoundedLiquidityPool._feePercentage),
     boundedSold trader preTokenAmount out w).
Proof.
  intros p Hs Ha Hbal Hq Hout.
  destruct (calculateSwapOutput_returns _ _ _ _ _ _ _ Hq) as [[Hlo Hhi] _].
  unfold BoundedLiquidityPool.swapPreTokenForBase.
  unfold BoundedLiquidityPool.bind at 1. unfold BoundedLiquidityPool.this at 1.
  fold p. rewrite Hs, (proj2 (leb_false _ _) Ha).
  unfold BoundedLiquidityPool.bind at 1. unfold BoundedLiquidityPool.view at 1.
  rewrite (proj2 (ltb_false _ _) Hbal).
  unfold BoundedLiquidityPool.bind at 1. unfold BoundedLiquidityPool.quote at 1.
  rewrite Hq, (proj2 (leb_false _ _) Hout).
  unfold BoundedLiquidityPool.bind, BoundedLiquidityPool.call,
    BoundedLiquidityPool.assign, BoundedLiquidityPool.ret.
  destruct (Token.transfer trader BoundedLiquidityPool.POOL preTokenAmount
              (BoundedLiquidityPool.store w (BoundedLiquidityPool._preToken p)))
    as [b1 tok1] eqn:E1.
  cbn [BoundedLiquidityPool.store BoundedLiquidityPool.pool].
  destruct (Token.transfer BoundedLiquidityPool.POOL trader
              (out - out * BoundedLiquidityPool._feePercentage)
              ((<[BoundedLiquidityPool._preToken p := tok1]>
                  (BoundedLiquidityPool.store w))
                 (BoundedLiquidityPool._baseToken p)))
    as [b2 tok2] eqn:E2.
  rewrite updatePrice_valid by done.
  unfold boundedSold, tokenCall. fold p.
  rewrite E1. cbn [snd]. rewrite E2. done.
Qed.

Lemma bounded_sell_cases (trader : string) (preTokenAmount : R)
    (w : BoundedLiquidityPool.World) :
  let p := BoundedLiquidityPool.pool w in
  (exists e,
     BoundedLiquidityPool.swapPreTokenForBase trader preTokenAmount w
     = (inl e, w))
  \/ (exists out,
        BoundedLiquidityPool._isSettlementPhase p = false
        /\ 0 < preTokenAmount
        /\ preTokenAmount
           <= Token.balanceOf
                (BoundedLiquidityPool.store w
                   (BoundedLiquidityPool._preToken p))
                trader
        /\ calculateSwapOutput preTokenAmount
             (BoundedLiquidityPool._preTokenReserve p)
             (BoundedLiquidityPool._baseReserve p)
             (BoundedLiquidityPool._minPrice p)
             (BoundedLiquidityPool._maxPrice p) false
           = inr out
        /\ 0 < out
        /\ BoundedLiquidityPool.swapPreTokenForBase trader preTokenAmount w
           = (inr (out - out * BoundedLiquidityPool._feePercentage),
              boundedSold trader preTokenAmount out w)).
Proof.
  intros p.
  destruct (BoundedLiquidityPool._isSettlementPhase p) eqn:Hs.
  { left. eexists. unfold BoundedLiquidityPool.swapPreTokenForBase,
      BoundedLiquidityPool.bind, BoundedLiquidityPool.this. fold p.
    rewrite Hs. done. }
  destruct (Num.leb preTokenAmount 0) eqn:Ha.
  { left. eexists. unfold BoundedLiquidityPool.swapPreTokenForBase,
      BoundedLiquidityPool.bind, BoundedLiquidityPool.this. fold p.
    rewrite Hs, Ha. done. }
  destruct (Num.ltb
              (Token.balanceOf
                 (BoundedLiquidityPool.store w
                    (BoundedLiquidityPool._preToken p)) trader)
              preTokenAmount) eqn:Hbal.
  { left. eexists. unfold BoundedLiquidityPool.swapPreTokenForBase,
      BoundedLiquidityPool.bind, BoundedLiquidityPool.this,
      BoundedLiquidityPool.view. fold p.
    rewrite Hs, Ha, Hbal. done. }
  destruct (calculateSwapOutput preTokenAmount
              (BoundedLiquidityPool._preTokenReserve p)
              (BoundedLiquidityPool._baseReserve p)
              (BoundedLiquidityPool._minPrice p)
              (BoundedLiquidityPool._maxPrice p) false) as [e|out] eqn:Hq.
  { left. eexists. unfold BoundedLiquidityPool.swapPreTokenForBase,
      BoundedLiquidityPool.bind, BoundedLiquidityPool.this,
      BoundedLiquidityPool.view, BoundedLiquidityPool.quote. fold p.
    rewrite Hs, Ha, Hbal, Hq. done. }
  destruct (Num.leb out 0) eqn:Hout.
  { left. eexists. unfold BoundedLiquidityPool.swapPreTokenForBase,
      BoundedLiquidityPool.bind, BoundedLiquidityPool.this,
      BoundedLiquidityPool.view, BoundedLiquidityPool.quote. fold p.
    rewrite Hs, Ha, Hbal, Hq, Hout. done. }
  right. exists out. apply leb_false in Ha, Hout. apply ltb_false in Hbal.
  repeat split; try done.
  apply bounded_sell_done; done.
Qed.

Lemma bounded_add_done (owner : string) (baseAmount pa pb : R)
    (w : BoundedLiquidityPool.World) :
  let p := BoundedLiquidityPool.pool w in
  BoundedLiquidityPool._isSettlementPhase p = false ->
  0 < baseAmount ->
  baseAmount * 2
  <= Token.balanceOf
       (BoundedLiquidityPool.store w (BoundedLiquidityPool._baseToken p))
       owner ->
  0 < pa -> pa < pb ->
  BoundedLiquidityPool.addLiquidity owner baseAmount pa pb w
  = (inr ("LP-" +:+ pretty (BoundedLiquidityPool._nextPositionId p)),
     boundedAdded owner baseAmount pa pb w).
Proof.
  intros p Hs Ha Hbal Hpa Hpb.
  unfold BoundedLiquidityPool.addLiquidity.
  unfold BoundedLiquidityPool.bind at 1. unfold BoundedLiquidityPool.this at 1.
  fold p. rewrite Hs, (proj2 (leb_false _ _) Ha).
  unfold BoundedLiquidityPool.bind at 1. unfold BoundedLiquidityPool.view at 1.
  rewrite (proj2 (ltb_false _ _) Hbal).
  unfold BoundedLiquidityPool.bind at 1. unfold BoundedLiquidityPool.lift at 1.
  rewrite valid_calculatePreTokenAmount by done.
  unfold BoundedLiquidityPool.bind at 1. unfold BoundedLiquidityPool.lift at 1.
  rewrite valid_calculateLiquidity by done.
  unfold BoundedLiquidityPool.bind, BoundedLiquidityPool.call,
    BoundedLiquidityPool.assign, BoundedLiquidityPool.ret,
    BoundedLiquidityPool.this, BoundedLiquidityPool.when.
  destruct (Token.transfer owner BoundedLiquidityPool.POOL (baseAmount * 2)
              (BoundedLiquidityPool.store w (BoundedLiquidityPool._baseToken p)))
    as [b1 tok1] eqn:E1.
  cbn [BoundedLiquidityPool.store BoundedLiquidityPool.pool].
  destruct (Token.mint BoundedLiquidityPool.POOL (preTokenFor baseAmount pa pb)
              ((<[BoundedLiquidityPool._baseToken p := tok1]>
                  (BoundedLiquidityPool.store w))
                 (BoundedLiquidityPool._preToken p)))
    as [b2 tok2] eqn:E2.
  cbn [BoundedLiquidityPool.store BoundedLiquidityPool.pool].
  unfold boundedAdded, boundedAddedPool, tokenCall. fold p.
  rewrite E1. cbn [snd]. rewrite E2. cbn [snd].
  cbn [BoundedLiquidityPool._initialPriceSet
       BoundedLiquidityPool.set_lpPositions
       BoundedLiquidityPool.set_nextPositionId
       BoundedLiquidityPool.set_reserves
       BoundedLiquidityPool._lpPositions
       BoundedLiquidityPool._nextPositionId
       BoundedLiquidityPool._baseReserve
       BoundedLiquidityPool._preTokenReserve
       BoundedLiquidityPool._liquidity].
  destruct (negb (BoundedLiquidityPool._initialPriceSet p)
            && Nat.eqb _ 1); done.
Qed.

Lemma bounded_add_cases (owner : string) (baseAmount pa pb : R)
    (w : BoundedLiquidityPool.World) :
  let p := BoundedLiquidityPool.pool w in
  (exists e,
     BoundedLiquidityPool.addLiquidity owner baseAmount pa pb w = (inl e, w))
  \/ (BoundedLiquidityPool._isSettlementPhase p = false
      /\ 0 < baseAmount
      /\ baseAmount * 2
         <= Token.balanceOf
              (BoundedLiquidityPool.store w
                 (BoundedLiquidityPool._baseToken p))
              owner
      /\ 0 < pa /\ pa < pb
      /\ BoundedLiquidityPool.addLiquidity owner baseAmount pa pb w
         = (inr ("LP-" +:+ pretty (BoundedLiquidityPool._nextPositionId p)),
            boundedAdded owner baseAmount pa pb w)).
Proof.
  intros p.
  destruct (BoundedLiquidityPool._isSettlementPhase p) eqn:Hs.
  { left. eexists. unfold BoundedLiquidityPool.addLiquidity,
      BoundedLiquidityPool.bind, BoundedLiquidityPool.this. fold p.
    rewrite Hs. done. }
  destruct (Num.leb baseAmount 0) eqn:Ha.
  { left. eexists. unfold BoundedLiquidityPool.addLiquidity,
      BoundedLiquidityPool.bind, BoundedLiquidityPool.this. fold p.
    rewrite Hs, Ha. done. }
  destruct (Num.ltb
              (Token.balanceOf
                 (BoundedLiquidityPool.store w
                    (BoundedLiquidityPool._baseToken p)) owner)
              (baseAmount * 2)) eqn:Hbal.
  { left. eexists. unfold BoundedLiquidityPool.addLiquidity,
      BoundedLiquidityPool.bind, BoundedLiquidityPool.this,
      BoundedLiquidityPool.view. fold p.
    rewrite Hs, Ha, Hbal. done. }
  destruct (PriceCalculator.invalidRange pa pb) eqn:Hr.
  { left. eexists. unfold BoundedLiquidityPool.addLiquidity,
      BoundedLiquidityPool.bind, BoundedLiquidityPool.this,
      BoundedLiquidityPool.view, BoundedLiquidityPool.lift,
      PriceCalculator.calculatePreTokenAmount. fold p.
    rewrite Hs, Ha, Hbal, Hr. done. }
  right. apply leb_false in Ha. apply ltb_false in Hbal.
  apply invalidRange_false in Hr. destruct Hr as [Hpa Hpb].
  repeat split; try done.
  apply bounded_add_done; done.
Qed.

Lemma bounded_settle_cases (realToken : TokenRef)
    (w : BoundedLiquidityPool.World) :
  let p := BoundedLiquidityPool.pool w in
  (exists e,
     BoundedLiquidityPool.enterSettlementPhase realToken w = (inl e, w))
  \/ (BoundedLiquidityPool._isSettlementPhase p = false
      /\ BoundedLiquidityPool.enterSettlementPhase realToken w
         = (inr tt,
            BoundedLiquidityPool.mkWorld (BoundedLiquidityPool.store w)
              (BoundedLiquidityPool.set_settlement true (Some realToken) p))).
Proof.
  intros p.
  unfold BoundedLiquidityPool.enterSettlementPhase,
    BoundedLiquidityPool.bind, BoundedLiquidityPool.this. fold p.
  destruct (BoundedLiquidityPool._isSettlementPhase p) eqn:Hs.
  - left. eexists. done.
  - right. done.
Qed.

(** What recomputing the price keeps of the pool. *)
Lemma repriced_frame (p : BoundedLiquidityPool.t) :
  BoundedLiquidityPool._baseToken (repriced p)
  = BoundedLiquidityPool._baseToken p
  /\ BoundedLiquidityPool._preToken (repriced p)
     = BoundedLiquidityPool._preToken p
  /\ BoundedLiquidityPool._baseReserve (repriced p)
     = BoundedLiquidityPool._baseReserve p
  /\ BoundedLiquidityPool._preTokenReserve (repriced p)
     = BoundedLiquidityPool._preTokenReserve p
  /\ BoundedLiquidityPool._minPrice (repriced p)
     = BoundedLiquidityPool._minPrice p
  /\ BoundedLiquidityPool._maxPrice (repriced p)
     = BoundedLiquidityPool._maxPrice p
  /\ BoundedLiquidityPool._isSettlementPhase (repriced p)
     = BoundedLiquidityPool._isSettlementPhase p
  /\ BoundedLiquidityPool._initialPriceSet (repriced p)
     = BoundedLiquidityPool._initialPriceSet p
  /\ BoundedLiquidityPool._lpPositions (repriced p)
     = BoundedLiquidityPool._lpPositions p.
Proof. unfold repriced. destruct (_ && _); done. Qed.

(** The price the pool takes from reserves that are both positive. *)
Lemma repriced_price (p : BoundedLiquidityPool.t) :
  let x := BoundedLiquidityPool._baseReserve p in
  let y := BoundedLiquidityPool._preTokenReserve p in
  let lo := BoundedLiquidityPool._minPrice p in
  let hi := BoundedLiquidityPool._maxPrice p in
  0 < lo -> lo < hi -> 0 < x ->
  (0 < y ->
   BoundedLiquidityPool._currentSqrtPrice (repriced p)
   = sqrt lo + y * (sqrt hi - sqrt lo) / (x * sqrt (lo * hi)))
  /\ (y <= 0 ->
      BoundedLiquidityPool._currentSqrtPrice (repriced p)
      = BoundedLiquidityPool._currentSqrtPrice p).
Proof.
  intros x y lo hi Hlo Hhi Hx.
  destruct (sqrt_range lo hi Hlo Hhi) as [H1 H2].
  unfold repriced. fold x y lo hi. split; intros Hy.
  - rewrite (proj2 (ltb_true 0 y)), (proj2 (ltb_true 0 x)) by done.
    cbn [andb BoundedLiquidityPool._currentSqrtPrice
         BoundedLiquidityPool.set_currentSqrtPrice].
    assert (Hs : y / liquidityFor x lo hi + sqrt lo
                 = sqrt lo + y * (sqrt hi - sqrt lo) / (x * sqrt (lo * hi))).
    { unfold liquidityFor. rewrite sqrt_mult by lra. field.
      repeat split; lra. }
    rewrite Hs. apply sqrt_square.
    assert (0 < x * sqrt (lo * hi)).
    { rewrite sqrt_mult by lra.
      apply Rmult_lt_0_compat; [done|]. apply Rmult_lt_0_compat; lra. }
    assert (0 <= y * (sqrt hi - sqrt lo) / (x * sqrt (lo * hi))).
    { apply Rlt_le, Rdiv_lt_0_compat; [|done].
      apply Rmult_lt_0_compat; lra. }
    lra.
  - rewrite (proj2 (ltb_false 0 y)) by done. done.
Qed.

(** The quote for a buy on a valid range. *)
Lemma base_quote_value (inputAmount inputReserve outputReserve pa pb : R) :
  0 < pa -> pa < pb ->
  0 < inputAmount -> 0 < inputReserve -> 0 < outputReserve ->
  calculateSwapOutput inputAmount inputReserve outputReserve pa pb true
  = inr ((inputReserve + inputAmount) * sqrt (pa * pb) - outputReserve).
Proof.
  intros Ha Hab Hin Hres Hout.
  unfold calculateSwapOutput.
  rewrite calculateSwapOutput_guarded by done.
  rewrite valid_calculateLiquidity, valid_calculatePreTokenAmount by done.
  cbn. rewrite preTokenFor_product, sqrt_mult by lra. done.
Qed.

(** The quote for a sale on a valid range. *)
Lemma pre_quote_value (inputAmount inputReserve outputReserve pa pb : R) :
  0 < pa -> pa < pb ->
  0 < inputAmount -> 0 < inputReserve -> 0 < outputReserve ->
  inputAmount <= outputReserve ->
  calculateSwapOutput inputAmount inputReserve outputReserve pa pb false
  = inr (inputReserve - (outputReserve - inputAmount) / sqrt (pa * pb)).
Proof.
  intros Ha Hab Hin Hres Hout Hle.
  destruct (sqrt_range pa pb Ha Hab) as [H1 H2].
  unfold calculateSwapOutput.
  rewrite calculateSwapOutput_guarded by done.
  rewrite valid_calculateLiquidity, valid_calculateBaseAmount by done.
  cbn. rewrite (proj2 (ltb_false _ 0)) by lra.
  f_equal. rewrite sqrt_mult by lra. field. repeat split; lra.
Qed.

Lemma pre_quote_short (inputAmount inputReserve outputReserve pa pb out : R) :
  calculateSwapOutput inputAmount inputReserve outputReserve pa pb false
  = inr out ->
  inputAmount <= outputReserve.
Proof.
  intros Hq.
  destruct (calculateSwapOutput_returns _ _ _ _ _ _ _ Hq)
    as [[Ha Hab] (Hin & Hres & Hout)].
  revert Hq. unfold calculateSwapOutput.
  rewrite calculateSwapOutput_guarded by done.
  rewrite valid_calculateLiquidity by done. cbn.
  destruct (Num.ltb (outputReserve - inputAmount) 0) eqn:E; [done|].
  apply ltb_false in E. intros _. lra.
Qed.

Lemma net_of_fee_pos (amount : R) :
  0 < amount -> 0 < amount - amount * BoundedLiquidityPool._feePercentage.
Proof. unfold BoundedLiquidityPool._feePercentage. lra. Qed.

Lemma bounded_add_fails (owner : string) (baseAmount pa pb : R)
    (w : BoundedLiquidityPool.World) (e : Thrown) :
  (BoundedLiquidityPool.addLiquidity owner baseAmount pa pb w).1 = inl e ->
  (BoundedLiquidityPool.addLiquidity owner baseAmount pa pb w).2 = w.
Proof.
  destruct (bounded_add_cases owner baseAmount pa pb w)
    as [[e' ->]|(_ & _ & _ & _ & _ & ->)]; done.
Qed.

Lemma bounded_buy_fails (trader : string) (baseAmount : R)
    (w : BoundedLiquidityPool.World) (e : Thrown) :
  (BoundedLiquidityPool.swapBaseForPreToken trader baseAmount w).1 = inl e ->
  (BoundedLiquidityPool.swapBaseForPreToken trader baseAmount w).2 = w.
Proof.
  destruct (bounded_buy_cases trader baseAmount w)
    as [[e' ->]|(out & _ & _ & _ & _ & _ & ->)]; done.
Qed.

Lemma bounded_sell_fails (trader : string) (preTokenAmount : R)
    (w : BoundedLiquidityPool.World) (e : Thrown) :
  (BoundedLiquidityPool.swapPreTokenForBase trader preTokenAmount w).1
  = inl e ->
  (BoundedLiquidityPool.swapPreTokenForBase trader preTokenAmount w).2 = w.
Proof.
  destruct (bounded_sell_cases trader preTokenAmount w)
    as [[e' ->]|(out & _ & _ & _ & _ & _ & ->)]; done.
Qed.

Lemma bounded_settle_fails (realToken : TokenRef)
    (w : BoundedLiquidityPool.World) (e : Thrown) :
  (BoundedLiquidityPool.enterSettlementPhase realToken w).1 = inl e ->
  (BoundedLiquidityPool.enterSettlementPhase realToken w).2 = w.
Proof.
  destruct (bounded_settle_cases realToken w) as [[e' ->]|[_ ->]]; done.
Qed.

(** X21.  A call of the pool with one range that throws has changed
    nothing: every guard and every quote comes before the first transfer,
    and the price that is recomputed after the transfers cannot throw once
    the quote has accepted the range.  (The pool with many ranges keeps
    the payment when it throws for lack of liquidity.) *)
Theorem X21_single_range_pool_fails_cleanly
    (w : BoundedLiquidityPool.World) (e : Thrown) :
  (forall owner baseAmount pa pb,
     (BoundedLiquidityPool.addLiquidity owner baseAmount pa pb w).1 = inl e ->
     (BoundedLiquidityPool.addLiquidity owner baseAmount pa pb w).2 = w)
  /\ (forall trader baseAmount,
        (BoundedLiquidityPool.swapBaseForPreToken trader baseAmount w).1
        = inl e ->
        (BoundedLiquidityPool.swapBaseForPreToken trader baseAmount w).2 = w)
  /\ (forall trader preTokenAmount,
        (BoundedLiquidityPool.swapPreTokenForBase trader preTokenAmount w).1
        = inl e ->
        (BoundedLiquidityPool.swapPreTokenForBase trader preTokenAmount w).2
        = w)
  /\ (forall realToken,
        (BoundedLiquidityPool.enterSettlementPhase realToken w).1 = inl e ->
        (BoundedLiquidityPool.enterSettlementPhase realToken w).2 = w).
Proof.
  repeat split; intros.
  - apply (bounded_add_fails _ _ _ _ _ e). done.
  - apply (bounded_buy_fails _ _ _ e). done.
  - apply (bounded_sell_fails _ _ _ e). done.
  - apply (bounded_settle_fails _ _ e). done.
Qed.

(** The first guard of a quote. *)
Lemma quote_refuses_nonpositive
    (inputAmount inputReserve outputReserve pa pb : R) (direction : bool) :
  inputAmount <= 0 \/ inputReserve <= 0 \/ outputReserve <= 0 ->
  calculateSwapOutput inputAmount inputReserve outputReserve pa pb direction
  = inl InvalidInput.
Proof.
  intros H. unfold calculateSwapOutput.
  assert (Hg : Num.leb inputAmount 0 || Num.leb inputReserve 0
               || Num.leb outputReserve 0 = true).
  { rewrite !orb_true_iff, !leb_true. tauto. }
  rewrite Hg. done.
Qed.

(** A buy in a pool without reserves is refused by the quote. *)
Lemma bounded_buy_without_reserves (trader : string) (baseAmount : R)
    (w : BoundedLiquidityPool.World) :
  let p := BoundedLiquidityPool.pool w in
  BoundedLiquidityPool._isSettlementPhase p = false ->
  0 < baseAmount ->
  baseAmount
  <= Token.balanceOf
       (BoundedLiquidityPool.store w (BoundedLiquidityPool._baseToken p))
       trader ->
  BoundedLiquidityPool._baseReserve p <= 0
  \/ BoundedLiquidityPool._preTokenReserve p <= 0 ->
  BoundedLiquidityPool.swapBaseForPreToken trader baseAmount w
  = (inl (Propagated InvalidInput), w).
Proof.
  intros p Hs Ha Hbal Hres.
  unfold BoundedLiquidityPool.swapBaseForPreToken,
    BoundedLiquidityPool.bind, BoundedLiquidityPool.this,
    BoundedLiquidityPool.view, BoundedLiquidityPool.quote. fold p.
  rewrite Hs, (proj2 (leb_false _ _) Ha), (proj2 (ltb_false _ _) Hbal).
  rewrite quote_refuses_nonpositive by tauto. done.
Qed.

Lemma boundedFresh_buy :
  BoundedLiquidityPool.swapBaseForPreToken "Trader1" 10 boundedFresh
  = (inl (Propagated InvalidInput), boundedFresh).
Proof.
  apply bounded_buy_without_reserves.
  - reflexivity.
  - lra.
  - change (10 <= default 0 (Some 1000)). cbn. lra.
  - left. cbn. lra.
Qed.

Lemma X21_single_range_pool_fails_cleanly_witness :
  (BoundedLiquidityPool.swapBaseForPreToken "Trader1" 10 boundedFresh).2
  = boundedFresh.
Proof.
  apply (proj1 (proj2 (X21_single_range_pool_fails_cleanly
                         boundedFresh (Propagated InvalidInput)))).
  rewrite boundedFresh_buy. reflexivity.
Defined.

(** ** What the swaps of the pool with one range return *)

(** A buy on a valid range, with the quote in closed form. *)
Lemma bounded_buy_closed (trader : string) (baseAmount : R)
    (w : BoundedLiquidityPool.World) :
  let p := BoundedLiquidityPool.pool w in
  let x := BoundedLiquidityPool._baseReserve p in
  let y := BoundedLiquidityPool._preTokenReserve p in
  let lo := BoundedLiquidityPool._minPrice p in
  let hi := BoundedLiquidityPool._maxPrice p in
  let net := baseAmount - baseAmount * BoundedLiquidityPool._feePercentage in
  let out := (x + net) * sqrt (lo * hi) - y in
  0 < lo -> lo < hi ->
  BoundedLiquidityPool._isSettlementPhase p = false ->
  0 < baseAmount ->
  baseAmount
  <= Token.balanceOf
       (BoundedLiquidityPool.store w (BoundedLiquidityPool._baseToken p))
       trader ->
  0 < x -> 0 < y -> 0 < out ->
  BoundedLiquidityPool.swapBaseForPreToken trader baseAmount w
  = (inr out, boundedBought trader baseAmount out w).
Proof.
  intros p x y lo hi net out Hlo Hhi Hs Ha Hbal Hx Hy Hout.
  apply bounded_buy_done; try done.
  apply base_quote_value; try done. apply net_of_fee_pos. done.
Qed.

(** X23.  A buy in the pool with one range, in closed form.  With
    [net = baseAmount - fee] and [out = (x + net) * sqrt (lo * hi) - y]
    for the reserves [x], [y] and the bounds [lo], [hi] of the pool: the
    call returns exactly when the pool is trading, the range is valid, the
    amount is positive and covered by the trader's balance, both reserves
    are positive and [out] is positive; it then returns [out], adds [net]
    to the base reserve and takes [out] from the pre-token reserve.  The
    price is recomputed when the pre-token reserve stays positive, and
    then lies strictly between the bounds; otherwise it stays. *)
Theorem X23_single_range_buy (trader : string) (baseAmount : R)
    (w : BoundedLiquidityPool.World) :
  let p := BoundedLiquidityPool.pool w in
  let x := BoundedLiquidityPool._baseReserve p in
  let y := BoundedLiquidityPool._preTokenReserve p in
  let lo := BoundedLiquidityPool._minPrice p in
  let hi := BoundedLiquidityPool._maxPrice p in
  let net := baseAmount - baseAmount * BoundedLiquidityPool._feePercentage in
  let out := (x + net) * sqrt (lo * hi) - y in
  let accepted :=
    BoundedLiquidityPool._isSettlementPhase p = false
    /\ 0 < lo /\ lo < hi
    /\ 0 < baseAmount
    /\ baseAmount
       <= Token.balanceOf
            (BoundedLiquidityPool.store w (BoundedLiquidityPool._baseToken p))
            trader
    /\ 0 < x /\ 0 < y /\ 0 < out in
  (accepted ->
   exists w',
     BoundedLiquidityPool.swapBaseForPreToken trader baseAmount w
     = (inr out, w')
     /\ BoundedLiquidityPool._baseReserve (BoundedLiquidityPool.pool w')
        = x + net
     /\ BoundedLiquidityPool._preTokenReserve (BoundedLiquidityPool.pool w')
        = y - out
     /\ (0 < y - out ->
         BoundedLiquidityPool._currentSqrtPrice (BoundedLiquidityPool.pool w')
         = sqrt lo + (y - out) * (sqrt hi - sqrt lo)
                     / ((x + net) * sqrt (lo * hi))
         /\ sqrt lo
            < BoundedLiquidityPool._currentSqrtPrice
                (BoundedLiquidityPool.pool w')
            < sqrt hi)
     /\ (y - out <= 0 ->
         BoundedLiquidityPool._currentSqrtPrice (BoundedLiquidityPool.pool w')
         = BoundedLiquidityPool._currentSqrtPrice p))
  /\ (forall v w',
        BoundedLiquidityPool.swapBaseForPreToken trader baseAmount w
        = (inr v, w') ->
        accepted /\ v = out).
Proof.
  intros p x y lo hi net out accepted. split.
  - intros (Hs & Hlo & Hhi & Ha & Hbal & Hx & Hy & Hout).
    destruct (sqrt_range lo hi Hlo Hhi) as [H1 H2].
    assert (Hnet : 0 < net) by (apply net_of_fee_pos; done).
    exists (boundedBought trader baseAmount out w).
    split; [apply bounded_buy_closed; done|].
    pose (q := BoundedLiquidityPool.set_reserves (x + net) (y - out)
                 (BoundedLiquidityPool._liquidity p) p).
    change (BoundedLiquidityPool.pool (boundedBought trader baseAmount out w))
      with (repriced q).
    destruct (repriced_frame q) as (_ & _ & -> & -> & _).
    split; [done|]. split; [done|].
    assert (Hq : 0 < BoundedLiquidityPool._minPrice q
                 /\ BoundedLiquidityPool._minPrice q
                    < BoundedLiquidityPool._maxPrice q
                 /\ 0 < BoundedLiquidityPool._baseReserve q).
    { cbn. fold lo hi. lra. }
    destruct Hq as (Hq1 & Hq2 & Hq3).
    destruct (repriced_price q Hq1 Hq2 Hq3) as [Hpos Hneg].
    cbn [q BoundedLiquidityPool.set_reserves
         BoundedLiquidityPool._preTokenReserve
         BoundedLiquidityPool._baseReserve BoundedLiquidityPool._minPrice
         BoundedLiquidityPool._maxPrice
         BoundedLiquidityPool._currentSqrtPrice] in Hpos, Hneg.
    fold lo hi in Hpos, Hneg. split.
    + intros Hrest. rewrite (Hpos Hrest). split; [done|].
      assert (Hroot : 0 < sqrt (lo * hi)).
      { apply sqrt_lt_R0. apply Rmult_lt_0_compat; lra. }
      assert (Hk : 0 < (x + net) * sqrt (lo * hi)).
      { apply Rmult_lt_0_compat; lra. }
      assert (Hfrac : 0 < (y - out) / ((x + net) * sqrt (lo * hi)) < 1).
      { split.
        - apply Rdiv_lt_0_compat; done.
        - apply (Rmult_lt_reg_r ((x + net) * sqrt (lo * hi))); [done|].
          replace ((y - out) / ((x + net) * sqrt (lo * hi))
                   * ((x + net) * sqrt (lo * hi)))
            with (y - out) by (field; split; lra).
          unfold out in *. lra. }
      replace ((y - out) * (sqrt hi - sqrt lo) / ((x + net) * sqrt (lo * hi)))
        with ((y - out) / ((x + net) * sqrt (lo * hi)) * (sqrt hi - sqrt lo))
        by (field; split; lra).
      split; nra.
    + intros Hrest. rewrite (Hneg Hrest). done.
  - intros v w' Hrun.
    destruct (bounded_buy_cases trader baseAmount w)
      as [[e He]|(out' & Hs & Ha & Hbal & Hq & Hout & Hdone)].
    { fold p in He. rewrite He in Hrun. done. }
    fold p in Hs, Hbal, Hq, Hdone.
    rewrite Hdone in Hrun. injection Hrun as <- _.
    destruct (calculateSwapOutput_returns _ _ _ _ _ _ _ Hq)
      as [[Hlo Hhi] (Hnet & Hx & Hy)].
    rewrite base_quote_value in Hq by done. injection Hq as Hq.
    fold x y lo hi net out in Hq. subst out'.
    unfold accepted. fold x y lo hi. tauto.
Qed.

Lemma sqrt_1_4_is : sqrt (1 * 4) = 2.
Proof. replace (1 * 4) with 4 by lra. apply sqrt_4_is. Qed.

Lemma X23_single_range_buy_witness :
  exists w',
    BoundedLiquidityPool.swapBaseForPreToken "Trader1" 100 boundedFunded
    = (inr (1994 / 10), w')
    /\ BoundedLiquidityPool._baseReserve (BoundedLiquidityPool.pool w')
       = 10997 / 10
    /\ BoundedLiquidityPool._preTokenReserve (BoundedLiquidityPool.pool w')
       = 18006 / 10.
Proof.
  destruct (proj1 (X23_single_range_buy "Trader1" 100 boundedFunded))
    as (w' & Hrun & Hx & Hy & _).
  { cbn. unfold BoundedLiquidityPool._feePercentage. rewrite sqrt_1_4_is.
    repeat split; try lra.
    change (100 <= default 0 (Some 5000)). cbn. lra. }
  exists w'. rewrite Hrun, Hx, Hy. cbn.
  unfold BoundedLiquidityPool._feePercentage. rewrite sqrt_1_4_is.
  repeat split; try lra. do 2 f_equal. lra.
Defined.

Lemma repriced_idle (p : BoundedLiquidityPool.t) :
  BoundedLiquidityPool._baseReserve p <= 0
  \/ BoundedLiquidityPool._preTokenReserve p <= 0 ->
  BoundedLiquidityPool._currentSqrtPrice (repriced p)
  = BoundedLiquidityPool._currentSqrtPrice p.
Proof.
  intros H. unfold repriced.
  destruct H as [H|H].
  - rewrite (proj2 (ltb_false 0 _) H), andb_false_r. done.
  - rewrite (proj2 (ltb_false 0 _) H). done.
Qed.

(** X24.  A sale in the pool with one range, in closed form.  The quote
    is [out = y - (x - amount) / sqrt (lo * hi)]: the pre-token reserve
    [y] less the base amount of what the base reserve [x] exceeds the
    pre-token amount sold by.  The call returns exactly when the pool is
    trading, the range is valid, the amount is positive, covered by the
    trader's pre-token balance and at most [x], both reserves are positive
    and [out] is positive; it then returns [out] less the fee, takes the
    whole [out] from the base reserve and adds the amount to the pre-token
    reserve.  The price is recomputed when the base reserve stays
    positive. *)
Theorem X24_single_range_sale (trader : string) (preTokenAmount : R)
    (w : BoundedLiquidityPool.World) :
  let p := BoundedLiquidityPool.pool w in
  let x := BoundedLiquidityPool._baseReserve p in
  let y := BoundedLiquidityPool._preTokenReserve p in
  let lo := BoundedLiquidityPool._minPrice p in
  let hi := BoundedLiquidityPool._maxPrice p in
  let out := y - (x - preTokenAmount) / sqrt (lo * hi) in
  let accepted :=
    BoundedLiquidityPool._isSettlementPhase p = false
    /\ 0 < lo /\ lo < hi
    /\ 0 < preTokenAmount
    /\ preTokenAmount
       <= Token.balanceOf
            (BoundedLiquidityPool.store w (BoundedLiquidityPool._preToken p))
            trader
    /\ 0 < x /\ 0 < y /\ preTokenAmount <= x /\ 0 < out in
  (accepted ->
   exists w',
     BoundedLiquidityPool.swapPreTokenForBase trader preTokenAmount w
     = (inr (out - out * BoundedLiquidityPool._feePercentage), w')
     /\ BoundedLiquidityPool._baseReserve (BoundedLiquidityPool.pool w')
        = x - out
     /\ BoundedLiquidityPool._preTokenReserve (BoundedLiquidityPool.pool w')
        = y + preTokenAmount
     /\ (0 < x - out ->
         BoundedLiquidityPool._currentSqrtPrice (BoundedLiquidityPool.pool w')
         = sqrt lo + (y + preTokenAmount) * (sqrt hi - sqrt lo)
                     / ((x - out) * sqrt (lo * hi)))
     /\ (x - out <= 0 ->
         BoundedLiquidityPool._currentSqrtPrice (BoundedLiquidityPool.pool w')
         = BoundedLiquidityPool._currentSqrtPrice p))
  /\ (forall v w',
        BoundedLiquidityPool.swapPreTokenForBase trader preTokenAmount w
        = (inr v, w') ->
        accepted /\ v = out - out * BoundedLiquidityPool._feePercentage).
Proof.
  intros p x y lo hi out accepted. split.
  - intros (Hs & Hlo & Hhi & Ha & Hbal & Hx & Hy & Hle & Hout).
    exists (boundedSold trader preTokenAmount out w).
    split.
    { apply bounded_sell_done; try done.
      apply pre_quote_value; done. }
    pose (q := BoundedLiquidityPool.set_reserves (x - out)
                 (y + preTokenAmount) (BoundedLiquidityPool._liquidity p) p).
    change (BoundedLiquidityPool.pool
              (boundedSold trader preTokenAmount out w))
      with (repriced q).
    destruct (repriced_frame q) as (_ & _ & -> & -> & _).
    split; [done|]. split; [done|]. split.
    + intros Hrest.
      assert (Hq : 0 < BoundedLiquidityPool._minPrice q
                   /\ BoundedLiquidityPool._minPrice q
                      < BoundedLiquidityPool._maxPrice q
                   /\ 0 < BoundedLiquidityPool._baseReserve q
                   /\ 0 < BoundedLiquidityPool._preTokenReserve q).
      { cbn. fold lo hi. lra. }
      destruct Hq as (Hq1 & Hq2 & Hq3 & Hq4).
      rewrite (proj1 (repriced_price q Hq1 Hq2 Hq3) Hq4). done.
    + intros Hrest. rewrite repriced_idle; [done|]. left. done.
  - intros v w' Hrun.
    destruct (bounded_sell_cases trader preTokenAmount w)
      as [[e He]|(out' & Hs & Ha & Hbal & Hq & Hout & Hdone)].
    { fold p in He. rewrite He in Hrun. done. }
    fold p in Hs, Hbal, Hq, Hdone.
    rewrite Hdone in Hrun. injection Hrun as <- _.
    destruct (calculateSwapOutput_returns _ _ _ _ _ _ _ Hq)
      as [[Hlo Hhi] (Hin & Hy & Hx)].
    pose proof (pre_quote_short _ _ _ _ _ _ Hq) as Hle.
    rewrite pre_quote_value in Hq by done. injection Hq as Hq.
    fold x y lo hi out in Hq. subst out'.
    unfold accepted. fold x y lo hi. tauto.
Qed.

Lemma X24_single_range_sale_witness :
  exists w',
    BoundedLiquidityPool.swapPreTokenForBase "Trader1" 100 boundedFunded
    = (inr (1550 - 1550 * BoundedLiquidityPool._feePercentage), w')
    /\ BoundedLiquidityPool._baseReserve (BoundedLiquidityPool.pool w')
       = -550
    /\ BoundedLiquidityPool._preTokenReserve (BoundedLiquidityPool.pool w')
       = 2100.
Proof.
  destruct (proj1 (X24_single_range_sale "Trader1" 100 boundedFunded))
    as (w' & Hrun & Hx & Hy & _).
  { cbn. rewrite sqrt_1_4_is.
    repeat split; try lra.
    change (100 <= default 0 (Some 500)). cbn. lra. }
  exists w'. rewrite Hrun, Hx, Hy. cbn. rewrite sqrt_1_4_is.
  repeat split; try lra. do 2 f_equal. lra.
Defined.

(** ** Two buys in a row *)

(** A transfer never lowers the balance of the account it pays to. *)
Lemma transfer_recipient (from to : string) (amount : R) (t : Token.Token) :
  Token.balanceOf t to
  <= Token.balanceOf (Token.transfer from to amount t).2 to.
Proof.
  destruct (Rle_dec amount 0) as [Hle|Hpos].
  { rewrite transfer_refused by (left; done). cbn. lra. }
  destruct (Rlt_dec (Token.balanceOf t from) amount) as [Hlt|Hge].
  { rewrite transfer_refused by (right; done). cbn. lra. }
  rewrite balanceOf_transfer by lra.
  rewrite (decide_True (P := to = to)) by done.
  destruct (decide (to = from)); lra.
Qed.

(** What a buy leaves of the buyer's base tokens. *)
Lemma boundedBought_balance (trader : string) (baseAmount out : R)
    (w : BoundedLiquidityPool.World) :
  let p := BoundedLiquidityPool.pool w in
  0 < baseAmount ->
  baseAmount
  <= Token.balanceOf
       (BoundedLiquidityPool.store w (BoundedLiquidityPool._baseToken p))
       trader ->
  Token.balanceOf
    (BoundedLiquidityPool.store w (BoundedLiquidityPool._baseToken p)) trader
  - baseAmount
  <= Token.balanceOf
       (BoundedLiquidityPool.store (boundedBought trader baseAmount out w)
          (BoundedLiquidityPool._baseToken p))
       trader.
Proof.
  intros p Ha Hbal. unfold boundedBought. fold p.
  cbn [BoundedLiquidityPool.store].
  assert (Hpaid :
    Token.balanceOf
      (BoundedLiquidityPool.store w (BoundedLiquidityPool._baseToken p)) trader
    - baseAmount
    <= Token.balanceOf
         (tokenCall (BoundedLiquidityPool._baseToken p)
            (Token.transfer trader BoundedLiquidityPool.POOL baseAmount)
            (BoundedLiquidityPool.store w)
            (BoundedLiquidityPool._baseToken p))
         trader).
  { rewrite tokenCall_same, balanceOf_transfer by done.
    rewrite (decide_True (P := trader = trader)) by done.
    destruct (decide (trader = BoundedLiquidityPool.POOL)); lra. }
  destruct (decide (BoundedLiquidityPool._preToken p
                    = BoundedLiquidityPool._baseToken p)) as [Heq|Hne].
  - rewrite Heq in *. rewrite tokenCall_same.
    eapply Rle_trans; [exact Hpaid|]. apply transfer_recipient.
  - rewrite (tokenCall_other (BoundedLiquidityPool._preToken p)) by done.
    exact Hpaid.
Qed.

(** X25.  Quotes of the pool with one range do not add up.  In a trading
    pool whose pre-token reserve is the amount minted for its base reserve
    [x], as after liquidity was added on the pool's own range, a buy with
    net input [n1 < x] returns [n1 * k] for [k = sqrt (lo * hi)], and a
    second buy with net input [n2] right after it returns
    [(2 * n1 + n2) * k]; one buy of both amounts returns
    [(n1 + n2) * k]. *)
Theorem X25_quotes_do_not_add_up (trader : string) (a1 a2 : R)
    (w : BoundedLiquidityPool.World) :
  let p := BoundedLiquidityPool.pool w in
  let x := BoundedLiquidityPool._baseReserve p in
  let lo := BoundedLiquidityPool._minPrice p in
  let hi := BoundedLiquidityPool._maxPrice p in
  let k := sqrt (lo * hi) in
  let n1 := a1 - a1 * BoundedLiquidityPool._feePercentage in
  let n2 := a2 - a2 * BoundedLiquidityPool._feePercentage in
  BoundedLiquidityPool._isSettlementPhase p = false ->
  0 < lo -> lo < hi ->
  0 < x ->
  BoundedLiquidityPool._preTokenReserve p = x * k ->
  0 < a1 -> 0 < a2 -> n1 < x ->
  a1 + a2
  <= Token.balanceOf
       (BoundedLiquidityPool.store w (BoundedLiquidityPool._baseToken p))
       trader ->
  exists w1 w2 w12,
    BoundedLiquidityPool.swapBaseForPreToken trader a1 w = (inr (n1 * k), w1)
    /\ BoundedLiquidityPool.swapBaseForPreToken trader a2 w1
       = (inr ((2 * n1 + n2) * k), w2)
    /\ BoundedLiquidityPool.swapBaseForPreToken trader (a1 + a2) w
       = (inr ((n1 + n2) * k), w12).
Proof.
  intros p x lo hi k n1 n2 Hs Hlo Hhi Hx Hy Ha1 Ha2 Hn1 Hbal.
  assert (Hk : 0 < k).
  { apply sqrt_lt_R0. apply Rmult_lt_0_compat; lra. }
  assert (Hn1pos : 0 < n1) by (apply net_of_fee_pos; done).
  assert (Hn2pos : 0 < n2) by (apply net_of_fee_pos; done).
  assert (Hy' : 0 < BoundedLiquidityPool._preTokenReserve p).
  { rewrite Hy. apply Rmult_lt_0_compat; done. }
  (* the first buy *)
  assert (H1 : BoundedLiquidityPool.swapBaseForPreToken trader a1 w
               = (inr (n1 * k), boundedBought trader a1 (n1 * k) w)).
  { replace (n1 * k)
      with ((x + n1) * k - BoundedLiquidityPool._preTokenReserve p)
      by (rewrite Hy; lra).
    apply bounded_buy_closed; fold p x lo hi k n1; try done; try lra.
    rewrite Hy. nra. }
  (* one buy of both amounts *)
  assert (H12 : BoundedLiquidityPool.swapBaseForPreToken trader (a1 + a2) w
                = (inr ((n1 + n2) * k),
                   boundedBought trader (a1 + a2) ((n1 + n2) * k) w)).
  { replace ((n1 + n2) * k)
      with ((x + ((a1 + a2)
                  - (a1 + a2) * BoundedLiquidityPool._feePercentage)) * k
            - BoundedLiquidityPool._preTokenReserve p)
      by (rewrite Hy; unfold n1, n2; lra).
    apply bounded_buy_closed; fold p x lo hi k; try done; try lra.
    rewrite Hy.
    replace ((a1 + a2) - (a1 + a2) * BoundedLiquidityPool._feePercentage)
      with (n1 + n2) by (unfold n1, n2; lra).
    nra. }
  (* the second buy *)
  set (w1 := boundedBought trader a1 (n1 * k) w) in *.
  pose (q := BoundedLiquidityPool.set_reserves (x + n1)
               (BoundedLiquidityPool._preTokenReserve p - n1 * k)
               (BoundedLiquidityPool._liquidity p) p).
  assert (Hpool : BoundedLiquidityPool.pool w1 = repriced q) by reflexivity.
  destruct (repriced_frame q)
    as (Hbase & _ & Hx1 & Hy1 & Hlo1 & Hhi1 & Hs1 & _).
  cbn [q BoundedLiquidityPool.set_reserves BoundedLiquidityPool._baseToken
       BoundedLiquidityPool._baseReserve BoundedLiquidityPool._preTokenReserve
       BoundedLiquidityPool._minPrice BoundedLiquidityPool._maxPrice
       BoundedLiquidityPool._isSettlementPhase] in Hbase, Hx1, Hy1, Hlo1,
    Hhi1, Hs1.
  fold q in Hbase, Hx1, Hy1, Hlo1, Hhi1, Hs1.
  rewrite <- Hpool in Hbase, Hx1, Hy1, Hlo1, Hhi1, Hs1.
  assert (H2 : BoundedLiquidityPool.swapBaseForPreToken trader a2 w1
               = (inr ((2 * n1 + n2) * k),
                  boundedBought trader a2 ((2 * n1 + n2) * k) w1)).
  { replace ((2 * n1 + n2) * k)
      with ((BoundedLiquidityPool._baseReserve (BoundedLiquidityPool.pool w1)
             + n2)
            * sqrt (BoundedLiquidityPool._minPrice (BoundedLiquidityPool.pool w1)
                    * BoundedLiquidityPool._maxPrice
                        (BoundedLiquidityPool.pool w1))
            - BoundedLiquidityPool._preTokenReserve
                (BoundedLiquidityPool.pool w1)).
    2:{ rewrite Hx1, Hy1, Hlo1, Hhi1. fold x lo hi k. rewrite Hy. lra. }
    apply bounded_buy_closed.
    - rewrite Hlo1. done.
    - rewrite Hlo1, Hhi1. done.
    - rewrite Hs1. done.
    - done.
    - rewrite Hbase.
      pose proof (boundedBought_balance trader a1 (n1 * k) w) as Hleft.
      cbv zeta in Hleft. fold p w1 in Hleft.
      assert (a1 <= Token.balanceOf
                      (BoundedLiquidityPool.store w
                         (BoundedLiquidityPool._baseToken p)) trader) by lra.
      specialize (Hleft Ha1 H). lra.
    - rewrite Hx1. fold x. lra.
    - rewrite Hy1, Hy. fold x. nra.
    - rewrite Hx1, Hy1, Hlo1, Hhi1. fold x lo hi k n2. rewrite Hy. nra. }
  exists w1, (boundedBought trader a2 ((2 * n1 + n2) * k) w1),
    (boundedBought trader (a1 + a2) ((n1 + n2) * k) w).
  done.
Qed.

Lemma X25_quotes_do_not_add_up_witness :
  exists w1 w2 w12,
    BoundedLiquidityPool.swapBaseForPreToken "Trader1" 100 boundedFunded
    = (inr (1994 / 10), w1)
    /\ BoundedLiquidityPool.swapBaseForPreToken "Trader1" 100 w1
       = (inr (5982 / 10), w2)
    /\ BoundedLiquidityPool.swapBaseForPreToken "Trader1" (100 + 100)
         boundedFunded
       = (inr (3988 / 10), w12).
Proof.
  destruct (X25_quotes_do_not_add_up "Trader1" 100 100 boundedFunded)
    as (w1 & w2 & w12 & H1 & H2 & H12);
    try (cbn; rewrite ?sqrt_1_4_is; unfold BoundedLiquidityPool._feePercentage;
         lra).
  { change (100 + 100 <= default 0 (Some 5000)). cbn. lra. }
  exists w1, w2, w12. rewrite H1, H2, H12. cbn.
  unfold BoundedLiquidityPool._feePercentage. rewrite sqrt_1_4_is.
  repeat split; do 2 f_equal; lra.
Defined.

(** ** A quote the pool cannot pay *)

(** X30.  The pool with one range does not look at what it holds.  When
    a buy is accepted and the quote exceeds the pre-tokens on the pool's
    account, the call still returns the quote and books it: the buyer's
    payment moves to the pool's account, no pre-token moves, and the
    pre-token reserve is lowered by the quote.  (The two tokens are
    different objects and the buyer is not the pool's account.) *)
Theorem X30_unpayable_quote_keeps_the_payment
    (trader : string) (baseAmount : R) (w : BoundedLiquidityPool.World) :
  let p := BoundedLiquidityPool.pool w in
  let base := BoundedLiquidityPool._baseToken p in
  let pre := BoundedLiquidityPool._preToken p in
  let x := BoundedLiquidityPool._baseReserve p in
  let y := BoundedLiquidityPool._preTokenReserve p in
  let lo := BoundedLiquidityPool._minPrice p in
  let hi := BoundedLiquidityPool._maxPrice p in
  let net := baseAmount - baseAmount * BoundedLiquidityPool._feePercentage in
  let out := (x + net) * sqrt (lo * hi) - y in
  BoundedLiquidityPool._isSettlementPhase p = false ->
  0 < lo -> lo < hi ->
  0 < baseAmount ->
  baseAmount <= Token.balanceOf (BoundedLiquidityPool.store w base) trader ->
  0 < x -> 0 < y -> 0 < out ->
  base <> pre -> trader <> BoundedLiquidityPool.POOL ->
  Token.balanceOf (BoundedLiquidityPool.store w pre) BoundedLiquidityPool.POOL
  < out ->
  exists w',
    BoundedLiquidityPool.swapBaseForPreToken trader baseAmount w
    = (inr out, w')
    /\ Token.balanceOf (BoundedLiquidityPool.store w' base) trader
       = Token.balanceOf (BoundedLiquidityPool.store w base) trader
         - baseAmount
    /\ Token.balanceOf (BoundedLiquidityPool.store w' base)
         BoundedLiquidityPool.POOL
       = Token.balanceOf (BoundedLiquidityPool.store w base)
           BoundedLiquidityPool.POOL
         + baseAmount
    /\ BoundedLiquidityPool.store w' pre = BoundedLiquidityPool.store w pre
    /\ BoundedLiquidityPool._preTokenReserve (BoundedLiquidityPool.pool w')
       = y - out.
Proof.
  intros p base pre x y lo hi net out Hs Hlo Hhi Ha Hbal Hx Hy Hout
    Htokens Htrader Hshort.
  exists (boundedBought trader baseAmount out w).
  split; [apply bounded_buy_closed; done|].
  unfold boundedBought. fold p base pre.
  cbn [BoundedLiquidityPool.store BoundedLiquidityPool.pool].
  rewrite (tokenCall_other pre base) by done.
  rewrite (tokenCall_same base), (tokenCall_same pre).
  rewrite (tokenCall_other base pre) by done.
  rewrite !balanceOf_transfer by done.
  rewrite (decide_True (P := trader = trader)) by done.
  rewrite (decide_False (P := trader = BoundedLiquidityPool.POOL)) by done.
  rewrite (decide_False (P := BoundedLiquidityPool.POOL = trader)) by done.
  rewrite (decide_True
             (P := BoundedLiquidityPool.POOL = BoundedLiquidityPool.POOL))
    by done.
  split; [lra|]. split; [lra|]. split.
  { rewrite transfer_refused by (right; done). done. }
  match goal with |- context [repriced ?q] =>
    destruct (repriced_frame q) as (_ & _ & _ & -> & _)
  end.
  done.
Qed.

Lemma X30_unpayable_quote_keeps_the_payment_witness :
  exists w',
    BoundedLiquidityPool.swapBaseForPreToken "Trader1" 2000 boundedFunded
    = (inr 3988, w')
    /\ Token.balanceOf (BoundedLiquidityPool.store w' 0%nat) "Trader1" = 3000
    /\ Token.balanceOf (BoundedLiquidityPool.store w' 1%nat) "Trader1" = 500
    /\ BoundedLiquidityPool._preTokenReserve (BoundedLiquidityPool.pool w')
       = -1988.
Proof.
  destruct (X30_unpayable_quote_keeps_the_payment "Trader1" 2000 boundedFunded)
    as (w' & Hrun & Hpaid & _ & Hpre & Hreserve);
    try (cbn; rewrite ?sqrt_1_4_is;
         unfold BoundedLiquidityPool._feePercentage; lra);
    try done.
  { change (2000 <= default 0 (Some 5000)). cbn. lra. }
  { change (default 0 (Some 2000)
            < (1000 + (2000 - 2000 * BoundedLiquidityPool._feePercentage))
              * sqrt (1 * 4) - 2000).
    cbn. rewrite sqrt_1_4_is. unfold BoundedLiquidityPool._feePercentage.
    lra. }
  exists w'. rewrite Hrun. cbn in Hpaid, Hpre, Hreserve.
  rewrite Hpaid, Hpre, Hreserve.
  change (Token.balanceOf (BoundedLiquidityPool.store boundedFunded 0%nat)
            "Trader1") with (default 0 (Some 5000)).
  change (Token.balanceOf (BoundedLiquidityPool.store boundedFunded 1%nat)
            "Trader1") with (default 0 (Some 500)).
  cbn. unfold BoundedLiquidityPool._feePercentage. rewrite sqrt_1_4_is.
  repeat split; try lra.
  - do 2 f_equal. lra.
  - change (default 0 (Some 5000) - 2000 = 3000). cbn. lra.
Defined.

(** ** The registry *)

Lemma Map_get_Some_elem {A} (k : string) (v : A) (m : list (string * A)) :
  Map_get k m = Some v -> k ∈ m.*1.
Proof.
  induction m as [|[k' v'] m IH]; cbn; [done|].
  destruct (decide (k' = k)) as [->|Hne]; intros H.
  - left.
  - right. apply IH. done.
Qed.

Lemma Map_get_absent {A} (k : string) (m : list (string * A)) :
  Map_get k m = None -> k ∉ m.*1.
Proof.
  induction m as [|[k' v'] m IH]; cbn.
  - intros _ H. inversion H.
  - destruct (decide (k' = k)) as [->|Hne]; [done|].
    intros H Hin. apply list.elem_of_cons in Hin as [->|Hin]; [done|].
    apply IH; done.
Qed.

(** Writing back what is there changes nothing. *)
Lemma Map_set_same_value {A} (k : string) (v : A) (m : list (string * A)) :
  Map_get k m = Some v -> Js.Map_set k v m = m.
Proof.
  induction m as [|[k' v'] m IH]; cbn; [done|].
  destruct (decide (k' = k)) as [->|Hne].
  - intros [= ->]. done.
  - intros H. rewrite IH by done. done.
Qed.

(** Writing to a key that is there keeps the keys and their order. *)
Lemma Map_set_keys {A} (k : string) (v v0 : A) (m : list (string * A)) :
  Map_get k m = Some v0 -> (Js.Map_set k v m).*1 = m.*1.
Proof.
  induction m as [|[k' v'] m IH]; cbn; [done|].
  destruct (decide (k' = k)) as [->|Hne]; cbn.
  - done.
  - intros H. rewrite IH by done. done.
Qed.

Lemma onPool_unknown {A} (poolId : string)
    (method : BoundedLiquidityPool.M A) (w : WPreMarketAMM.World) :
  poolAt poolId w = None ->
  WPreMarketAMM.onPool poolId method w = (inl PoolDoesNotExist, w).
Proof.
  unfold poolAt, WPreMarketAMM.getAllPools, WPreMarketAMM.onPool,
    WPreMarketAMM.getPool.
  intros ->. done.
Qed.

Lemma onPool_known {A} (poolId : string)
    (method : BoundedLiquidityPool.M A) (w : WPreMarketAMM.World)
    (pool : BoundedLiquidityPool.t) :
  poolAt poolId w = Some pool ->
  WPreMarketAMM.onPool poolId method w
  = ((method (BoundedLiquidityPool.mkWorld (WPreMarketAMM.store w) pool)).1,
     WPreMarketAMM.mkWorld
       (BoundedLiquidityPool.store
          (method (BoundedLiquidityPool.mkWorld (WPreMarketAMM.store w) pool)).2)
       (WPreMarketAMM.mk
          (Js.Map_set poolId
             (BoundedLiquidityPool.pool
                (method
                   (BoundedLiquidityPool.mkWorld (WPreMarketAMM.store w) pool)).2)
             (WPreMarketAMM._liquidityPools (WPreMarketAMM.amm w)))
          (WPreMarketAMM._isSettlementPhase (WPreMarketAMM.amm w)))).
Proof.
  unfold poolAt, WPreMarketAMM.getAllPools, WPreMarketAMM.onPool,
    WPreMarketAMM.getPool.
  intros ->.
  destruct (method (BoundedLiquidityPool.mkWorld (WPreMarketAMM.store w) pool))
    as [r pw].
  done.
Qed.

(** A method that left the pool and the tokens alone leaves the registry
    alone. *)
Lemma onPool_idle {A} (poolId : string)
    (method : BoundedLiquidityPool.M A) (w : WPreMarketAMM.World)
    (pool : BoundedLiquidityPool.t) :
  poolAt poolId w = Some pool ->
  (method (BoundedLiquidityPool.mkWorld (WPreMarketAMM.store w) pool)).2
  = BoundedLiquidityPool.mkWorld (WPreMarketAMM.store w) pool ->
  (WPreMarketAMM.onPool poolId method w).2 = w.
Proof.
  intros Hat Hidle. rewrite (onPool_known _ _ _ _ Hat), Hidle.
  cbn [snd BoundedLiquidityPool.store BoundedLiquidityPool.pool].
  rewrite Map_set_same_value by exact Hat.
  destruct w as [st [pools flag]]. done.
Qed.

(** A method that changes nothing when it throws changes nothing of the
    registry either. *)
Lemma onPool_fails {A} (poolId : string)
    (method : BoundedLiquidityPool.M A) (w : WPreMarketAMM.World)
    (e : Thrown) :
  (forall pw e', (method pw).1 = inl e' -> (method pw).2 = pw) ->
  (WPreMarketAMM.onPool poolId method w).1 = inl e ->
  (WPreMarketAMM.onPool poolId method w).2 = w.
Proof.
  intros Hclean.
  destruct (poolAt poolId w) as [pool|] eqn:Hat.
  - intros Hr. apply (onPool_idle _ _ _ _ Hat).
    rewrite (onPool_known _ _ _ _ Hat) in Hr. cbn [fst] in Hr.
    apply (Hclean _ e). done.
  - rewrite onPool_unknown by done. done.
Qed.

(** X28.  A call of the registry that throws has changed nothing: not the
    map of pools, not a pool, not the flag, not a token.  A method called
    with an id under which there is no pool throws "does not exist";
    [getPrice] included. *)
Theorem X28_registry_fails_cleanly (w : WPreMarketAMM.World) :
  (forall op e, (ammExec op w).1 = inl e -> ammStep w op = w)
  /\ (forall poolId,
        poolAt poolId w = None ->
        (forall lpProvider baseAmount minPrice maxPrice,
           WPreMarketAMM.addLiquidity poolId lpProvider baseAmount minPrice
             maxPrice w
           = (inl PoolDoesNotExist, w))
        /\ (forall trader baseAmount,
              WPreMarketAMM.swapBaseForPreToken poolId trader baseAmount w
              = (inl PoolDoesNotExist, w))
        /\ (forall trader preTokenAmount,
              WPreMarketAMM.swapPreTokenForBase poolId trader preTokenAmount w
              = (inl PoolDoesNotExist, w))
        /\ (forall realToken,
              WPreMarketAMM.enterSettlementPhase poolId realToken w
              = (inl PoolDoesNotExist, w))
        /\ WPreMarketAMM.getPrice poolId w = (inl PoolDoesNotExist, w)
        /\ WPreMarketAMM.getPool poolId w = (inl PoolDoesNotExist, w)).
Proof.
  split.
  - intros op e. unfold ammStep.
    destruct op as [b p lo hi|id lp a lo hi|id trader a|id trader a|id r|tok op];
      cbn [ammExec]; unfold ammReturning; cbn [fst snd].
    + unfold WPreMarketAMM.createPool.
      destruct (WPreMarketAMM.Map_has _ _); done.
    + unfold WPreMarketAMM.addLiquidity.
      destruct (WPreMarketAMM.onPool id _ w).1 as [e'|v] eqn:Hr; [|done].
      intros _. apply (onPool_fails _ _ _ e'); [|done].
      intros pw e0. apply bounded_add_fails.
    + unfold WPreMarketAMM.swapBaseForPreToken.
      destruct (WPreMarketAMM.onPool id _ w).1 as [e'|v] eqn:Hr; [|done].
      intros _. apply (onPool_fails _ _ _ e'); [|done].
      intros pw e0. apply bounded_buy_fails.
    + unfold WPreMarketAMM.swapPreTokenForBase.
      destruct (WPreMarketAMM.onPool id _ w).1 as [e'|v] eqn:Hr; [|done].
      intros _. apply (onPool_fails _ _ _ e'); [|done].
      intros pw e0. apply bounded_sell_fails.
    + unfold WPreMarketAMM.enterSettlementPhase.
      destruct (WPreMarketAMM.onPool id
                  (BoundedLiquidityPool.enterSettlementPhase r) w)
        as [[e'|v] w'] eqn:Hr; [|done].
      intros _. cbn [snd].
      change w' with (inl (B := unit) e', w').2. rewrite <- Hr.
      apply (onPool_fails _ _ _ e'); [|rewrite Hr; done].
      intros pw e0. apply bounded_settle_fails.
    + destruct (applyTokenOp op (WPreMarketAMM.store w tok)). done.
  - intros poolId Hat.
    unfold WPreMarketAMM.addLiquidity, WPreMarketAMM.swapBaseForPreToken,
      WPreMarketAMM.swapPreTokenForBase, WPreMarketAMM.enterSettlementPhase,
      WPreMarketAMM.getPrice.
    assert (Hget : WPreMarketAMM.getPool poolId w = (inl PoolDoesNotExist, w)).
    { unfold WPreMarketAMM.getPool. unfold poolAt, WPreMarketAMM.getAllPools in Hat.
      rewrite Hat. done. }
    repeat split; intros; rewrite ?onPool_unknown, ?Hget by done; done.
Qed.

(** The registry of the simulation. *)
Lemma simulated_state :
  simulated
  = WPreMarketAMM.mkWorld
      (tokensOf (usdc 10000 {[ "LP1" := 10000 ]}) (preX 0 ∅))
      (WPreMarketAMM.mk
         [("USDC-pX", BoundedLiquidityPool.constructor 0%nat 1%nat 1 5 None)]
         false).
Proof. reflexivity. Qed.

Lemma X28_registry_fails_cleanly_witness :
  ammStep simulated (CreatePool 0%nat 1%nat 2 3) = simulated.
Proof.
  apply (proj1 (X28_registry_fails_cleanly simulated) _ PoolAlreadyExists).
  rewrite simulated_state. reflexivity.
Defined.

Lemma Map_has_true {A} (k : string) (m : list (string * A)) :
  WPreMarketAMM.Map_has k m = true <-> Map_get k m <> None.
Proof. unfold WPreMarketAMM.Map_has. destruct (Map_get k m); split; done. Qed.

Lemma Map_has_false {A} (k : string) (m : list (string * A)) :
  WPreMarketAMM.Map_has k m = false <-> Map_get k m = None.
Proof. unfold WPreMarketAMM.Map_has. destruct (Map_get k m); split; done. Qed.

(** The world [createPool] leaves behind when the id is free. *)
Lemma createPool_done (baseToken preToken : TokenRef) (minPrice maxPrice : R)
    (w : WPreMarketAMM.World) :
  let poolId := WPreMarketAMM.poolIdOf (WPreMarketAMM.store w)
                  baseToken preToken in
  poolAt poolId w = None ->
  WPreMarketAMM.createPool baseToken preToken minPrice maxPrice w
  = (inr poolId,
     WPreMarketAMM.mkWorld (WPreMarketAMM.store w)
       (WPreMarketAMM.mk
          (Js.Map_set poolId
             (BoundedLiquidityPool.constructor baseToken preToken minPrice
                maxPrice None)
             (WPreMarketAMM._liquidityPools (WPreMarketAMM.amm w)))
          (WPreMarketAMM._isSettlementPhase (WPreMarketAMM.amm w)))).
Proof.
  intros poolId Hfree. unfold WPreMarketAMM.createPool. fold poolId.
  rewrite (proj2 (Map_has_false _ _)) by exact Hfree. done.
Qed.

Lemma createPool_refused (baseToken preToken : TokenRef)
    (minPrice maxPrice : R) (w : WPreMarketAMM.World) :
  poolAt (WPreMarketAMM.poolIdOf (WPreMarketAMM.store w) baseToken preToken) w
  <> None ->
  WPreMarketAMM.createPool baseToken preToken minPrice maxPrice w
  = (inl PoolAlreadyExists, w).
Proof.
  intros Htaken. unfold WPreMarketAMM.createPool.
  rewrite (proj2 (Map_has_true _ _)) by exact Htaken. done.
Qed.

(** X26.  [createPool] gives the pool the id "base symbol-pre symbol".
    When no pool has that id it returns the id and appends a pool that was
    constructed from the two tokens and the two bounds as they were
    passed, whatever the bounds are: the tokens and the other pools stay,
    [getPool] finds the new pool, and its price is [minPrice] when that is
    not negative.  When a pool has that id the call throws "already
    exists". *)
Theorem X26_createPool (baseToken preToken : TokenRef) (minPrice maxPrice : R)
    (w : WPreMarketAMM.World) :
  let poolId := WPreMarketAMM.poolIdOf (WPreMarketAMM.store w)
                  baseToken preToken in
  let created :=
    BoundedLiquidityPool.constructor baseToken preToken minPrice maxPrice
      None in
  (poolAt poolId w = None ->
   exists w',
     WPreMarketAMM.createPool baseToken preToken minPrice maxPrice w
     = (inr poolId, w')
     /\ WPreMarketAMM.store w' = WPreMarketAMM.store w
     /\ WPreMarketAMM.getAllPools (WPreMarketAMM.amm w')
        = WPreMarketAMM.getAllPools (WPreMarketAMM.amm w)
          ++ [(poolId, created)]
     /\ WPreMarketAMM.getPool poolId w' = (inr created, w')
     /\ (forall other, other <> poolId -> poolAt other w' = poolAt other w)
     /\ (0 <= minPrice -> WPreMarketAMM.getPrice poolId w' = (inr minPrice, w')))
  /\ (poolAt poolId w <> None ->
      WPreMarketAMM.createPool baseToken preToken minPrice maxPrice w
      = (inl PoolAlreadyExists, w)).
Proof.
  intros poolId created. split.
  - intros Hfree. eexists. split; [apply createPool_done; exact Hfree|].
    fold poolId created.
    assert (Hget : WPreMarketAMM.getPool poolId
                     (WPreMarketAMM.mkWorld (WPreMarketAMM.store w)
                        (WPreMarketAMM.mk
                           (Js.Map_set poolId created
                              (WPreMarketAMM._liquidityPools
                                 (WPreMarketAMM.amm w)))
                           (WPreMarketAMM._isSettlementPhase
                              (WPreMarketAMM.amm w))))
                   = (inr created,
                      WPreMarketAMM.mkWorld (WPreMarketAMM.store w)
                        (WPreMarketAMM.mk
                           (Js.Map_set poolId created
                              (WPreMarketAMM._liquidityPools
                                 (WPreMarketAMM.amm w)))
                           (WPreMarketAMM._isSettlementPhase
                              (WPreMarketAMM.amm w))))).
    { unfold WPreMarketAMM.getPool.
      cbn [WPreMarketAMM.amm WPreMarketAMM._liquidityPools].
      rewrite Map_get_set_same. done. }
    split; [done|]. split.
    { unfold WPreMarketAMM.getAllPools.
      cbn [WPreMarketAMM.amm WPreMarketAMM._liquidityPools].
      apply Map_set_fresh, Map_get_absent. exact Hfree. }
    split; [exact Hget|]. split.
    { intros other Hne. unfold poolAt, WPreMarketAMM.getAllPools.
      cbn [WPreMarketAMM.amm WPreMarketAMM._liquidityPools].
      apply Map_get_set_other. done. }
    intros Hlo. unfold WPreMarketAMM.getPrice. rewrite Hget.
    do 2 f_equal. unfold BoundedLiquidityPool.getCurrentPrice, created.
    cbn. apply sqrt_sqrt. done.
  - apply createPool_refused.
Qed.

Lemma X26_createPool_witness :
  exists w',
    WPreMarketAMM.createPool 0%nat 1%nat 1 5
      (ammInitial (tokensOf (usdc 10000 {[ "LP1" := 10000 ]}) (preX 0 ∅)))
    = (inr "USDC-pX", w')
    /\ WPreMarketAMM.getPrice "USDC-pX" w' = (inr 1, w').
Proof.
  destruct (proj1 (X26_createPool 0%nat 1%nat 1 5
                     (ammInitial (tokensOf (usdc 10000 {[ "LP1" := 10000 ]})
                                           (preX 0 ∅)))) eq_refl)
    as (w' & Hrun & _ & _ & _ & _ & Hprice).
  exists w'. split; [exact Hrun|]. apply Hprice. lra.
Defined.

(** ** What a call keeps *)

Lemma symbol_transfer (from to : string) (amount : R) (t : Token.Token) :
  Token._symbol (Token.transfer from to amount t).2 = Token._symbol t.
Proof. unfold Token.transfer. destruct (_ || _); done. Qed.

Lemma symbol_mint (to : string) (amount : R) (t : Token.Token) :
  Token._symbol (Token.mint to amount t).2 = Token._symbol t.
Proof. unfold Token.mint. destruct (Num.leb amount 0); done. Qed.

Lemma symbol_burn (from : string) (amount : R) (t : Token.Token) :
  Token._symbol (Token.burn from amount t).2 = Token._symbol t.
Proof. unfold Token.burn. destruct (_ || _); done. Qed.

Lemma symbol_applyTokenOp (op : TokenOp) (t : Token.Token) :
  Token._symbol (applyTokenOp op t).2 = Token._symbol t.
Proof.
  destruct op; cbn [applyTokenOp];
    [apply symbol_mint | apply symbol_burn | apply symbol_transfer].
Qed.

Lemma symbol_tokenCall {A} (r : TokenRef) (f : Token.Token -> A * Token.Token)
    (tokens : TokenRef -> Token.Token) (r' : TokenRef) :
  (forall t, Token._symbol (f t).2 = Token._symbol t) ->
  Token._symbol (tokenCall r f tokens r') = Token._symbol (tokens r').
Proof.
  intros Hf. destruct (decide (r = r')) as [<-|Hne].
  - rewrite tokenCall_same. apply Hf.
  - rewrite tokenCall_other by done. done.
Qed.

Lemma poolKept_refl (pw : BoundedLiquidityPool.World) : poolKept pw pw.
Proof. unfold poolKept. tauto. Qed.

Lemma poolKept_add (owner : string) (baseAmount pa pb : R)
    (pw : BoundedLiquidityPool.World) :
  poolKept pw (BoundedLiquidityPool.addLiquidity owner baseAmount pa pb pw).2.
Proof.
  destruct (bounded_add_cases owner baseAmount pa pb pw)
    as [[e ->]|(_ & _ & _ & _ & _ & ->)]; [apply poolKept_refl|].
  cbn [snd]. unfold poolKept, boundedAdded, boundedAddedPool.
  cbn [BoundedLiquidityPool.store BoundedLiquidityPool.pool].
  split.
  { intros r. rewrite !symbol_tokenCall; [done| |].
    - intros t. apply symbol_transfer.
    - intros t. apply symbol_mint. }
  destruct (negb _ && _); cbn; tauto.
Qed.

Lemma poolKept_buy (trader : string) (baseAmount : R)
    (pw : BoundedLiquidityPool.World) :
  poolKept pw (BoundedLiquidityPool.swapBaseForPreToken trader baseAmount pw).2.
Proof.
  destruct (bounded_buy_cases trader baseAmount pw)
    as [[e ->]|(out & _ & _ & _ & _ & _ & ->)]; [apply poolKept_refl|].
  cbn [snd]. unfold poolKept, boundedBought.
  cbn [BoundedLiquidityPool.store BoundedLiquidityPool.pool].
  split.
  { intros r. rewrite !symbol_tokenCall; [done| |];
      intros t; apply symbol_transfer. }
  match goal with |- context [repriced ?q] =>
    destruct (repriced_frame q) as (-> & -> & _ & _ & -> & -> & -> & -> & _)
  end.
  cbn. tauto.
Qed.

Lemma poolKept_sell (trader : string) (preTokenAmount : R)
    (pw : BoundedLiquidityPool.World) :
  poolKept pw
    (BoundedLiquidityPool.swapPreTokenForBase trader preTokenAmount pw).2.
Proof.
  destruct (bounded_sell_cases trader preTokenAmount pw)
    as [[e ->]|(out & _ & _ & _ & _ & _ & ->)]; [apply poolKept_refl|].
  cbn [snd]. unfold poolKept, boundedSold.
  cbn [BoundedLiquidityPool.store BoundedLiquidityPool.pool].
  split.
  { intros r. rewrite !symbol_tokenCall; [done| |];
      intros t; apply symbol_transfer. }
  match goal with |- context [repriced ?q] =>
    destruct (repriced_frame q) as (-> & -> & _ & _ & -> & -> & -> & -> & _)
  end.
  cbn. tauto.
Qed.

Lemma poolKept_settle (realToken : TokenRef)
    (pw : BoundedLiquidityPool.World) :
  poolKept pw (BoundedLiquidityPool.enterSettlementPhase realToken pw).2.
Proof.
  destruct (bounded_settle_cases realToken pw) as [[e ->]|[_ ->]];
    [apply poolKept_refl|].
  cbn [snd]. unfold poolKept. cbn. tauto.
Qed.

(** What a call of the registry does to the pool it is addressed to and
    to the others. *)
Lemma onPool_after {A} (poolId : string)
    (method : BoundedLiquidityPool.M A) (w : WPreMarketAMM.World) :
  (forall pw, poolKept pw (method pw).2) ->
  let w' := (WPreMarketAMM.onPool poolId method w).2 in
  (forall r,
     Token._symbol (WPreMarketAMM.store w' r)
     = Token._symbol (WPreMarketAMM.store w r))
  /\ (forall other, other <> poolId -> poolAt other w' = poolAt other w)
  /\ poolIds w' = poolIds w
  /\ WPreMarketAMM._isSettlementPhase (WPreMarketAMM.amm w')
     = WPreMarketAMM._isSettlementPhase (WPreMarketAMM.amm w)
  /\ (forall pool,
        poolAt poolId w = Some pool ->
        poolAt poolId w'
        = Some (BoundedLiquidityPool.pool
                  (method (BoundedLiquidityPool.mkWorld
                             (WPreMarketAMM.store w) pool)).2)).
Proof.
  intros Hkept w'. subst w'.
  destruct (poolAt poolId w) as [pool|] eqn:Hat.
  - rewrite (onPool_known _ _ _ _ Hat). cbn [snd].
    destruct (Hkept (BoundedLiquidityPool.mkWorld (WPreMarketAMM.store w) pool))
      as (Hsym & _).
    unfold poolAt, poolIds, WPreMarketAMM.getAllPools in *.
    cbn [WPreMarketAMM.store WPreMarketAMM.amm WPreMarketAMM._liquidityPools
         WPreMarketAMM._isSettlementPhase].
    split; [exact Hsym|]. split.
    { intros other Hne. apply Map_get_set_other. done. }
    split; [eapply Map_set_keys; exact Hat|]. split; [done|].
    intros pool' [= <-]. apply Map_get_set_same.
  - rewrite onPool_unknown by done. cbn [snd]. repeat split; done.
Qed.

Lemma sameMarket_refl (pool : BoundedLiquidityPool.t) : sameMarket pool pool.
Proof. unfold sameMarket. tauto. Qed.

(** What entering the settlement phase through the registry adds to the
    call of the pool: the flag of the registry. *)
Lemma enterSettlementPhase_world (poolId : string) (realToken : TokenRef)
    (w : WPreMarketAMM.World) :
  let w1 :=
    (WPreMarketAMM.onPool poolId
       (BoundedLiquidityPool.enterSettlementPhase realToken) w).2 in
  let w' := (WPreMarketAMM.enterSettlementPhase poolId realToken w).2 in
  WPreMarketAMM.store w' = WPreMarketAMM.store w1
  /\ WPreMarketAMM._liquidityPools (WPreMarketAMM.amm w')
     = WPreMarketAMM._liquidityPools (WPreMarketAMM.amm w1).
Proof.
  unfold WPreMarketAMM.enterSettlementPhase.
  destruct (WPreMarketAMM.onPool poolId
              (BoundedLiquidityPool.enterSettlementPhase realToken) w)
    as [[e|v] w1]; done.
Qed.

(** A world that has the tokens and the pools a delegating call leaves
    behind, seen from every pool. *)
Lemma delegate_after {A} (poolId : string)
    (method : BoundedLiquidityPool.M A) (w w' : WPreMarketAMM.World) :
  (forall pw, poolKept pw (method pw).2) ->
  WPreMarketAMM.store w'
  = WPreMarketAMM.store (WPreMarketAMM.onPool poolId method w).2 ->
  WPreMarketAMM._liquidityPools (WPreMarketAMM.amm w')
  = WPreMarketAMM._liquidityPools
      (WPreMarketAMM.amm (WPreMarketAMM.onPool poolId method w).2) ->
  (forall r,
     Token._symbol (WPreMarketAMM.store w' r)
     = Token._symbol (WPreMarketAMM.store w r))
  /\ (forall other,
        Some poolId <> Some other -> poolAt other w' = poolAt other w)
  /\ (forall id pool,
        poolAt id w = Some pool ->
        exists pool',
          poolAt id w' = Some pool'
          /\ sameMarket pool pool'
          /\ (BoundedLiquidityPool._initialPriceSet pool = true ->
              BoundedLiquidityPool._initialPriceSet pool' = true)
          /\ (BoundedLiquidityPool._isSettlementPhase pool = true ->
              BoundedLiquidityPool._isSettlementPhase pool' = true))
  /\ (poolIds w' = poolIds w
      \/ exists id,
           Some poolId = Some id /\ poolAt id w = None
           /\ poolIds w' = poolIds w ++ [id]).
Proof.
  intros Hkept Hstore Hpools.
  destruct (onPool_after poolId method w Hkept)
    as (Hsym & Hother & Hids & _ & Hself).
  assert (Hat : forall id,
            poolAt id w'
            = poolAt id (WPreMarketAMM.onPool poolId method w).2).
  { intros id. unfold poolAt, WPreMarketAMM.getAllPools.
    rewrite Hpools. done. }
  split; [intros r; rewrite Hstore; apply Hsym|]. split.
  { intros other Hne. rewrite Hat. apply Hother. congruence. }
  split.
  { intros id pool Hpool. rewrite Hat.
    destruct (decide (id = poolId)) as [->|Hne].
    - rewrite (Hself _ Hpool). eexists. split; [done|].
      destruct (Hkept (BoundedLiquidityPool.mkWorld
                         (WPreMarketAMM.store w) pool))
        as (_ & H1 & H2 & H3 & H4 & H5 & H6).
      unfold sameMarket. cbn in *. tauto.
    - rewrite Hother by done. exists pool.
      split; [done|]. split; [apply sameMarket_refl|]. tauto. }
  left. unfold poolIds, WPreMarketAMM.getAllPools. rewrite Hpools.
  exact Hids.
Qed.

(** One call of a history, seen from every pool. *)
Lemma ammStep_after (w : WPreMarketAMM.World) (op : AmmOp) :
  let w' := ammStep w op in
  (forall r,
     Token._symbol (WPreMarketAMM.store w' r)
     = Token._symbol (WPreMarketAMM.store w r))
  /\ (forall other,
        target op w <> Some other -> poolAt other w' = poolAt other w)
  /\ (forall poolId pool,
        poolAt poolId w = Some pool ->
        exists pool',
          poolAt poolId w' = Some pool'
          /\ sameMarket pool pool'
          /\ (BoundedLiquidityPool._initialPriceSet pool = true ->
              BoundedLiquidityPool._initialPriceSet pool' = true)
          /\ (BoundedLiquidityPool._isSettlementPhase pool = true ->
              BoundedLiquidityPool._isSettlementPhase pool' = true))
  /\ (poolIds w' = poolIds w
      \/ exists poolId,
           target op w = Some poolId /\ poolAt poolId w = None
           /\ poolIds w' = poolIds w ++ [poolId]).
Proof.
  intros w'. subst w'. unfold ammStep.
  destruct op as [b p lo hi|id lp a lo hi|id trader a|id trader a|id r|tok op];
    cbn [ammExec target]; unfold ammReturning; cbn [snd].
  - destruct (poolAt (WPreMarketAMM.poolIdOf (WPreMarketAMM.store w) b p) w)
      as [pool|] eqn:Hat.
    + rewrite createPool_refused by (rewrite Hat; done). cbn [snd].
      split; [done|]. split; [done|]. split; [|left; done].
      intros id pool' Hpool. exists pool'.
      split; [done|]. split; [apply sameMarket_refl|]. tauto.
    + rewrite createPool_done by done. cbn [snd].
      unfold poolAt, poolIds, WPreMarketAMM.getAllPools in *.
      cbn [WPreMarketAMM.store WPreMarketAMM.amm
           WPreMarketAMM._liquidityPools].
      split; [done|]. split.
      { intros other Hne. apply Map_get_set_other. congruence. }
      split.
      { intros id pool Hpool. exists pool.
        rewrite Map_get_set_other by congruence.
        split; [done|]. split; [apply sameMarket_refl|]. tauto. }
      right. eexists. split; [done|]. split; [done|].
      rewrite Map_set_fresh by (apply Map_get_absent; done).
      rewrite fmap_app. done.
  - apply (delegate_after id (BoundedLiquidityPool.addLiquidity lp a lo hi));
      [intros pw; apply poolKept_add|done|done].
  - apply (delegate_after id
             (BoundedLiquidityPool.swapBaseForPreToken trader a));
      [intros pw; apply poolKept_buy|done|done].
  - apply (delegate_after id
             (BoundedLiquidityPool.swapPreTokenForBase trader a));
      [intros pw; apply poolKept_sell|done|done].
  - destruct (enterSettlementPhase_world id r w) as [Hstore Hpools].
    apply (delegate_after id (BoundedLiquidityPool.enterSettlementPhase r));
      [intros pw; apply poolKept_settle|done|done].
  - destruct (applyTokenOp op (WPreMarketAMM.store w tok)) as [b t'] eqn:E.
    cbn [snd]. unfold poolAt, poolIds.
    cbn [WPreMarketAMM.store WPreMarketAMM.amm].
    split.
    { intros r. destruct (decide (tok = r)) as [<-|Hne].
      - rewrite fn_lookup_insert.
        change t' with (b, t').2. rewrite <- E. apply symbol_applyTokenOp.
      - rewrite fn_lookup_insert_ne by done. done. }
    split; [done|]. split; [|left; done].
    intros id pool Hpool. exists pool.
    split; [done|]. split; [apply sameMarket_refl|]. tauto.
Qed.

(** X29.  A call of the registry touches one pool.  Every pool other than
    the one the call is addressed to is afterwards what it was; no pool is
    removed, and a pool keeps its two tokens and its bounds and, once
    settling, stays so; the ids keep their order, and only a [createPool]
    that found its id free adds one, at the end.  (The tokens are shared:
    the pools of one base token hold their funds in the one account
    "POOL" of that token.) *)
Theorem X29_a_call_touches_one_pool (w : WPreMarketAMM.World) (op : AmmOp) :
  let w' := ammStep w op in
  (forall other,
     target op w <> Some other -> poolAt other w' = poolAt other w)
  /\ (forall poolId pool,
        poolAt poolId w = Some pool ->
        exists pool',
          poolAt poolId w' = Some pool'
          /\ sameMarket pool pool'
          /\ (BoundedLiquidityPool._isSettlementPhase pool = true ->
              BoundedLiquidityPool._isSettlementPhase pool' = true))
  /\ (poolIds w' = poolIds w
      \/ exists poolId,
           target op w = Some poolId /\ poolAt poolId w = None
           /\ poolIds w' = poolIds w ++ [poolId]).
Proof.
  intros w'. subst w'.
  destruct (ammStep_after w op) as (_ & Hother & Hsame & Hids).
  split; [exact Hother|]. split; [|exact Hids].
  intros poolId pool Hat.
  destruct (Hsame poolId pool Hat) as (pool' & H1 & H2 & _ & H3).
  exists pool'. done.
Qed.

Lemma X29_a_call_touches_one_pool_witness :
  poolAt "USDC-pX" (ammStep simulated (CreatePool 1%nat 0%nat 2 3))
  = poolAt "USDC-pX" simulated.
Proof.
  apply (proj1 (X29_a_call_touches_one_pool simulated
                  (CreatePool 1%nat 0%nat 2 3))).
  rewrite simulated_state. cbn. discriminate.
Defined.

(** ** Histories of a registry *)

Lemma ammRun_cons (op : AmmOp) (ops : list AmmOp) (w : WPreMarketAMM.World) :
  ammRun (op :: ops) w = ammRun ops (ammStep w op).
Proof. done. Qed.

Lemma ammRun_after (ops : list AmmOp) (w : WPreMarketAMM.World) :
  (forall r,
     Token._symbol (WPreMarketAMM.store (ammRun ops w) r)
     = Token._symbol (WPreMarketAMM.store w r))
  /\ (forall poolId,
        poolAt poolId w <> None -> poolAt poolId (ammRun ops w) <> None)
  /\ poolIds w `prefix_of` poolIds (ammRun ops w).
Proof.
  revert w. induction ops as [|op ops IH]; intros w.
  - cbn. repeat split; done.
  - rewrite ammRun_cons.
    destruct (IH (ammStep w op)) as (Hsym & Hkeep & Hids).
    destruct (ammStep_after w op) as (Hsym1 & _ & Hsame & Hids1).
    split; [intros r; rewrite Hsym; apply Hsym1|]. split.
    + intros poolId Hat. apply Hkeep.
      destruct (poolAt poolId w) as [pool|] eqn:E; [|done].
      destruct (Hsame poolId pool E) as (pool' & -> & _). done.
    + etrans; [|exact Hids].
      destruct Hids1 as [->|(poolId & _ & _ & ->)]; [done|].
      apply prefix_app_r. done.
Qed.

(** X27.  Pool ids are taken for good.  Over any history of a registry
    the ids that are there stay, in their order; two tokens keep the id
    their symbols give them; and [createPool] for tokens whose id was
    taken before the history throws "already exists" after it and changes
    nothing.  The id is the two symbols joined by a hyphen, so other
    tokens with these symbols, and tokens whose symbols join to the same
    string, are refused as well. *)
Theorem X27_pool_ids_are_taken_for_good
    (w : WPreMarketAMM.World) (ops : list AmmOp) :
  let w' := ammRun ops w in
  poolIds w `prefix_of` poolIds w'
  /\ (forall baseToken preToken,
        WPreMarketAMM.poolIdOf (WPreMarketAMM.store w') baseToken preToken
        = WPreMarketAMM.poolIdOf (WPreMarketAMM.store w) baseToken preToken)
  /\ (forall baseToken preToken minPrice maxPrice,
        poolAt
          (WPreMarketAMM.poolIdOf (WPreMarketAMM.store w) baseToken preToken) w
        <> None ->
        WPreMarketAMM.createPool baseToken preToken minPrice maxPrice w'
        = (inl PoolAlreadyExists, w')).
Proof.
  intros w'. subst w'.
  destruct (ammRun_after ops w) as (Hsym & Hkeep & Hids).
  assert (Hid : forall baseToken preToken,
            WPreMarketAMM.poolIdOf (WPreMarketAMM.store (ammRun ops w))
              baseToken preToken
            = WPreMarketAMM.poolIdOf (WPreMarketAMM.store w)
                baseToken preToken).
  { intros b p. unfold WPreMarketAMM.poolIdOf. rewrite !Hsym. done. }
  split; [exact Hids|]. split; [exact Hid|].
  intros b p lo hi Htaken. apply createPool_refused.
  rewrite Hid. apply Hkeep. exact Htaken.
Qed.

Lemma clashing_state :
  clashing
  = WPreMarketAMM.mkWorld clashingTokens
      (WPreMarketAMM.mk
         [("A-B-C", BoundedLiquidityPool.constructor 0%nat 1%nat 1 5 None)]
         false).
Proof. reflexivity. Qed.

Lemma X27_pool_ids_are_taken_for_good_witness :
  WPreMarketAMM.createPool 2%nat 3%nat 10 20
    (ammRun [OnToken 2%nat (MintOp "LP1" 10)] clashing)
  = (inl PoolAlreadyExists, ammRun [OnToken 2%nat (MintOp "LP1" 10)] clashing).
Proof.
  apply (proj2 (proj2 (X27_pool_ids_are_taken_for_good clashing
                         [OnToken 2%nat (MintOp "LP1" 10)]))).
  rewrite clashing_state. cbn. discriminate.
Defined.

(** ** The price of a pool of the registry *)

Lemma getPrice_value (poolId : string) (w : WPreMarketAMM.World) :
  (WPreMarketAMM.getPrice poolId w).1
  = match poolAt poolId w with
    | Some pool => inr (BoundedLiquidityPool.getCurrentPrice pool)
    | None => inl PoolDoesNotExist
    end.
Proof.
  unfold WPreMarketAMM.getPrice, WPreMarketAMM.getPool, poolAt,
    WPreMarketAMM.getAllPools.
  destruct (Map_get poolId _); done.
Qed.

(** A pool that appears was constructed by [createPool]. *)
Lemma ammStep_created (w : WPreMarketAMM.World) (op : AmmOp)
    (poolId : string) (pool : BoundedLiquidityPool.t) :
  poolAt poolId w = None ->
  poolAt poolId (ammStep w op) = Some pool ->
  exists baseToken preToken minPrice maxPrice,
    op = CreatePool baseToken preToken minPrice maxPrice
    /\ pool = BoundedLiquidityPool.constructor baseToken preToken minPrice
                maxPrice None.
Proof.
  intros Hnone Hsome.
  destruct (ammStep_after w op) as (_ & Hother & _ & Hids).
  destruct (decide (target op w = Some poolId)) as [Htarget|Hne].
  2:{ rewrite (Hother poolId Hne), Hnone in Hsome. done. }
  destruct op as [b p lo hi|id lp a lo hi|id trader a|id trader a|id r|tok op];
    cbn [target] in Htarget; try done;
    injection Htarget as Htarget; subst poolId.
  - exists b, p, lo, hi. split; [done|].
    unfold ammStep in Hsome. cbn [ammExec] in Hsome.
    unfold ammReturning in Hsome. cbn [snd] in Hsome.
    rewrite createPool_done in Hsome by done. cbn [snd] in Hsome.
    unfold poolAt, WPreMarketAMM.getAllPools in Hsome.
    cbn [WPreMarketAMM.amm WPreMarketAMM._liquidityPools] in Hsome.
    rewrite Map_get_set_same in Hsome. congruence.
  - unfold ammStep in Hsome. cbn [ammExec] in Hsome.
    unfold ammReturning, WPreMarketAMM.addLiquidity in Hsome.
    rewrite onPool_unknown in Hsome by done. cbn [snd] in Hsome. congruence.
  - unfold ammStep in Hsome. cbn [ammExec] in Hsome.
    unfold ammReturning, WPreMarketAMM.swapBaseForPreToken in Hsome.
    rewrite onPool_unknown in Hsome by done. cbn [snd] in Hsome. congruence.
  - unfold ammStep in Hsome. cbn [ammExec] in Hsome.
    unfold ammReturning, WPreMarketAMM.swapPreTokenForBase in Hsome.
    rewrite onPool_unknown in Hsome by done. cbn [snd] in Hsome. congruence.
  - unfold ammStep in Hsome. cbn [ammExec] in Hsome.
    unfold ammReturning, WPreMarketAMM.enterSettlementPhase in Hsome.
    rewrite onPool_unknown in Hsome by done. cbn [snd] in Hsome. congruence.
Qed.

Lemma pricesSet_step (w : WPreMarketAMM.World) (op : AmmOp) :
  pricesSet w -> pricesSet (ammStep w op).
Proof.
  intros Hinv poolId pool' Hat'.
  destruct (poolAt poolId w) as [pool|] eqn:Hat.
  - destruct (ammStep_after w op) as (_ & _ & Hsame & _).
    destruct (Hsame poolId pool Hat) as (pool'' & Hat'' & _ & Hset & _).
    rewrite Hat' in Hat''. injection Hat'' as <-.
    apply Hset, (Hinv poolId). done.
  - destruct (ammStep_created w op poolId pool' Hat Hat')
      as (b & p & lo & hi & _ & ->).
    done.
Qed.

Lemma pricesSet_run (tokens : TokenRef -> Token.Token) (ops : list AmmOp) :
  pricesSet (ammRun ops (ammInitial tokens)).
Proof.
  assert (H : forall w, pricesSet w -> pricesSet (ammRun ops w)).
  { induction ops as [|op ops IH]; intros w Hw; [done|].
    rewrite ammRun_cons. apply IH, pricesSet_step. done. }
  apply H. intros poolId pool Hat. done.
Qed.

(** X22.  Only a swap moves the price of a pool of the registry.  In a
    registry reached from an empty one by any history, every pool has its
    price set by the constructor; so a call that is not a swap on that
    pool leaves [getPrice] of the pool as it was: [addLiquidity] never
    sets the price of a pool with one range. *)
Theorem X22_only_swaps_move_the_price
    (tokens : TokenRef -> Token.Token) (ops : list AmmOp) (op : AmmOp)
    (poolId : string) :
  let w := ammRun ops (ammInitial tokens) in
  poolAt poolId w <> None ->
  isSwap op = false \/ target op w <> Some poolId ->
  (WPreMarketAMM.getPrice poolId (ammStep w op)).1
  = (WPreMarketAMM.getPrice poolId w).1.
Proof.
  intros w Hthere Hop.
  pose proof (pricesSet_run tokens ops) as Hinv. fold w in Hinv.
  rewrite !getPrice_value.
  destruct (decide (target op w = Some poolId)) as [Htarget|Hne].
  2:{ destruct (ammStep_after w op) as (_ & Hother & _).
      rewrite (Hother poolId Hne). done. }
  destruct Hop as [Hop|Hop]; [|done].
  destruct (poolAt poolId w) as [pool|] eqn:Hat; [|done].
  pose proof (Hinv poolId pool Hat) as Hset.
  destruct op as [b p lo hi|id lp a lo hi|id trader a|id trader a|id r|tok op];
    cbn [target isSwap] in Htarget, Hop; try done;
    injection Htarget as Htarget.
  - unfold ammStep. cbn [ammExec]. unfold ammReturning. cbn [snd].
    rewrite createPool_refused by (rewrite Htarget, Hat; done).
    cbn [snd]. rewrite Hat. done.
  - subst id. unfold ammStep. cbn [ammExec]. unfold ammReturning. cbn [snd].
    unfold WPreMarketAMM.addLiquidity.
    destruct (onPool_after poolId
                (BoundedLiquidityPool.addLiquidity lp a lo hi) w)
      as (_ & _ & _ & _ & Hself).
    { intros pw. apply poolKept_add. }
    rewrite (Hself pool Hat). f_equal.
    destruct (bounded_add_cases lp a lo hi
                (BoundedLiquidityPool.mkWorld (WPreMarketAMM.store w) pool))
      as [[e ->]|(_ & _ & _ & _ & _ & ->)]; [done|].
    cbn [snd]. unfold boundedAdded, boundedAddedPool.
    cbn [BoundedLiquidityPool.pool]. rewrite Hset. done.
  - subst id.
    destruct (enterSettlementPhase_world poolId r w) as [_ Hpools].
    unfold ammStep. cbn [ammExec]. unfold ammReturning. cbn [snd].
    unfold poolAt at 1, WPreMarketAMM.getAllPools. rewrite Hpools.
    destruct (onPool_after poolId
                (BoundedLiquidityPool.enterSettlementPhase r) w)
      as (_ & _ & _ & _ & Hself).
    { intros pw. apply poolKept_settle. }
    unfold poolAt, WPreMarketAMM.getAllPools in Hself.
    rewrite (Hself pool Hat). f_equal.
    destruct (bounded_settle_cases r
                (BoundedLiquidityPool.mkWorld (WPreMarketAMM.store w) pool))
      as [[e ->]|[_ ->]]; done.
Qed.

Lemma X22_only_swaps_move_the_price_witness :
  (WPreMarketAMM.getPrice "USDC-pX"
     (ammStep simulated (PoolAddLiquidity "USDC-pX" "LP1" 5000 1 5))).1
  = (WPreMarketAMM.getPrice "USDC-pX" simulated).1.
Proof.
  unfold simulated.
  apply (X22_only_swaps_move_the_price
           (tokensOf (usdc 10000 {[ "LP1" := 10000 ]}) (preX 0 ∅))
           [CreatePool 0%nat 1%nat 1 5]
           (PoolAddLiquidity "USDC-pX" "LP1" 5000 1 5) "USDC-pX").
  - cbn. discriminate.
  - left. reflexivity.
Defined.
